(** * Taskbook: the command layer, the query engine and the remote backend

    A shallow embedding of the [Taskbook] class (the command file, whose
    methods are named below as in the source) and of the remote half of
    [src/storage.js], with the properties of the specification stated over
    them.

    Conventions of the embedding.
    - A collection is the JS object read from a storage file: its keys are
      the decimal spellings of naturals, so it is a finite map from [N];
      [Object.keys] lists integer keys in ascending order.
    - An item is the plain object that [JSON.parse] returns; a field that
      is absent from the object reads as [false] (what [undefined] is in a
      test), and an absent [priority] is [None].
    - A command runs against the local files ([useDynamo] unset): a read
      parses the file afresh, a write replaces it.  The effects of a
      command are the two files and the calls made to [render].
    - [process.exit] and an uncaught [TypeError] end a command; both keep
      the files as they were at that point. *)

From Stdlib Require Import NArith Ascii String DecimalString DecimalN.
From stdpp Require Import gmap strings list fin_maps sorting.

Open Scope N_scope.

(** ** Items *)

(** The value of a [priority] field: the constructor stores a number,
    [updatePriority] stores the token it was given, a string. *)
Inductive jsprio :=
| PNum (n : N)
| PStr (s : string).

#[global] Instance jsprio_eq_dec : EqDecision jsprio.
Proof. solve_decision. Defined.

Record Item := mkItem {
  _id : N;
  _date : string;
  description : string;
  isStarred : bool;
  boards : list string;
  _isTask : bool;
  isComplete : bool;
  inProgress : bool;
  priority : option jsprio
}.

#[global] Instance Item_eq_dec : EqDecision Item.
Proof. solve_decision. Defined.

(** Field assignments [item.f = v]. *)
Definition set_id (v : N) (i : Item) : Item :=
  mkItem v (_date i) (description i) (isStarred i) (boards i)
         (_isTask i) (isComplete i) (inProgress i) (priority i).

Definition set_description (v : string) (i : Item) : Item :=
  mkItem (_id i) (_date i) v (isStarred i) (boards i)
         (_isTask i) (isComplete i) (inProgress i) (priority i).

Definition set_isStarred (v : bool) (i : Item) : Item :=
  mkItem (_id i) (_date i) (description i) v (boards i)
         (_isTask i) (isComplete i) (inProgress i) (priority i).

Definition set_boards (v : list string) (i : Item) : Item :=
  mkItem (_id i) (_date i) (description i) (isStarred i) v
         (_isTask i) (isComplete i) (inProgress i) (priority i).

Definition set_isComplete (v : bool) (i : Item) : Item :=
  mkItem (_id i) (_date i) (description i) (isStarred i) (boards i)
         (_isTask i) v (inProgress i) (priority i).

Definition set_inProgress (v : bool) (i : Item) : Item :=
  mkItem (_id i) (_date i) (description i) (isStarred i) (boards i)
         (_isTask i) (isComplete i) v (priority i).

Definition set_priority (v : jsprio) (i : Item) : Item :=
  mkItem (_id i) (_date i) (description i) (isStarred i) (boards i)
         (_isTask i) (isComplete i) (inProgress i) (Some v).

(** The level a stored priority stands for: a number or a numeral among
    1, 2 and 3; anything else falls back to 1. *)
Definition level_of (p : jsprio) : N :=
  match p with
  | PNum n => if bool_decide (n = 2 ∨ n = 3) then n else 1
  | PStr s => if String.eqb s "2" then 2 else if String.eqb s "3" then 3 else 1
  end.

(** Modelled from the spec: the [Task] constructor of [./task], which is
    not among the sources.  Section 3 of the specification gives a Task an
    id, a description, a non-empty board list, a creation date, the flag
    [isStarred] (default false), a [priority] that is an integer from 1 to
    3 (default 1) and the flags [isComplete] and [inProgress]; its scenarios
    start a new task incomplete and not in progress.  [today] is the date
    string of the day of creation. *)
Definition new_Task (today : string) (id : N) (desc : string)
    (bs : list string) (p : jsprio) : Item :=
  mkItem id today desc false bs true false false (Some (PNum (level_of p))).

(** Modelled from the spec: the [Note] constructor of [./note], which is
    not among the sources.  A Note has the fields of an item and none of
    the priority, completion and progress fields. *)
Definition new_Note (today : string) (id : N) (desc : string)
    (bs : list string) : Item :=
  mkItem id today desc false bs false false false None.

(** ** Collections *)

Abbreviation Collection := (gmap N Item).

(** [Object.keys(data)]: the integer keys, ascending.  A key is modelled by
    the number it spells, so [parseInt(id, 10)] of a key is that number. *)
Definition Object_keys (data : Collection) : list N :=
  merge_sort N.le (elements (dom data)).

(** [Math.max(...ids)] on a non-empty array of naturals. *)
Definition Math_max (ids : list N) : N := foldr N.max 0 ids.

(** An id is a JS number, that is a double: a natural below [2^53] is
    itself, a larger one is rounded to 53 significant bits, to the
    nearest and on a tie to the one with an even last bit.  (Numbers
    beyond the largest double, and keys from [10^21] on, which JS spells
    with an exponent, are not followed.) *)
Definition to_double (n : N) : N :=
  if n <? 2 ^ 53 then n
  else
    let e := N.size n - 53 in
    let q := N.shiftr n e in
    let r := N.land n (N.ones e) in
    let half := N.shiftl 1 (e - 1) in
    let q' := if r <? half then q
              else if half <? r then q + 1
              else if N.even q then q else q + 1 in
    N.shiftl q' e.

(** [parseInt(id, 10)] on the decimal spelling of a key, and [a + b] on
    two ids. *)
Definition parseInt (key : N) : N := to_double key.

Definition js_plus (a b : N) : N := to_double (a + b).

(** The decimal spelling of a key, and the key a property name denotes:
    [data[id]] with [id] a string finds an item only when [id] is the
    canonical spelling of one of the keys. *)
Definition key_string (n : N) : string :=
  NilEmpty.string_of_uint (N.to_uint n).

Definition key_of_string (s : string) : option N :=
  match NilEmpty.uint_of_string s with
  | Some d =>
      let n := N.of_uint d in
      if String.eqb (key_string n) s then Some n else None
  | None => None
  end.

Definition item_at (data : Collection) (id : string) : option Item :=
  match key_of_string id with
  | Some n => data !! n
  | None => None
  end.

(** [data[id] = item] for a property name that is a key of the model, and
    [delete data[id]]. *)
Definition put_item (id : string) (item : Item) (data : Collection) : Collection :=
  match key_of_string id with
  | Some n => <[n := item]> data
  | None => data
  end.

Definition delete_item (id : string) (data : Collection) : Collection :=
  match key_of_string id with
  | Some n => delete n data
  | None => data
  end.

(** ** Outcomes of effectful code *)

Inductive error :=
| TypeError (msg : string)
| SyntaxError
| RequestError (msg : string).

Section Monad.
Context {S : Type}.

Inductive outcome (A : Type) :=
| Ret (a : A) (s : S)
| Exit (code : N) (s : S)
| Throw (e : error) (s : S).

Definition M (A : Type) : Type := S → outcome A.

Definition ret {A} (a : A) : M A := λ s, Ret A a s.

Definition bind {A B} (m : M A) (k : A → M B) : M B := λ s,
  match m s with
  | Ret _ a s' => k a s'
  | Exit _ c s' => Exit B c s'
  | Throw _ e s' => Throw B e s'
  end.

Definition process_exit {A} (code : N) : M A := λ s, Exit A code s.

Definition throw {A} (e : error) : M A := λ s, Throw A e s.

(** [try { body } catch (err) { handler }]; leaving the process is not an
    exception. *)
Definition try_catch {A} (body : M A) (handler : error → M A) : M A := λ s,
  match body s with
  | Throw _ e s' => handler e s'
  | o => o
  end.

(** The state a computation leaves behind, however it ends. *)
Definition final {A} (o : outcome A) : S :=
  match o with
  | Ret _ _ s | Exit _ _ s | Throw _ _ s => s
  end.

End Monad.

Arguments outcome : clear implicits.
Arguments M : clear implicits.
Arguments Ret {S A} a s.
Arguments Exit {S A} code s.
Arguments Throw {S A} e s.

Declare Scope js_scope.
Notation "'let*' x ':=' m 'in' k" := (bind m (λ x, k))
  (at level 10, x pattern, m at level 100, k at level 200, only parsing) : js_scope.
Notation "m ';;' k" := (bind m (λ _, k))
  (at level 100, k at level 200, right associativity, only parsing) : js_scope.
Open Scope js_scope.

(** [array.forEach] with the variables the callback assigns threaded
    through as an accumulator. *)
Fixpoint forEach {S A B} (l : list A) (f : B → A → M S B) (acc : B) : M S B :=
  match l with
  | [] => ret acc
  | x :: l' => let* acc' := f acc x in forEach l' f acc'
  end.

(** ** The command layer: state and primitives *)

(** The id list a command works on: the array that [await] yields, or the
    promise itself where the async call was not awaited. *)
Inductive jsids :=
| Arr (l : list string)
| Promise.

(** Calls to the presentation layer ([./render], not among the sources),
    logged in the order they are made. *)
Inductive render_call :=
| missingID
| invalidID (id : string)
| missingDesc
| missingBoards
| invalidIDsNumber
| invalidPriority
| successCreate (item : Item)
| successDelete (ids : list string)
| successRestore (ids : jsids)
| successEdit (id : jsids)
| successMove (id : list string) (bs : list string)
| successPriority (id : list string) (level : string)
| markComplete (ids : list string)
| markIncomplete (ids : list string)
| markStarted (ids : list string)
| markPaused (ids : list string)
| markStarred (ids : list string)
| markUnstarred (ids : list string).

Record State := mkState {
  storage : gmap N Item;
  archive : gmap N Item;
  screen : list render_call
}.

Definition render (c : render_call) : M State unit := λ s,
  Ret () (mkState (storage s) (archive s) (screen s ++ [c])).

(** [this._storage.get()] and [this._storage.getArchive()] on the local
    files: an absent file reads as the empty collection. *)
Definition _data : M State (gmap N Item) := λ s, Ret (storage s) s.

Definition _archive : M State (gmap N Item) := λ s, Ret (archive s) s.

(** [_save] and [_saveArchive].  [_save] is async and its callers do not
    await it; on the local files [Storage.set] meets no [await], so the
    file is written before the call returns. *)
Definition _save (data : gmap N Item) : M State unit := λ s,
  Ret () (mkState data (archive s) (screen s)).

Definition _saveArchive (data : gmap N Item) : M State unit := λ s,
  Ret () (mkState (storage s) data (screen s)).

(** The argument of [_validateIDs]: an array of tokens, or (from the
    single-target commands) one string. *)
Inductive idarg :=
| AArr (l : list string)
| AStr (s : string).

Definition _arrayify (x : idarg) : list string :=
  match x with
  | AArr l => l
  | AStr s => [s]
  end.

(** [x.length] of an array or of a string. *)
Definition arg_length (x : idarg) : nat :=
  match x with
  | AArr l => length l
  | AStr s => String.length s
  end.

(** [[...new Set(l)]]: the first occurrence of each element, in order. *)
Fixpoint Set_spread_from (seen l : list string) : list string :=
  match l with
  | [] => []
  | x :: l' =>
      if bool_decide (x ∈ seen) then Set_spread_from seen l'
      else x :: Set_spread_from (x :: seen) l'
  end.

Definition Set_spread (l : list string) : list string := Set_spread_from [] l.

Definition _removeDuplicates (x : idarg) : list string :=
  Set_spread (_arrayify x).

(** [existingIDs.indexOf(v) === -1] is the negation of this test; [v] is
    [None] when the tested value is no natural number. *)
Definition has_number (existingIDs : list N) (v : option N) : bool :=
  match v with
  | Some n => bool_decide (n ∈ existingIDs)
  | None => false
  end.

(** [['p:1', 'p:2', 'p:3'].indexOf(x) > -1] *)
Definition _isPriorityOpt (x : string) : bool :=
  bool_decide (x ∈ ["p:1"; "p:2"; "p:3"]).

(** [x.startsWith('@')] *)
Definition startsWith_at (x : string) : bool := String.prefix "@" x.

(** [target.replace('@', '')]: the first ['@'] is dropped. *)
Fixpoint replace_at (s : string) : string :=
  match s with
  | EmptyString => EmptyString
  | String c r => if Ascii.eqb c "@"%char then r else String c (replace_at r)
  end.

(** [array.find(p)] *)
Fixpoint find_first (p : string → bool) (l : list string) : option string :=
  match l with
  | [] => None
  | x :: l' => if p x then Some x else find_first p l'
  end.

(** [opt[opt.length - 1]]: the last character, as a string. *)
Fixpoint last_char (s : string) : string :=
  match s with
  | EmptyString => EmptyString
  | String c EmptyString => String c EmptyString
  | String _ r => last_char r
  end.

(** [desc.join(' ')] *)
Definition join_space (l : list string) : string := String.concat " " l.

(** The property name an array stands for in [data[id]]: [id.join(',')]. *)
Definition array_key (l : list string) : string := String.concat "," l.

(** The property name a value stands for in [data[id]]. *)
Definition property_name (id : jsids) : string :=
  match id with
  | Arr l => array_key l
  | Promise => "[object Promise]"
  end.

(** [ids.forEach(callback)]: a promise has no [forEach]. *)
Definition forEach_ids {B} (ids : jsids) (f : B → string → M State B) (acc : B)
    : M State B :=
  match ids with
  | Arr l => forEach l f acc
  | Promise => throw (TypeError "ids.forEach is not a function")
  end.

(** An async method called without [await] whose body meets no [await]
    itself: the body runs at the call and the caller is handed a promise. *)
Definition unawaited {A} (body : M State A) : M State jsids :=
  body;; ret Promise.

(** An async method called without [await] whose body starts by awaiting:
    the caller goes on with a promise in hand, and the body is resumed
    once the caller has stopped (by an exception, for the callers below;
    a caller that has left the process is not followed by anything).  The
    body may still end the process. *)
Definition detached {A B} (body : M State A) (caller : M State B) : M State B :=
  λ s,
    match caller s with
    | Exit c s' => Exit c s'
    | Ret b s' =>
        match body s' with
        | Exit c s'' => Exit c s''
        | Ret _ s'' | Throw _ s'' => Ret b s''
        end
    | Throw e s' =>
        match body s' with
        | Exit c s'' => Exit c s''
        | Ret _ s'' | Throw _ s'' => Throw e s''
        end
    end.

(** ** The command layer: the methods of [Taskbook] *)

Section Taskbook.

(** [Number(id)] on a token: [Some n] when the token converts to the
    natural [n], [None] when it converts to anything else ([NaN], a
    fraction, a negative number), which no id equals. *)
Variable Number : string → option N.

Definition _getIDs (data : option (gmap N Item)) : M State (list N) :=
  let* data := match data with Some d => ret d | None => _data end in
  ret (Object_keys data).

Definition _generateID (data : option (gmap N Item)) : M State N :=
  let* data := match data with Some d => ret d | None => _data end in
  let ids := parseInt <$> Object_keys data in
  let max := if Nat.eqb (length ids) 0 then 0 else Math_max ids in
  ret (js_plus max 1).

Definition _validateIDs (inputIDs : idarg) (existingIDs : option (list N))
    : M State (list string) :=
  let* existingIDs :=
    match existingIDs with Some e => ret e | None => _getIDs None end in
  (if Nat.eqb (arg_length inputIDs) 0
   then render missingID;; process_exit 1
   else ret ());;
  let inputIDs := _removeDuplicates inputIDs in
  forEach inputIDs (λ _ id,
    if negb (has_number existingIDs (Number id))
    then render (invalidID id);; process_exit 1
    else ret ()) ();;
  ret inputIDs.

Definition _getPriority (desc : list string) : jsprio :=
  match find_first _isPriorityOpt desc with
  | Some opt => PStr (last_char opt)
  | None => PNum 1
  end.

Definition _getOptions (input : list string)
    : M State (list string * string * N * jsprio) :=
  (if Nat.eqb (length input) 0
   then render missingDesc;; process_exit 1
   else ret ());;
  let* id := _generateID None in
  let priority := _getPriority input in
  let '(boards, desc) :=
    foldl (λ '(boards, desc) x,
      if negb (_isPriorityOpt x) then
        if startsWith_at x && Nat.ltb 1 (String.length x)
        then (boards ++ [x], desc)
        else (boards, desc ++ [x])
      else (boards, desc)) ([], []) input in
  let description := join_space desc in
  let boards := if Nat.eqb (length boards) 0 then boards ++ ["My Board"] else boards in
  ret (boards, description, id, priority).

Definition _saveItemToArchive (item : option Item) : M State unit :=
  let* _archive := _archive in
  let* archiveID := _generateID (Some _archive) in
  match item with
  | None => throw (TypeError "item is undefined")
  | Some item =>
      let item := set_id archiveID item in
      let _archive := <[archiveID := item]> _archive in
      _saveArchive _archive
  end.

Definition _saveItemToStorage (item : option Item) : M State unit :=
  let* _data := _data in
  let* restoreID := _generateID None in
  match item with
  | None => throw (TypeError "item is undefined")
  | Some item =>
      let item := set_id restoreID item in
      let _data := <[restoreID := item]> _data in
      _save _data
  end.

Definition createNote (today : string) (desc : list string) : M State unit :=
  let* (boards, description, id, _) := _getOptions desc in
  let note := new_Note today id description boards in
  let* _data := _data in
  let _data := <[id := note]> _data in
  _save _data;;
  render (successCreate note).

Definition checkTasks (ids : list string) : M State unit :=
  let* ids := _validateIDs (AArr ids) None in
  let* _data := _data in
  let* (_data, checked, unchecked) :=
    forEach ids (λ '(_data, checked, unchecked) id,
      match item_at _data id with
      | None => throw (TypeError "_data[id] is undefined")
      | Some item =>
          if _isTask item then
            let item := set_inProgress false item in
            let item := set_isComplete (negb (isComplete item)) item in
            let _data := put_item id item _data in
            if isComplete item
            then ret (_data, checked ++ [id], unchecked)
            else ret (_data, checked, unchecked ++ [id])
          else ret (_data, checked, unchecked)
      end) (_data, [], []) in
  _save _data;;
  render (markComplete checked);;
  render (markIncomplete unchecked).

Definition beginTasks (ids : list string) : M State unit :=
  detached (_validateIDs (AArr ids) None)
    (let ids := Promise in
     let* _data := _data in
     let* (_data, started, paused) :=
       forEach_ids ids (λ '(_data, started, paused) id,
         match item_at _data id with
         | None => throw (TypeError "_data[id] is undefined")
         | Some item =>
             if _isTask item then
               let item := set_isComplete false item in
               let item := set_inProgress (negb (inProgress item)) item in
               let _data := put_item id item _data in
               if inProgress item
               then ret (_data, started ++ [id], paused)
               else ret (_data, started, paused ++ [id])
             else ret (_data, started, paused)
         end) (_data, [], []) in
     _save _data;;
     render (markStarted started);;
     render (markPaused paused)).

Definition createTask (today : string) (desc : list string) : M State unit :=
  let* (boards, description, id, priority) := _getOptions desc in
  let task := new_Task today id description boards priority in
  let* _data := _data in
  let _data := <[id := task]> _data in
  _save _data;;
  render (successCreate task).

Definition deleteItems (ids : list string) : M State unit :=
  let* ids := _validateIDs (AArr ids) None in
  let* _data := _data in
  let* _data :=
    forEach ids (λ _data _id,
      _saveItemToArchive (item_at _data _id);;
      ret (delete_item _id _data)) _data in
  _save _data;;
  render (successDelete ids).

Definition editDescription (input : list string) : M State unit :=
  let targets := filter (λ x, startsWith_at x = true) input in
  match targets with
  | [] => render missingID;; process_exit 1
  | [target] =>
      detached (_validateIDs (AStr (replace_at target)) None)
        (let id := Promise in
         let newDesc := join_space (filter (λ x, x ≠ target) input) in
         (if Nat.eqb (String.length newDesc) 0
          then render missingDesc;; process_exit 1
          else ret ());;
         let* _data := _data in
         match item_at _data (property_name id) with
         | None => throw (TypeError "_data[id] is undefined")
         | Some item =>
             let _data := put_item (property_name id) (set_description newDesc item) _data in
             _save _data;;
             render (successEdit id)
         end)
  | _ => render invalidIDsNumber;; process_exit 1
  end.

Definition moveBoards (input : list string) : M State unit :=
  let targets := filter (λ x, startsWith_at x = true) input in
  match targets with
  | [] => render missingID;; process_exit 1
  | [target] =>
      let* id := _validateIDs (AStr (replace_at target)) None in
      let boards :=
        (λ x, if String.eqb x "myboard" then "My Board" else "@" +:+ x)
          <$> filter (λ x, x ≠ target) input in
      (if Nat.eqb (length boards) 0
       then render missingBoards;; process_exit 1
       else ret ());;
      let boards := Set_spread boards in
      let* _data := _data in
      match item_at _data (array_key id) with
      | None => throw (TypeError "_data[id] is undefined")
      | Some item =>
          let _data := put_item (array_key id) (set_boards boards item) _data in
          _save _data;;
          render (successMove id boards)
      end
  | _ => render invalidIDsNumber;; process_exit 1
  end.

Definition restoreItems (ids : list string) : M State unit :=
  let* existingIDs := (let* a := _archive in _getIDs (Some a)) in
  let* ids := unawaited (_validateIDs (AArr ids) (Some existingIDs)) in
  let* _archive := _archive in
  let* _archive :=
    forEach_ids ids (λ _archive id,
      _saveItemToStorage (item_at _archive id);;
      ret (delete_item id _archive)) _archive in
  _saveArchive _archive;;
  render (successRestore ids).

Definition starItems (ids : list string) : M State unit :=
  let* ids := _validateIDs (AArr ids) None in
  let* _data := _data in
  let* (_data, starred, unstarred) :=
    forEach ids (λ '(_data, starred, unstarred) id,
      match item_at _data id with
      | None => throw (TypeError "_data[id] is undefined")
      | Some item =>
          let item := set_isStarred (negb (isStarred item)) item in
          let _data := put_item id item _data in
          if isStarred item
          then ret (_data, starred ++ [id], unstarred)
          else ret (_data, starred, unstarred ++ [id])
      end) (_data, [], []) in
  _save _data;;
  render (markStarred starred);;
  render (markUnstarred unstarred).

Definition updatePriority (input : list string) : M State unit :=
  match find_first (λ x, bool_decide (x ∈ ["1"; "2"; "3"])) input with
  | None => render invalidPriority;; process_exit 1
  | Some level =>
      let targets := filter (λ x, startsWith_at x = true) input in
      match targets with
      | [] => render missingID;; process_exit 1
      | [target] =>
          let* id := _validateIDs (AStr (replace_at target)) None in
          let* _data := _data in
          match item_at _data (array_key id) with
          | None => throw (TypeError "_data[id] is undefined")
          | Some item =>
              let _data := put_item (array_key id) (set_priority (PStr level) item) _data in
              _save _data;;
              render (successPriority id level)
          end
      | _ => render invalidIDsNumber;; process_exit 1
      end
  end.

Definition clear : M State unit :=
  let* _data := _data in
  let ids :=
    foldl (λ ids id,
      match _data !! id with
      | Some item => if isComplete item then ids ++ [key_string id] else ids
      | None => ids
      end) [] (Object_keys _data) in
  match ids with
  | [] => ret ()
  | _ => deleteItems ids
  end.

(** The commands that write, as one type, for statements about all of
    them. *)
Inductive command :=
| CreateTask (today : string) (desc : list string)
| CreateNote (today : string) (desc : list string)
| CheckTasks (ids : list string)
| BeginTasks (ids : list string)
| StarItems (ids : list string)
| MoveBoards (input : list string)
| EditDescription (input : list string)
| UpdatePriority (input : list string)
| DeleteItems (ids : list string)
| RestoreItems (ids : list string)
| Clear.

Definition run (c : command) : M State unit :=
  match c with
  | CreateTask today desc => createTask today desc
  | CreateNote today desc => createNote today desc
  | CheckTasks ids => checkTasks ids
  | BeginTasks ids => beginTasks ids
  | StarItems ids => starItems ids
  | MoveBoards input => moveBoards input
  | EditDescription input => editDescription input
  | UpdatePriority input => updatePriority input
  | DeleteItems ids => deleteItems ids
  | RestoreItems ids => restoreItems ids
  | Clear => clear
  end.

(** The states that a sequence of commands reaches from a given one. *)
Inductive reachable (s0 : State) : State → Prop :=
| reach_start : reachable s0 s0
| reach_step s c : reachable s0 s → reachable s0 (final (run c s)).

End Taskbook.

(** [Number] on the tokens made of decimal digits only, which is what an
    id typed at the command line looks like; used to run the commands on
    concrete inputs. *)
Definition Number_digits (s : string) : option N :=
  N.of_uint <$> NilEmpty.uint_of_string s.

(** No task is both complete and in progress. *)
Definition exclusive (item : Item) : Prop :=
  _isTask item = true → ¬ (isComplete item = true ∧ inProgress item = true).

Definition all_exclusive (data : gmap N Item) : Prop :=
  ∀ id item, data !! id = Some item → exclusive item.

Definition state_exclusive (s : State) : Prop :=
  all_exclusive (storage s) ∧ all_exclusive (archive s).

Definition empty_state : State := mkState ∅ ∅ [].

(** ** The query engine, on objects that are shared

    The filters delete properties of the object they are handed, so here a
    collection is an object on a heap, named by a reference; what a read of
    the storage returns is a new object. *)

Abbreviation Grouping := (gmap string (list Item)).

Inductive display_call :=
| displayByBoard (g : Grouping)
| displayByDate (g : Grouping).

Record Mem := mkMem {
  heap : gmap N (gmap N Item);
  disk : gmap N Item;
  displayed : list display_call
}.

(** The object a reference names. *)
Definition obj (m : Mem) (r : N) : gmap N Item := default ∅ (heap m !! r).

Definition next_ref (h : gmap N (gmap N Item)) : N :=
  Math_max (elements (dom h)) + 1.

(** A new object with the given properties. *)
Definition alloc (c : gmap N Item) : M Mem N := λ m,
  let r := next_ref (heap m) in
  Ret r (mkMem (<[r := c]> (heap m)) (disk m) (displayed m)).

(** [this._data()]: the storage file parsed into a new object. *)
Definition read_data : M Mem N := λ m, alloc (disk m) m.

Definition keys_of (data : N) : M Mem (list N) := λ m,
  Ret (Object_keys (obj m data)) m.

(** [data[id]], [data[id] = item] and [delete data[id]] *)
Definition get_prop (data id : N) : M Mem (option Item) := λ m,
  Ret (obj m data !! id) m.

Definition set_prop (data id : N) (item : Item) : M Mem unit := λ m,
  Ret () (mkMem (<[data := <[id := item]> (obj m data)]> (heap m)) (disk m) (displayed m)).

Definition delete_prop (data id : N) : M Mem unit := λ m,
  Ret () (mkMem (<[data := delete id (obj m data)]> (heap m)) (disk m) (displayed m)).

Definition display (c : display_call) : M Mem unit := λ m,
  Ret () (mkMem (heap m) (disk m) (displayed m ++ [c])).

(** The common shape of the six filters:
    [Object.keys(data).forEach(id => { if (test(data[id])) delete data[id]; });
     return data;] *)
Definition delete_where (test : Item → bool) (data : N) : M Mem N :=
  let* keys := keys_of data in
  forEach keys (λ _ id,
    let* item := get_prop data id in
    match item with
    | None => throw (TypeError "data[id] is undefined")
    | Some item => if test item then delete_prop data id else ret ()
    end) ();;
  ret data.

Definition _filterTask : N → M Mem N :=
  delete_where (λ item, negb (_isTask item)).

Definition _filterStarred : N → M Mem N :=
  delete_where (λ item, negb (isStarred item)).

Definition _filterInProgress : N → M Mem N :=
  delete_where (λ item, negb (_isTask item) || negb (inProgress item)).

Definition _filterComplete : N → M Mem N :=
  delete_where (λ item, negb (_isTask item) || negb (isComplete item)).

Definition _filterPending : N → M Mem N :=
  delete_where (λ item, negb (_isTask item) || isComplete item).

Definition _filterNote : N → M Mem N :=
  delete_where (λ item, _isTask item).

Definition one_of (x : string) (l : list string) : bool := bool_decide (x ∈ l).

Definition _filterByAttributes (attr : list string) (data : option N) : M Mem N :=
  let* data := match data with Some d => ret d | None => read_data end in
  let* keys := keys_of data in
  if Nat.eqb (length keys) 0 then ret data
  else
    let* data :=
      forEach attr (λ data x,
        if one_of x ["star"; "starred"] then _filterStarred data
        else if one_of x ["done"; "checked"; "complete"] then _filterComplete data
        else if one_of x ["progress"; "started"; "begun"] then _filterInProgress data
        else if one_of x ["pending"; "unchecked"; "incomplete"] then _filterPending data
        else if one_of x ["todo"; "task"; "tasks"] then _filterTask data
        else if one_of x ["note"; "notes"] then _filterNote data
        else ret data) data in
    ret data.

Definition _getBoards : M Mem (list string) :=
  let* _data := read_data in
  let* keys := keys_of _data in
  forEach keys (λ bs id,
    let* item := get_prop _data id in
    match item with
    | None => throw (TypeError "_data[id] is undefined")
    | Some item => ret (bs ++ filter (λ x, x ∉ bs) (boards item))
    end) ["My Board"].

Definition _getDates (data : option N) : M Mem (list string) :=
  let* data := match data with Some d => ret d | None => read_data end in
  let* keys := keys_of data in
  forEach keys (λ dates id,
    let* item := get_prop data id in
    match item with
    | None => throw (TypeError "data[id] is undefined")
    | Some item =>
        if bool_decide (_date item ∈ dates) then ret dates
        else ret (dates ++ [_date item])
    end) [].

(** [grouped[k].push(item)], or [grouped[k] = [item]] for a new key. *)
Definition push_group (k : string) (item : Item) (grouped : Grouping) : Grouping :=
  match grouped !! k with
  | Some l => <[k := l ++ [item]]> grouped
  | None => <[k := [item]]> grouped
  end.

Definition _groupByBoard (data : option N) (bs : list string) : M Mem Grouping :=
  let* data := match data with Some d => ret d | None => read_data end in
  let* bs := if Nat.eqb (length bs) 0 then _getBoards else ret bs in
  let* keys := keys_of data in
  forEach keys (λ grouped id,
    let* item := get_prop data id in
    match item with
    | None => throw (TypeError "data[id] is undefined")
    | Some item =>
        ret (foldl (λ grouped board,
               if bool_decide (board ∈ boards item)
               then push_group board item grouped
               else grouped) grouped bs)
    end) ∅.

Definition _groupByDate (data : option N) (dates : option (list string))
    : M Mem Grouping :=
  let* data := match data with Some d => ret d | None => read_data end in
  let* dates := match dates with Some d => ret d | None => _getDates None end in
  let* keys := keys_of data in
  forEach keys (λ grouped id,
    let* item := get_prop data id in
    match item with
    | None => throw (TypeError "data[id] is undefined")
    | Some item =>
        ret (foldl (λ grouped date,
               if String.eqb (_date item) date
               then push_group date item grouped
               else grouped) grouped dates)
    end) ∅.

(** [s.indexOf(t) > -1] *)
Fixpoint includes (s t : string) : bool :=
  String.prefix t s ||
  match s with
  | EmptyString => false
  | String _ r => includes r t
  end.

(** A string in a test: the empty string counts as false. *)
Definition truthy (o : option string) : bool :=
  match o with
  | Some (String _ _) => true
  | _ => false
  end.

Section Search.

Variable toLocaleLowerCase : string → string.

(** Returns the string itself at the first term found in it, and nothing
    ([undefined]) when no term is. *)
Definition _hasTerms (str : string) (terms : list string) : option string :=
  if existsb (λ term, includes (toLocaleLowerCase str) (toLocaleLowerCase term)) terms
  then Some str
  else None.

Definition findItems (terms : list string) : M Mem unit :=
  let* result := alloc ∅ in
  let* _data := read_data in
  let* keys := keys_of _data in
  forEach keys (λ _ id,
    let* item := get_prop _data id in
    match item with
    | None => throw (TypeError "_data[id] is undefined")
    | Some item =>
        if negb (truthy (_hasTerms (description item) terms)) then ret ()
        else set_prop result id item
    end) ();;
  let* g := _groupByBoard (Some result) [] in
  display (displayByBoard g).

End Search.

Definition listByAttributes (terms : list string) : M Mem unit :=
  let* storedBoards := _getBoards in
  let '(bs, attributes) :=
    foldl (λ '(bs, attributes) x,
      if negb (bool_decide (("@" +:+ x) ∈ storedBoards)) then
        if String.eqb x "myboard" then (bs ++ ["My Board"], attributes)
        else (bs, attributes ++ [x])
      else (bs ++ ["@" +:+ x], attributes)) ([], []) terms in
  let bs := Set_spread bs in
  let attributes := Set_spread attributes in
  let* data := _filterByAttributes attributes None in
  let* g := _groupByBoard (Some data) bs in
  display (displayByBoard g).


(** The test an attribute list amounts to: every recognised tag must
    hold of the item. *)
Definition tag_holds (x : string) (item : Item) : bool :=
  if one_of x ["star"; "starred"] then isStarred item
  else if one_of x ["done"; "checked"; "complete"] then _isTask item && isComplete item
  else if one_of x ["progress"; "started"; "begun"] then _isTask item && inProgress item
  else if one_of x ["pending"; "unchecked"; "incomplete"] then _isTask item && negb (isComplete item)
  else if one_of x ["todo"; "task"; "tasks"] then _isTask item
  else if one_of x ["note"; "notes"] then negb (_isTask item)
  else true.

Definition tags_hold (attr : list string) (item : Item) : bool :=
  forallb (λ x, tag_holds x item) attr.

(** ** The storage backend ([src/storage.js] and [src/dynamo.js]) *)

Module Storage.

Record Config := mkConfig {
  useDynamo : bool;
  dynamoBaseUrl : option string;
  dynamoToken : option string;
  dynamoNamespace : option string
}.

(** A configuration value in a test: absent and empty both count as
    false. *)
Definition is_set (v : option string) : bool := truthy v.

Definition text (v : option string) : string := default EmptyString v.

(** The client that [createInstance] builds. *)
Record Instance := mkInstance {
  baseURL : string;
  authorization : string
}.

Inductive request :=
| GET (via : Instance) (path : string)
| PUT (via : Instance) (path : string) (body : gmap N Item).

(** What a request comes back with: a response, of which the code reads
    [res.data.value], or a transport failure with its message. *)
Inductive reply :=
| Resolved (value : option string)
| Rejected (message : string).

Inductive notice :=
| missingConfig (key : string)
| errorHttpRequest (message : string).

Record World := mkWorld {
  sent : list request;
  main_file : option string;
  notices : list notice
}.

Definition notify (n : notice) : M World unit := λ w,
  Ret () (mkWorld (sent w) (main_file w) (notices w ++ [n])).

Section Backend.

(** The network: the reply to a request, given the requests sent before
    it. *)
Variable network : list request → request → reply.

(** [JSON.parse] ([None] where it throws) and [JSON.stringify]. *)
Variable JSON_parse : string → option (gmap N Item).
Variable JSON_stringify : gmap N Item → string.

Definition createInstance (base token : string) : Instance :=
  mkInstance base ("token " +:+ token).

(** One request through the client of [createInstance]: a failure goes
    through the response interceptor, which shows the message and rejects
    again. *)
Definition perform (r : request) : M World (option string) := λ w,
  let w' := mkWorld (sent w ++ [r]) (main_file w) (notices w) in
  match network (sent w) r with
  | Resolved value => Ret value w'
  | Rejected message =>
      (notify (errorHttpRequest message);; throw (RequestError message)) w'
  end.

Definition _checkAndGetDynamoInstance (cfg : Config) : M World Instance :=
  (if negb (is_set (dynamoBaseUrl cfg))
   then notify (missingConfig "dynamoBaseUrl");; process_exit 1
   else ret ());;
  (if negb (is_set (dynamoToken cfg))
   then notify (missingConfig "dynamoToken");; process_exit 1
   else ret ());;
  (if negb (is_set (dynamoNamespace cfg))
   then notify (missingConfig "dynamoNamespace");; process_exit 1
   else ret ());;
  ret (createInstance (text (dynamoBaseUrl cfg)) (text (dynamoToken cfg))).

Definition _mainStorageDynamoKey : string := "storage.json".

Definition dynamo_path (cfg : Config) : string :=
  "/api/" +:+ text (dynamoNamespace cfg) +:+ "/" +:+ _mainStorageDynamoKey.

Definition _getFromDynamo (cfg : Config) : M World (gmap N Item) :=
  let* instance := _checkAndGetDynamoInstance cfg in
  try_catch
    (let data := ∅ in
     let* value := perform (GET instance (dynamo_path cfg)) in
     if truthy value then
       match JSON_parse (text value) with
       | Some data => ret data
       | None => throw SyntaxError
       end
     else ret data)
    (λ err, ret ∅).

Definition _setToDynamo (cfg : Config) (data : gmap N Item) : M World unit :=
  let* instance := _checkAndGetDynamoInstance cfg in
  try_catch
    (perform (PUT instance (dynamo_path cfg) data);; ret ())
    (λ err, ret ()).

(** [Storage.get] and [Storage.set]; the local file is written through a
    scratch file that is renamed over it. *)
Definition get (cfg : Config) : M World (gmap N Item) :=
  if useDynamo cfg then _getFromDynamo cfg
  else λ w,
    match main_file w with
    | Some content =>
        match JSON_parse content with
        | Some data => Ret data w
        | None => Throw SyntaxError w
        end
    | None => Ret ∅ w
    end.

Definition set (cfg : Config) (data : gmap N Item) : M World unit :=
  if useDynamo cfg then _setToDynamo cfg data
  else λ w, Ret () (mkWorld (sent w) (Some (JSON_stringify data)) (notices w)).

End Backend.

(** A configuration with the three remote settings present. *)
Definition remote_ready (cfg : Config) : Prop :=
  is_set (dynamoBaseUrl cfg) = true ∧
  is_set (dynamoToken cfg) = true ∧
  is_set (dynamoNamespace cfg) = true.

End Storage.

(** ** Notions used in the statements *)

(** [ends o Q E]: a result satisfies [Q]; a process exit or an exception
    leaves a state that satisfies [E]. *)
Definition ends {S A} (o : outcome S A) (Q : A → S → Prop) (E : S → Prop) : Prop :=
  match o with
  | Ret a s => Q a s
  | Exit _ s | Throw _ s => E s
  end.

(** The token names no item of the collection: whatever number it
    converts to is not a key. *)
Definition absent_from (Number : string → option N) (target : gmap N Item)
    (id : string) : Prop :=
  ∀ n, Number id = Some n → target !! n = None.

(** The token converts to a key of the collection. *)
Definition present_in (Number : string → option N) (target : gmap N Item)
    (id : string) : Prop :=
  ∃ n, Number id = Some n ∧ is_Some (target !! n).

(** Both files are as they were. *)
Definition same_files (s s' : State) : Prop :=
  storage s' = storage s ∧ archive s' = archive s.

(** The command left the process with status 1 and wrote nothing. *)
Definition aborted {A} (o : outcome State A) (s : State) : Prop :=
  ∃ s', o = Exit 1 s' ∧ same_files s s'.

(** The first token of the list that fails validation. *)
Definition first_invalid (Number : string → option N) (existingIDs : list N)
    (ids : list string) : option string :=
  find_first (λ id, negb (has_number existingIDs (Number id))) ids.

(** What [check] does to a task. *)
Definition checked_item (item : Item) : Item :=
  set_isComplete (negb (isComplete item)) (set_inProgress false item).

(** The reading of a create input that the specification gives: board
    tags, the level of the first priority token, and the words left. *)
Definition is_board_tag (x : string) : bool :=
  startsWith_at x && Nat.ltb 1 (String.length x).

Definition board_tags (input : list string) : list string :=
  filter (λ x, is_board_tag x = true) input.

Definition plain_words (input : list string) : list string :=
  filter (λ x, is_board_tag x = false ∧ _isPriorityOpt x = false) input.

Definition priority_level (input : list string) : N :=
  match find_first _isPriorityOpt input with
  | Some opt =>
      if String.eqb opt "p:1" then 1
      else if String.eqb opt "p:2" then 2
      else 3
  | None => 1
  end.

(** The id that [_generateID] hands out for a collection. *)
Definition next_id (data : gmap N Item) : N :=
  js_plus (if Nat.eqb (length (parseInt <$> Object_keys data)) 0 then 0
           else Math_max (parseInt <$> Object_keys data)) 1.

(** The collection leaves room for [n] more ids before a JS number stops
    being exact: counting on from any of its keys, or from 0, [n] steps
    end at [2^53] at most. *)
Definition headroom (n : N) (data : gmap N Item) : Prop :=
  n ≤ 2 ^ 53 ∧ ∀ k, is_Some (data !! k) → k + n ≤ 2 ^ 53.

(** From [m] to [m'] nothing but the object [data] may have changed. *)
Definition only_changes (data : N) (m m' : Mem) : Prop :=
  (∀ r, r ≠ data → heap m' !! r = heap m !! r) ∧
  disk m' = disk m ∧ displayed m' = displayed m.

(** From [m] to [m'] every object that existed is as it was, and so is the
    storage file. *)
Definition keeps_objects (m m' : Mem) : Prop :=
  (∀ r c, heap m !! r = Some c → heap m' !! r = Some c) ∧ disk m' = disk m.

(** ** More of the command layer *)

(** [_getStats]: the counts of complete, in-progress and pending tasks and
    of notes, and the percentage of complete tasks.  The result is the
    tuple [(percent, complete, inProgress, pending, notes)]. *)
Definition _getStats : M State (N * N * N * N * N) :=
  let* _data := _data in
  let* (complete, progress, pending, notes) :=
    forEach (Object_keys _data) (λ '(complete, progress, pending, notes) id,
      match _data !! id with
      | None => throw (TypeError "_data[id] is undefined")
      | Some item =>
          if _isTask item then
            if isComplete item then ret (complete + 1, progress, pending, notes)
            else if inProgress item then ret (complete, progress + 1, pending, notes)
            else ret (complete, progress, pending + 1, notes)
          else ret (complete, progress, pending, notes + 1)
      end) (0, 0, 0, 0) in
  let total := complete + pending + progress in
  let percent := if N.eqb total 0 then 0 else (complete * 100) / total in
  ret (percent, complete, progress, pending, notes).

(** ** Further notions used in the statements *)

(** The loop that [checkTasks] and [starItems] share, up to the test that
    selects an item, the update it gets and the bucket its id goes to. *)
Definition toggle_round (app : Item → bool) (upd : Item → Item) (side : Item → bool)
    (acc : gmap N Item * list string * list string) (id : string)
    : M State (gmap N Item * list string * list string) :=
  let '(_data, yes, no) := acc in
  match item_at _data id with
  | None => throw (TypeError "_data[id] is undefined")
  | Some item =>
      if app item then
        if side (upd item)
        then ret (put_item id (upd item) _data, yes ++ [id], no)
        else ret (put_item id (upd item) _data, yes, no ++ [id])
      else ret (_data, yes, no)
  end.

(** The item a toggling command leaves under key [k]: updated when the
    spelling of [k] is among the ids and the item is selected. *)
Definition toggled (app : Item → bool) (upd : Item → Item) (ids : list string)
    (k : N) (item : Item) : Item :=
  if bool_decide (key_string k ∈ ids) && app item then upd item else item.

(** The id names a selected item whose update lands on the given side. *)
Definition lands (app : Item → bool) (upd : Item → Item) (side : Item → bool)
    (want : bool) (data : gmap N Item) (id : string) : bool :=
  match item_at data id with
  | Some item => app item && Bool.eqb (side (upd item)) want
  | None => false
  end.

(** What [starItems] does to an item. *)
Definition starred_item (item : Item) : Item :=
  set_isStarred (negb (isStarred item)) item.

(** Every entry of [a] is still in [a']. *)
Definition grows (a a' : gmap N Item) : Prop :=
  ∀ k item, a !! k = Some item → a' !! k = Some item.

(** A property of the items of both files, which may depend on the key. *)
Definition all_items (P : N → Item → Prop) (s : State) : Prop :=
  (∀ k item, storage s !! k = Some item → P k item) ∧
  (∀ k item, archive s !! k = Some item → P k item).

(** The items of a collection, by ascending key. *)
Definition items_of (data : gmap N Item) : list Item :=
  omap (λ k, data !! k) (Object_keys data).

(** The item under key [k] exists and reads as complete. *)
Definition complete_at (data : gmap N Item) (k : N) : bool :=
  match data !! k with
  | Some item => isComplete item
  | None => false
  end.

(** The board names [moveBoards] makes of the tokens that are not the
    target. *)
Definition moved_boards (target : string) (input : list string) : list string :=
  Set_spread
    ((λ x, if String.eqb x "myboard" then "My Board" else "@" +:+ x)
       <$> filter (λ x, x ≠ target) input).

(** The four classes [_getStats] counts; a task that reads both complete
    and in progress is counted as complete. *)
Definition is_complete_task (item : Item) : bool :=
  _isTask item && isComplete item.

Definition is_progress_task (item : Item) : bool :=
  _isTask item && negb (isComplete item) && inProgress item.

Definition is_pending_task (item : Item) : bool :=
  _isTask item && negb (isComplete item) && negb (inProgress item).

Definition is_note (item : Item) : bool := negb (_isTask item).

Definition count_of (p : Item → bool) (l : list Item) : N :=
  N.of_nat (length (filter (λ item, p item = true) l)).

(** A bucket of a grouping: absent when it would be empty. *)
Definition bucket (l : list Item) : option (list Item) :=
  match l with
  | [] => None
  | _ => Some l
  end.

(** The items a grouping holds under a name. *)
Definition list_of (g : Grouping) (b : string) : list Item := default [] (g !! b).

(** One round of the outer loop of a grouping: the item is pushed under
    each name of the list that the test selects for it. *)
Definition group_step (test : Item → string → bool) (names : list string)
    (g : Grouping) (item : Item) : Grouping :=
  foldl (λ g name, if test item name then push_group name item g else g) g names.

Definition on_board (item : Item) (b : string) : bool := bool_decide (b ∈ boards item).

Definition on_date (item : Item) (d : string) : bool := String.eqb (_date item) d.

(** The test [findItems] applies to an item. *)
Definition found (toLocaleLowerCase : string → string) (terms : list string)
    (item : Item) : bool :=
  truthy (_hasTerms toLocaleLowerCase (description item) terms).

(** The board a term of [listByAttributes] names, given the stored
    boards; a term that names none is an attribute. *)
Definition names_board (storedBoards : list string) (x : string) : option string :=
  if negb (bool_decide (("@" +:+ x) ∈ storedBoards)) then
    if String.eqb x "myboard" then Some "My Board" else None
  else Some ("@" +:+ x).

(** The first of the three remote settings that is missing, in the order
    [_checkAndGetDynamoInstance] tests them. *)
Definition first_missing (cfg : Storage.Config) : option string :=
  if negb (Storage.is_set (Storage.dynamoBaseUrl cfg)) then Some "dynamoBaseUrl"
  else if negb (Storage.is_set (Storage.dynamoToken cfg)) then Some "dynamoToken"
  else if negb (Storage.is_set (Storage.dynamoNamespace cfg)) then Some "dynamoNamespace"
  else None.

(** * Properties *)

(** ** Keys, maxima, deduplication *)

Lemma elem_of_Object_keys (data : gmap N Item) (id : N) :
  id ∈ Object_keys data ↔ is_Some (data !! id).
Proof.
  unfold Object_keys.
  rewrite merge_sort_Permutation, elem_of_elements.
  apply elem_of_dom.
Qed.

Lemma NoDup_Object_keys (data : gmap N Item) : NoDup (Object_keys data).
Proof.
  unfold Object_keys.
  rewrite merge_sort_Permutation.
  apply NoDup_elements.
Qed.

Lemma Object_keys_nil (data : gmap N Item) :
  Object_keys data = [] ↔ data = ∅.
Proof.
  split.
  - intros Hnil. apply map_empty. intros id.
    apply eq_None_not_Some. rewrite <- elem_of_Object_keys, Hnil.
    apply not_elem_of_nil.
  - intros ->. destruct (Object_keys ∅) as [|id l] eqn:Hk; [done|].
    assert (Hin : id ∈ Object_keys (∅ : gmap N Item)) by (rewrite Hk; left).
    apply elem_of_Object_keys in Hin. rewrite lookup_empty in Hin.
    by destruct Hin.
Qed.

Lemma Math_max_upper (ids : list N) (id : N) : id ∈ ids → id ≤ Math_max ids.
Proof.
  induction 1 as [x l|x y l _ IH]; simpl; lia.
Qed.

Lemma Math_max_elem (ids : list N) : ids ≠ [] → Math_max ids ∈ ids.
Proof.
  induction ids as [|x l IH]; [done|]. intros _. simpl.
  destruct l as [|y l'].
  - simpl. rewrite N.max_0_r. left.
  - destruct (N.max_spec x (Math_max (y :: l'))) as [[_ ->]|[_ ->]].
    + right. by apply IH.
    + left.
Qed.

Lemma Set_spread_from_elem (seen l : list string) (x : string) :
  x ∈ Set_spread_from seen l ↔ x ∈ l ∧ x ∉ seen.
Proof.
  revert seen. induction l as [|y l IH]; intros seen; simpl.
  - split; [by intros ?%elem_of_nil | by intros [?%elem_of_nil _]].
  - case_bool_decide as Hy.
    + rewrite IH, elem_of_cons. split; [tauto|].
      intros [[->|?] ?]; tauto.
    + rewrite !elem_of_cons, IH, elem_of_cons. split.
      * intros [->|(? & ?)]; [tauto|]. split; [tauto|]. tauto.
      * intros [[->|?] ?]; [tauto|].
        destruct (decide (x = y)); [tauto|]. right. tauto.
Qed.

Lemma Set_spread_from_NoDup (seen l : list string) :
  NoDup (Set_spread_from seen l).
Proof.
  revert seen. induction l as [|y l IH]; intros seen; simpl.
  - constructor.
  - case_bool_decide; [apply IH|].
    constructor; [|apply IH].
    rewrite Set_spread_from_elem, elem_of_cons. tauto.
Qed.

Lemma Set_spread_from_sublist (seen l : list string) :
  sublist (Set_spread_from seen l) l.
Proof.
  revert seen. induction l as [|y l IH]; intros seen; simpl.
  - constructor.
  - case_bool_decide; [apply sublist_cons | apply sublist_skip]; apply IH.
Qed.

Lemma Set_spread_elem (l : list string) (x : string) :
  x ∈ Set_spread l ↔ x ∈ l.
Proof.
  unfold Set_spread. rewrite Set_spread_from_elem.
  split; [tauto|]. intros ?. split; [done|]. apply not_elem_of_nil.
Qed.

Lemma Set_spread_nil (l : list string) : Set_spread l = [] → l = [].
Proof.
  destruct l as [|x l]; [done|]. unfold Set_spread. simpl. done.
Qed.

(** ** Reasoning about outcomes *)

Lemma ends_bind {S A B} (m : M S A) (k : A → M S B) Q E s :
  ends (m s) (λ a s', ends (k a s') Q E) E → ends (bind m k s) Q E.
Proof. unfold bind. by destruct (m s). Qed.

Lemma ends_mono {S A} (o : outcome S A) (Q Q' : A → S → Prop) (E E' : S → Prop) :
  (∀ a s, Q a s → Q' a s) → (∀ s, E s → E' s) → ends o Q E → ends o Q' E'.
Proof. intros HQ HE. destruct o; simpl; auto. Qed.

Lemma ends_forEach {S A B} (I : B → S → Prop) (E : S → Prop)
    (f : B → A → M S B) (l : list A) acc s :
  I acc s →
  (∀ acc x s, x ∈ l → I acc s → ends (f acc x s) I E) →
  ends (forEach l f acc s) I E.
Proof.
  revert acc s. induction l as [|x l IH]; intros acc s HI Hf; simpl.
  - done.
  - apply ends_bind.
    eapply ends_mono; [| |apply Hf; [left|done]]; [|done].
    intros acc' s' HI'. apply IH; [done|].
    intros ? ? ? ?. apply Hf. by right.
Qed.

Lemma ends_final {S A} (o : outcome S A) (P : S → Prop) :
  ends o (λ _ s, P s) P → P (final o).
Proof. by destruct o. Qed.

(** ** The id allocator *)

Lemma pow_2_53 : 2 ^ 53 = 9007199254740992.
Proof. reflexivity. Qed.

Lemma to_double_exact (n : N) : n ≤ 2 ^ 53 → to_double n = n.
Proof.
  intros Hn. unfold to_double. destruct (N.ltb_spec n (2 ^ 53)) as [|Hge]; [done|].
  assert (n = 2 ^ 53) as -> by lia. by vm_compute.
Qed.

Lemma to_double_positive (n : N) : 1 ≤ n → 1 ≤ to_double n.
Proof.
  intros Hn. unfold to_double. destruct (N.ltb_spec n (2 ^ 53)) as [|Hge]; [done|].
  cbv zeta. set (e := N.size n - 53). set (q := N.shiftr n e).
  assert (Hq : q ≠ 0).
  { unfold q. rewrite N.shiftr_eq_0_iff. rewrite pow_2_53 in Hge.
    intros [->|[_ Hlt]]; [lia|].
    unfold e in Hlt. rewrite N.size_log2 in Hlt by lia. lia. }
  match goal with |- 1 ≤ N.shiftl ?a e => assert (Ha : a ≠ 0) end.
  { repeat match goal with |- context [if ?b then _ else _] => destruct b end; lia. }
  match goal with |- 1 ≤ N.shiftl ?a e =>
    pose proof (proj1 (N.shiftl_eq_0_iff a e)) end.
  lia.
Qed.

Lemma parseInt_keys (n : N) (data : gmap N Item) :
  headroom n data → parseInt <$> Object_keys data = Object_keys data.
Proof.
  intros Hroom. rewrite <- (list_fmap_id (Object_keys data)) at 2.
  apply list_fmap_ext. intros _ k Hk%list_elem_of_lookup_2%elem_of_Object_keys.
  unfold parseInt, id. apply to_double_exact. destruct Hroom as [_ Hroom].
  specialize (Hroom k Hk). rewrite pow_2_53 in *. lia.
Qed.

(** Below [2^53] the allocator counts exactly. *)
Lemma next_id_exact (n : N) (data : gmap N Item) :
  1 ≤ n → headroom n data →
  next_id data
  = (if Nat.eqb (length (Object_keys data)) 0 then 0 else Math_max (Object_keys data)) + 1.
Proof.
  intros Hn Hroom. unfold next_id. rewrite (parseInt_keys n) by done.
  unfold js_plus. apply to_double_exact. destruct Hroom as [_ Hroom].
  destruct (Object_keys data) as [|x l] eqn:Hkeys; simpl Nat.eqb; cbv iota;
    [by vm_compute|].
  assert (Hmax : Math_max (x :: l) ∈ Object_keys data).
  { rewrite Hkeys. by apply Math_max_elem. }
  apply elem_of_Object_keys, Hroom in Hmax. rewrite pow_2_53 in *. lia.
Qed.

Lemma generateID_eval (data : gmap N Item) (s : State) :
  _generateID (Some data) s = Ret (next_id data) s.
Proof. reflexivity. Qed.

(** C2, as stated, fails: on a collection whose greatest id is [2^53]
    the allocator returns [2^53] again, the id in use, since as a JS
    number [2^53 + 1] is [2^53]. *)
Lemma generateID_repeats_an_id :
  _generateID (Some {[ 9007199254740992 := new_Note "Mon" 9007199254740992 "b" ["My Board"] ]})
    empty_state
  = Ret 9007199254740992 empty_state ∧
  Math_max (Object_keys
    ({[ 9007199254740992 := new_Note "Mon" 9007199254740992 "b" ["My Board"] ]}
       : gmap N Item)) + 1
  = 9007199254740993.
Proof. split; by vm_compute. Qed.

(** C2, amended: for the empty collection [_generateID] returns 1; for a
    non-empty collection whose ids are all below [2^53] it returns the
    greatest existing id plus one; without an argument it works on the
    collection read from the storage. *)
Theorem generateID_next_id (data : gmap N Item) (s : State) :
  (data = ∅ → _generateID (Some data) s = Ret 1 s) ∧
  (data ≠ ∅ → headroom 1 data →
     ∃ max, is_Some (data !! max) ∧
            (∀ id, is_Some (data !! id) → id ≤ max) ∧
            _generateID (Some data) s = Ret (max + 1) s) ∧
  _generateID None s = _generateID (Some (storage s)) s.
Proof.
  split; [|split].
  - intros ->. rewrite generateID_eval. unfold next_id.
    by rewrite (proj2 (Object_keys_nil ∅) eq_refl).
  - intros Hne Hroom.
    assert (Hk : Object_keys data ≠ []) by (by rewrite Object_keys_nil).
    exists (Math_max (Object_keys data)). split; [|split].
    + apply elem_of_Object_keys. by apply Math_max_elem.
    + intros id Hid. apply Math_max_upper. by apply elem_of_Object_keys.
    + rewrite generateID_eval, (next_id_exact 1) by done.
      destruct (Object_keys data); [done|]. reflexivity.
  - reflexivity.
Qed.

Lemma generateID_next_id_witness :
  _generateID (Some ∅) empty_state = Ret 1 empty_state ∧
  ∃ max, is_Some (({[ 4 := new_Note "Mon" 4 "b" ["My Board"] ]} : gmap N Item) !! max) ∧
         (∀ id, is_Some (({[ 4 := new_Note "Mon" 4 "b" ["My Board"] ]} : gmap N Item) !! id) → id ≤ max) ∧
         _generateID (Some {[ 4 := new_Note "Mon" 4 "b" ["My Board"] ]}) empty_state
           = Ret (max + 1) empty_state.
Proof.
  split.
  - apply (proj1 (generateID_next_id ∅ empty_state)). reflexivity.
  - apply (proj1 (proj2 (generateID_next_id {[ 4 := new_Note "Mon" 4 "b" ["My Board"] ]} empty_state))).
    + intros H. apply (f_equal (λ m : gmap N Item, m !! 4)) in H.
      vm_compute in H. discriminate H.
    + split; [by vm_compute|].
      intros k [item [<- _]%lookup_singleton_Some]. by vm_compute.
Defined.

(** ** Id validation *)

Section Validation.

Variable Number : string → option N.

Lemma has_number_keys (target : gmap N Item) (id : string) :
  has_number (Object_keys target) (Number id) = true ↔ present_in Number target id.
Proof.
  unfold has_number, present_in. destruct (Number id) as [n|].
  - rewrite bool_decide_eq_true, elem_of_Object_keys. split.
    + intros ?. by exists n.
    + by intros (n' & [= <-] & ?).
  - split; [done|]. by intros (? & ? & _).
Qed.

Lemma has_number_keys_false (target : gmap N Item) (id : string) :
  has_number (Object_keys target) (Number id) = false ↔ absent_from Number target id.
Proof.
  unfold has_number, absent_from. destruct (Number id) as [n|].
  - rewrite bool_decide_eq_false, elem_of_Object_keys, <- eq_None_not_Some. split.
    + by intros ? ? [= <-].
    + intros H. by apply H.
  - split; [done|]. done.
Qed.

Lemma first_invalid_None (ex : list N) (ids : list string) :
  first_invalid Number ex ids = None ↔
  ∀ id, id ∈ ids → has_number ex (Number id) = true.
Proof.
  unfold first_invalid. induction ids as [|x l IH]; simpl.
  - split; [|done]. by intros _ ? ?%elem_of_nil.
  - destruct (has_number ex (Number x)) eqn:Hx; simpl.
    + rewrite IH. split.
      * intros H id [->|?]%elem_of_cons; auto.
      * intros H id ?. apply H. by right.
    + split; [done|]. intros H. specialize (H x). rewrite Hx in H.
      discriminate H. left.
Qed.

Lemma first_invalid_Some (ex : list N) (ids : list string) (id : string) :
  first_invalid Number ex ids = Some id →
  id ∈ ids ∧ has_number ex (Number id) = false.
Proof.
  unfold first_invalid. induction ids as [|x l IH]; simpl; [done|].
  destruct (has_number ex (Number x)) eqn:Hx; simpl.
  - intros [? ?]%IH. split; [by right|done].
  - intros [= <-]. split; [left|done].
Qed.

Lemma validate_loop (ex : list N) (ids : list string) (s : State) :
  forEach ids (λ _ id,
    if negb (has_number ex (Number id))
    then render (invalidID id);; process_exit 1
    else ret ()) () s =
  match first_invalid Number ex ids with
  | Some id => Exit 1 (mkState (storage s) (archive s) (screen s ++ [invalidID id]))
  | None => Ret () s
  end.
Proof.
  unfold first_invalid. induction ids as [|x l IH]; simpl; [done|].
  unfold bind at 1. destruct (has_number ex (Number x)); simpl; [|done].
  apply IH.
Qed.

Lemma validateIDs_eval (arg : idarg) (ex : list N) (s : State) :
  _validateIDs Number arg (Some ex) s =
  if Nat.eqb (arg_length arg) 0
  then Exit 1 (mkState (storage s) (archive s) (screen s ++ [missingID]))
  else match first_invalid Number ex (_removeDuplicates arg) with
       | Some id => Exit 1 (mkState (storage s) (archive s) (screen s ++ [invalidID id]))
       | None => Ret (_removeDuplicates arg) s
       end.
Proof.
  unfold _validateIDs. unfold bind at 1. unfold ret at 1.
  unfold bind at 1. destruct (Nat.eqb (arg_length arg) 0); [done|].
  unfold ret at 1. unfold bind at 1. rewrite validate_loop.
  by destruct (first_invalid _ _ _).
Qed.

Lemma validateIDs_default (arg : idarg) (s : State) :
  _validateIDs Number arg None s =
  _validateIDs Number arg (Some (Object_keys (storage s))) s.
Proof. reflexivity. Qed.

(** Validation ends in one of two ways: the process is left with status 1
    and the files untouched, or the deduplicated list comes back and the
    state is the one validation started from. *)
Lemma validateIDs_cases (arg : idarg) (ex : option (list N)) (s : State) :
  aborted (_validateIDs Number arg ex s) s ∨
  _validateIDs Number arg ex s = Ret (_removeDuplicates arg) s.
Proof.
  assert (H : ∀ e, aborted (_validateIDs Number arg (Some e) s) s ∨
                   _validateIDs Number arg (Some e) s = Ret (_removeDuplicates arg) s).
  { intros e. rewrite validateIDs_eval.
    destruct (Nat.eqb (arg_length arg) 0).
    - left. eexists. split; [done|]. by split.
    - destruct (first_invalid _ _ _).
      + left. eexists. split; [done|]. by split.
      + by right. }
  destruct ex as [e|]; [apply H|]. rewrite validateIDs_default. apply H.
Qed.

Lemma validateIDs_rejects_arg (arg : idarg) (target : gmap N Item) (s : State) :
  arg_length arg = 0%nat ∨ (∃ id, id ∈ _arrayify arg ∧ absent_from Number target id) →
  aborted (_validateIDs Number arg (Some (Object_keys target)) s) s.
Proof.
  intros Hbad. rewrite validateIDs_eval.
  destruct (Nat.eqb (arg_length arg) 0) eqn:Hlen.
  { eexists. split; [done|]. by split. }
  destruct Hbad as [Hz|(id & Hin & Habs)].
  { rewrite Hz in Hlen. discriminate Hlen. }
  destruct (first_invalid _ _ _) as [bad|] eqn:Hf.
  - eexists. split; [done|]. by split.
  - exfalso. rewrite first_invalid_None in Hf.
    specialize (Hf id). unfold _removeDuplicates in Hf.
    rewrite Set_spread_elem in Hf. specialize (Hf Hin).
    apply has_number_keys_false in Habs. congruence.
Qed.

Lemma validateIDs_rejects (ids : list string) (target : gmap N Item) (s : State) :
  ids = [] ∨ (∃ id, id ∈ ids ∧ absent_from Number target id) →
  aborted (_validateIDs Number (AArr ids) (Some (Object_keys target)) s) s.
Proof.
  intros Hbad. apply validateIDs_rejects_arg.
  destruct Hbad as [->|?]; [by left|by right].
Qed.

Lemma validateIDs_accepts (ids : list string) (target : gmap N Item) (s : State) :
  ids ≠ [] →
  (∀ id, id ∈ ids → present_in Number target id) →
  _validateIDs Number (AArr ids) (Some (Object_keys target)) s
    = Ret (Set_spread ids) s.
Proof.
  intros Hne Hall. rewrite validateIDs_eval. simpl.
  destruct ids as [|x l]; [done|]. simpl.
  destruct (first_invalid _ _ _) as [bad|] eqn:Hf; [|done].
  exfalso. apply first_invalid_Some in Hf as [Hin Hno].
  unfold _removeDuplicates in Hin. simpl in Hin.
  rewrite (Set_spread_elem (x :: l)) in Hin.
  apply Hall, has_number_keys in Hin. congruence.
Qed.

End Validation.

(** ** What the commands do with the outcome of validation *)

Section Guards.

Variable Number : string → option N.

Lemma bind_aborted {A B} (m : M State A) (k : A → M State B) (s : State) :
  aborted (m s) s → aborted (bind m k s) s.
Proof. intros (s' & Hm & ?). exists s'. unfold bind. by rewrite Hm. Qed.

(** [beginTasks] binds [ids] to the promise of a validation it does not
    await: [ids.forEach] throws, and the command ends either there or in
    the exit of the validation that is still running. *)
Lemma beginTasks_eval (ids : list string) (s : State) :
  beginTasks Number ids s =
  match _validateIDs Number (AArr ids) None s with
  | Exit c s' => Exit c s'
  | Ret _ s' | Throw _ s' =>
      Throw (TypeError "ids.forEach is not a function") s'
  end.
Proof. reflexivity. Qed.

(** [restoreItems] validates at once, against the archive, and then calls
    [forEach] on the promise. *)
Lemma restoreItems_eval (ids : list string) (s : State) :
  restoreItems Number ids s =
  match _validateIDs Number (AArr ids) (Some (Object_keys (archive s))) s with
  | Exit c s' => Exit c s'
  | Throw e s' => Throw e s'
  | Ret _ s' => Throw (TypeError "ids.forEach is not a function") s'
  end.
Proof.
  unfold restoreItems. unfold bind at 1. simpl.
  unfold bind at 1. unfold unawaited. unfold bind at 1.
  by destruct (_validateIDs _ _ _ _).
Qed.

Lemma beginTasks_aborted (ids : list string) (s : State) :
  aborted (_validateIDs Number (AArr ids) None s) s →
  aborted (beginTasks Number ids s) s.
Proof.
  intros (s' & Hv & ?). exists s'. by rewrite beginTasks_eval, Hv.
Qed.

Lemma restoreItems_aborted (ids : list string) (s : State) :
  aborted (_validateIDs Number (AArr ids) (Some (Object_keys (archive s))) s) s →
  aborted (restoreItems Number ids s) s.
Proof.
  intros (s' & Hv & ?). exists s'. by rewrite restoreItems_eval, Hv.
Qed.

(** The single-target commands hand [_validateIDs] the target without its
    ['@'], as a string. *)
Lemma target_rejected (target : string) (s : State) :
  replace_at target = EmptyString ∨
  absent_from Number (storage s) (replace_at target) →
  aborted (_validateIDs Number (AStr (replace_at target)) None s) s.
Proof.
  intros Hbad. rewrite validateIDs_default. apply validateIDs_rejects_arg.
  destruct Hbad as [->|?]; [by left|].
  right. exists (replace_at target). split; [left|done].
Qed.

Lemma moveBoards_aborted (input : list string) (target : string) (s : State) :
  filter (λ x, startsWith_at x = true) input = [target] →
  aborted (_validateIDs Number (AStr (replace_at target)) None s) s →
  aborted (moveBoards Number input s) s.
Proof.
  intros Ht Hv. unfold moveBoards. rewrite Ht. by apply bind_aborted.
Qed.

Lemma updatePriority_aborted (input : list string) (target : string) (s : State) :
  filter (λ x, startsWith_at x = true) input = [target] →
  aborted (_validateIDs Number (AStr (replace_at target)) None s) s →
  aborted (updatePriority Number input s) s.
Proof.
  intros Ht Hv. unfold updatePriority.
  destruct (find_first _ input).
  - rewrite Ht. by apply bind_aborted.
  - eexists. split; [reflexivity|]. by split.
Qed.

Lemma editDescription_aborted (input : list string) (target : string) (s : State) :
  filter (λ x, startsWith_at x = true) input = [target] →
  aborted (_validateIDs Number (AStr (replace_at target)) None s) s →
  aborted (editDescription Number input s) s.
Proof.
  intros Ht (s' & Hv & Hs'). unfold editDescription. rewrite Ht.
  unfold detached. unfold bind at 1.
  destruct (Nat.eqb _ 0); simpl.
  - eexists. split; [reflexivity|]. by split.
  - rewrite Hv. by exists s'.
Qed.

End Guards.

(** What validation does in terms of its own test, [Number(id)] among
    the keys: it leaves the process, with nothing written, when the id
    list is empty or holds a token that converts to no key of the target
    collection; otherwise it returns the list without its repeated tokens
    (each token once, in the order of first occurrence).
    The target is the active collection unless the caller passes another;
    [restoreItems] passes the ids of the archive.  The commands that take
    an id list end the same way when validation does, and so do the
    commands that take one [@id] target. *)
Theorem validateIDs_guard (Number : string → option N) (ids : list string) (s : State) :
  (∀ target,
     (ids = [] ∨ (∃ id, id ∈ ids ∧ absent_from Number target id) →
        aborted (_validateIDs Number (AArr ids) (Some (Object_keys target)) s) s) ∧
     (ids ≠ [] → (∀ id, id ∈ ids → present_in Number target id) →
        ∃ ids', _validateIDs Number (AArr ids) (Some (Object_keys target)) s = Ret ids' s ∧
                NoDup ids' ∧ (∀ id, id ∈ ids' ↔ id ∈ ids) ∧ sublist ids' ids)) ∧
  _validateIDs Number (AArr ids) None s
    = _validateIDs Number (AArr ids) (Some (Object_keys (storage s))) s ∧
  (ids = [] ∨ (∃ id, id ∈ ids ∧ absent_from Number (storage s) id) →
     aborted (checkTasks Number ids s) s ∧
     aborted (beginTasks Number ids s) s ∧
     aborted (starItems Number ids s) s ∧
     aborted (deleteItems Number ids s) s) ∧
  (ids = [] ∨ (∃ id, id ∈ ids ∧ absent_from Number (archive s) id) →
     aborted (restoreItems Number ids s) s) ∧
  (∀ input target,
     filter (λ x, startsWith_at x = true) input = [target] →
     replace_at target = EmptyString ∨
     absent_from Number (storage s) (replace_at target) →
     aborted (moveBoards Number input s) s ∧
     aborted (editDescription Number input s) s ∧
     aborted (updatePriority Number input s) s).
Proof.
  split; [|split; [|split; [|split]]].
  - intros target. split.
    + apply validateIDs_rejects.
    + intros Hne Hall. exists (Set_spread ids).
      split; [by apply validateIDs_accepts|].
      split; [apply Set_spread_from_NoDup|].
      split; [apply Set_spread_elem | apply Set_spread_from_sublist].
  - apply validateIDs_default.
  - intros Hbad.
    assert (Hv : aborted (_validateIDs Number (AArr ids) None s) s).
    { rewrite validateIDs_default. by apply validateIDs_rejects. }
    split; [|split; [|split]].
    + by apply bind_aborted.
    + by apply beginTasks_aborted.
    + by apply bind_aborted.
    + by apply bind_aborted.
  - intros Hbad. by apply restoreItems_aborted, validateIDs_rejects.
  - intros input target Ht Hbad.
    pose proof (target_rejected Number target s Hbad) as Hv.
    split; [|split].
    + by eapply moveBoards_aborted.
    + by eapply editDescription_aborted.
    + by eapply updatePriority_aborted.
Qed.

Lemma validateIDs_guard_witness :
  aborted (checkTasks Number_digits ["7"]
             (mkState {[ 1 := new_Note "Mon" 1 "b" ["My Board"] ]} ∅ []))
          (mkState {[ 1 := new_Note "Mon" 1 "b" ["My Board"] ]} ∅ []) ∧
  aborted (restoreItems Number_digits []
             (mkState {[ 1 := new_Note "Mon" 1 "b" ["My Board"] ]} ∅ []))
          (mkState {[ 1 := new_Note "Mon" 1 "b" ["My Board"] ]} ∅ []) ∧
  aborted (moveBoards Number_digits ["@7"; "home"]
             (mkState {[ 1 := new_Note "Mon" 1 "b" ["My Board"] ]} ∅ []))
          (mkState {[ 1 := new_Note "Mon" 1 "b" ["My Board"] ]} ∅ []) ∧
  ∃ ids', _validateIDs Number_digits (AArr ["1"; "1"])
            (Some (Object_keys {[ 1 := new_Note "Mon" 1 "b" ["My Board"] ]})) empty_state
            = Ret ids' empty_state ∧
          NoDup ids' ∧ (∀ id, id ∈ ids' ↔ id ∈ ["1"; "1"]) ∧ sublist ids' ["1"; "1"].
Proof.
  split; [|split; [|split]].
  - apply (proj1 (proj2 (proj2 (validateIDs_guard Number_digits ["7"]
             (mkState {[ 1 := new_Note "Mon" 1 "b" ["My Board"] ]} ∅ []))))).
    right. exists "7". split; [left|].
    intros n Hn. vm_compute in Hn. injection Hn as <-. reflexivity.
  - apply (proj1 (proj2 (proj2 (proj2 (validateIDs_guard Number_digits []
             (mkState {[ 1 := new_Note "Mon" 1 "b" ["My Board"] ]} ∅ [])))))).
    left. reflexivity.
  - apply (proj2 (proj2 (proj2 (proj2 (validateIDs_guard Number_digits []
             (mkState {[ 1 := new_Note "Mon" 1 "b" ["My Board"] ]} ∅ [])))))
             ["@7"; "home"] "@7").
    + reflexivity.
    + right. intros n Hn. vm_compute in Hn. injection Hn as <-. reflexivity.
  - apply (proj2 (proj1 (validateIDs_guard Number_digits ["1"; "1"] empty_state)
             {[ 1 := new_Note "Mon" 1 "b" ["My Board"] ]})).
    + discriminate.
    + intros id Hid. exists 1.
      assert (id = "1") as ->.
      { apply elem_of_cons in Hid as [->|Hid]; [done|].
        apply elem_of_cons in Hid as [->|Hid]; [done|].
        by apply elem_of_nil in Hid. }
      split; [reflexivity|]. eexists. reflexivity.
Defined.

(** C3: an empty id list ends validation, and the command, with nothing
    written.  But the test is on [Number(id)] while the items are looked
    up, and the ids deduplicated, by the token itself: on the storage
    [{1: note}] the list [["1"; "01"]] passes validation whole, although
    [01] spells no key and repeats the id 1, and [deleteItems] then
    archives item 1, throws on [01] and leaves the storage unsaved, so the
    item is in both collections. *)
Theorem validateIDs_misses_respelled_id :
  (∀ Number s, aborted (_validateIDs Number (AArr []) None s) s) ∧
  _validateIDs Number_digits (AArr ["1"; "01"]) None
    (mkState {[ 1 := new_Note "Mon" 1 "b" ["My Board"] ]} ∅ [])
  = Ret ["1"; "01"] (mkState {[ 1 := new_Note "Mon" 1 "b" ["My Board"] ]} ∅ []) ∧
  Number_digits "01" = Some 1 ∧
  item_at ({[ 1 := new_Note "Mon" 1 "b" ["My Board"] ]} : gmap N Item) "01" = None ∧
  deleteItems Number_digits ["1"; "01"]
    (mkState {[ 1 := new_Note "Mon" 1 "b" ["My Board"] ]} ∅ [])
  = Throw (TypeError "item is undefined")
      (mkState {[ 1 := new_Note "Mon" 1 "b" ["My Board"] ]}
               {[ 1 := new_Note "Mon" 1 "b" ["My Board"] ]} []).
Proof.
  split.
  { intros Number s. rewrite validateIDs_default.
    apply validateIDs_rejects. by left. }
  split; [by vm_compute|]. split; [reflexivity|]. split; [reflexivity|].
  by vm_compute.
Qed.

(** ** check and begin *)

Section Toggles.

Variable Number : string → option N.

Lemma item_at_key (data : gmap N Item) (id : string) (item : Item) :
  item_at data id = Some item →
  ∃ k, key_of_string id = Some k ∧ data !! k = Some item.
Proof.
  unfold item_at. destruct (key_of_string id) as [k|]; [|done]. by exists k.
Qed.

Lemma present_in_insert (data : gmap N Item) (k : N) (item : Item) (id : string) :
  present_in Number data id → present_in Number (<[k := item]> data) id.
Proof.
  intros (n & Hn & Hsome). exists n. split; [done|].
  rewrite lookup_insert. by case_decide.
Qed.

(** [checkTasks] on one valid id. *)
Lemma checkTasks_single (id : string) (k : N) (item : Item) (s : State) :
  present_in Number (storage s) id →
  key_of_string id = Some k →
  storage s !! k = Some item →
  checkTasks Number [id] s =
  Ret () (mkState
            (if _isTask item then <[k := checked_item item]> (storage s) else storage s)
            (archive s)
            (screen s ++
             [markComplete (if _isTask item && negb (isComplete item) then [id] else [])] ++
             [markIncomplete (if _isTask item && isComplete item then [id] else [])])).
Proof.
  intros Hp Hk Hit. unfold checkTasks. unfold bind at 1.
  rewrite validateIDs_default, (validateIDs_accepts Number [id] (storage s) s).
  2: done.
  2: { by intros ? ->%list_elem_of_singleton. }
  unfold Set_spread. simpl. unfold bind at 1. simpl.
  unfold bind at 1. unfold bind at 1. unfold item_at, put_item. rewrite Hk, Hit.
  destruct (_isTask item) eqn:Ht; simpl.
  - unfold checked_item.
    destruct (isComplete item) eqn:Hc; simpl; unfold bind, ret, _save, render; simpl;
      rewrite <- ?app_assoc; reflexivity.
  - unfold bind, ret, _save, render; simpl. rewrite <- ?app_assoc. reflexivity.
Qed.

(** [check] twice gives a task its [isComplete] back, and each [check]
    leaves [inProgress] false. *)
Lemma checkTasks_twice (id : string) (item : Item) (s : State) :
  present_in Number (storage s) id →
  item_at (storage s) id = Some item →
  _isTask item = true →
  ∃ s1 s2 item1 item2,
    checkTasks Number [id] s = Ret () s1 ∧
    item_at (storage s1) id = Some item1 ∧
    inProgress item1 = false ∧ isComplete item1 = negb (isComplete item) ∧
    checkTasks Number [id] s1 = Ret () s2 ∧
    item_at (storage s2) id = Some item2 ∧
    inProgress item2 = false ∧ isComplete item2 = isComplete item.
Proof.
  intros Hp Hit Ht. apply item_at_key in Hit as (k & Hk & Hit).
  eexists _, _, (checked_item item), (checked_item (checked_item item)).
  split; [by apply (checkTasks_single id k item)|].
  rewrite Ht. simpl.
  split; [unfold item_at; rewrite Hk; apply lookup_insert_eq|].
  split; [done|]. split; [done|].
  split.
  { apply (checkTasks_single id k (checked_item item)); simpl.
    - by apply present_in_insert.
    - done.
    - apply lookup_insert_eq. }
  simpl. rewrite Ht. simpl.
  split; [unfold item_at; rewrite Hk; apply lookup_insert_eq|].
  split; [done|]. apply negb_involutive.
Qed.

(** [check] on the id of a note changes nothing in the storage and lists
    the id in neither bucket. *)
Lemma checkTasks_note (id : string) (item : Item) (s : State) :
  present_in Number (storage s) id →
  item_at (storage s) id = Some item →
  _isTask item = false →
  checkTasks Number [id] s =
  Ret () (mkState (storage s) (archive s)
            (screen s ++ [markComplete []; markIncomplete []])).
Proof.
  intros Hp Hit Ht. apply item_at_key in Hit as (k & Hk & Hit).
  rewrite (checkTasks_single id k item) by done. by rewrite Ht.
Qed.

(** [beginTasks] never gets to its loop: it ends in an exit or in the
    exception, with both files as they were. *)
Lemma beginTasks_writes_nothing (ids : list string) (s : State) :
  ∃ s', same_files s s' ∧
        (beginTasks Number ids s = Exit 1 s' ∨
         beginTasks Number ids s = Throw (TypeError "ids.forEach is not a function") s').
Proof.
  rewrite beginTasks_eval.
  destruct (validateIDs_cases Number (AArr ids) None s) as [(s' & -> & ?)| ->].
  - exists s'. split; [done|]. by left.
  - exists s. split; [by split|]. by right.
Qed.

End Toggles.

(** ** The exclusion of [isComplete] and [inProgress] *)

Lemma all_exclusive_insert (data : gmap N Item) (k : N) (item : Item) :
  all_exclusive data → exclusive item → all_exclusive (<[k := item]> data).
Proof.
  intros Hd Hi id item'. rewrite lookup_insert. case_decide.
  - by intros [= <-].
  - apply Hd.
Qed.

Lemma all_exclusive_delete (data : gmap N Item) (k : N) :
  all_exclusive data → all_exclusive (delete k data).
Proof.
  intros Hd id item. rewrite lookup_delete. case_decide; [done|]. apply Hd.
Qed.

Lemma all_exclusive_put_item (data : gmap N Item) (id : string) (item : Item) :
  all_exclusive data → exclusive item → all_exclusive (put_item id item data).
Proof.
  intros. unfold put_item. destruct (key_of_string id); [|done].
  by apply all_exclusive_insert.
Qed.

Lemma all_exclusive_delete_item (data : gmap N Item) (id : string) :
  all_exclusive data → all_exclusive (delete_item id data).
Proof.
  intros. unfold delete_item. destruct (key_of_string id); [|done].
  by apply all_exclusive_delete.
Qed.

Lemma all_exclusive_item_at (data : gmap N Item) (id : string) (item : Item) :
  all_exclusive data → item_at data id = Some item → exclusive item.
Proof.
  intros Hd (k & _ & Hk)%item_at_key. by eapply Hd.
Qed.

Lemma exclusive_same_flags (item item' : Item) :
  _isTask item' = _isTask item →
  isComplete item' = isComplete item →
  inProgress item' = inProgress item →
  exclusive item → exclusive item'.
Proof. unfold exclusive. intros -> -> ->. done. Qed.

Lemma state_exclusive_same_files (s s' : State) :
  same_files s s' → state_exclusive s → state_exclusive s'.
Proof. unfold state_exclusive. by intros [-> ->]. Qed.

Section Exclusion.

Variable Number : string → option N.

Local Notation "'keeps' m s" := (ends (m s) (λ _ s', state_exclusive s') state_exclusive)
  (at level 10, m at level 9, s at level 9, only parsing).

Lemma ends_validateIDs (arg : idarg) (ex : option (list N)) (s : State)
    (Q : list string → State → Prop) (E : State → Prop) :
  (∀ s', same_files s s' → E s') →
  Q (_removeDuplicates arg) s →
  ends (_validateIDs Number arg ex s) Q E.
Proof.
  intros HE HQ.
  destruct (validateIDs_cases Number arg ex s) as [(s' & -> & ?)| ->]; simpl; auto.
Qed.

Lemma keeps_render (c : render_call) (s : State) :
  state_exclusive s → keeps (render c) s.
Proof. done. Qed.

Lemma keeps_save (data : gmap N Item) (s : State) :
  all_exclusive data → state_exclusive s → keeps (_save data) s.
Proof. intros ? [_ ?]. by split. Qed.

Lemma keeps_saveArchive (data : gmap N Item) (s : State) :
  all_exclusive data → state_exclusive s → keeps (_saveArchive data) s.
Proof. intros ? [? _]. by split. Qed.

Lemma keeps_detached {A B} (body : M State A) (caller : M State B) (s : State) :
  keeps caller s →
  (∀ s', state_exclusive s' → keeps body s') →
  keeps (detached body caller) s.
Proof.
  intros Hc Hb. unfold detached.
  destruct (caller s) as [b s'|c s'|e s']; simpl in *; [|done|];
    specialize (Hb s' Hc); by destruct (body s').
Qed.

Lemma keeps_validateIDs (arg : idarg) (ex : option (list N)) (s : State) :
  state_exclusive s → keeps (_validateIDs Number arg ex) s.
Proof.
  intros Hs. apply ends_validateIDs; [|done].
  intros s' ?. by eapply state_exclusive_same_files.
Qed.

Lemma keeps_getOptions (input : list string) (s : State)
    (Q : list string * string * N * jsprio → State → Prop) :
  state_exclusive s →
  (∀ r, Q r s) →
  ends (_getOptions input s) Q state_exclusive.
Proof.
  intros Hs HQ. unfold _getOptions. unfold bind at 1.
  destruct (Nat.eqb (length input) 0); simpl; [done|].
  destruct (foldl _ _ _) as [bs desc]. apply HQ.
Qed.

Lemma keeps_createTask (today : string) (desc : list string) (s : State) :
  state_exclusive s → keeps (createTask today desc) s.
Proof.
  intros Hs. unfold createTask. apply ends_bind, keeps_getOptions; [done|].
  intros [[[bs d] id] p]. simpl. destruct Hs as [Hs Ha]. split; [|done].
  apply all_exclusive_insert; [done|]. by intros _ [? _].
Qed.

Lemma keeps_createNote (today : string) (desc : list string) (s : State) :
  state_exclusive s → keeps (createNote today desc) s.
Proof.
  intros Hs. unfold createNote. apply ends_bind, keeps_getOptions; [done|].
  intros [[[bs d] id] p]. simpl. destruct Hs as [Hs Ha]. split; [|done].
  apply all_exclusive_insert; [done|]. by intros ?.
Qed.

Lemma keeps_checkTasks (ids : list string) (s : State) :
  state_exclusive s → keeps (checkTasks Number ids) s.
Proof.
  intros Hs. unfold checkTasks. apply ends_bind, ends_validateIDs.
  { intros s' ?. by eapply state_exclusive_same_files. }
  apply ends_bind. simpl. apply ends_bind.
  eapply ends_mono; [| |apply (ends_forEach
    (λ acc s', all_exclusive acc.1.1 ∧ s' = s) state_exclusive)].
  - intros [[d c] u] s' [Hd ->]. simpl in *. by destruct Hs.
  - done.
  - split; [apply Hs|done].
  - intros [[d c] u] id s' _ [Hd ->]. simpl in *.
    destruct (item_at d id) as [item|] eqn:Hit; simpl; [|done].
    destruct (_isTask item) eqn:Ht; simpl; [|done].
    assert (all_exclusive
      (put_item id (set_isComplete (negb (isComplete item)) (set_inProgress false item)) d)).
    { apply all_exclusive_put_item; [done|]. by intros _ [_ ?]. }
    by destruct (negb (isComplete item)).
Qed.

Lemma keeps_starItems (ids : list string) (s : State) :
  state_exclusive s → keeps (starItems Number ids) s.
Proof.
  intros Hs. unfold starItems. apply ends_bind, ends_validateIDs.
  { intros s' ?. by eapply state_exclusive_same_files. }
  apply ends_bind. simpl. apply ends_bind.
  eapply ends_mono; [| |apply (ends_forEach
    (λ acc s', all_exclusive acc.1.1 ∧ s' = s) state_exclusive)].
  - intros [[d c] u] s' [Hd ->]. simpl in *. by destruct Hs.
  - done.
  - split; [apply Hs|done].
  - intros [[d c] u] id s' _ [Hd ->]. simpl in *.
    destruct (item_at d id) as [item|] eqn:Hit; simpl; [|done].
    assert (all_exclusive (put_item id (set_isStarred (negb (isStarred item)) item) d)).
    { apply all_exclusive_put_item; [done|].
      apply (exclusive_same_flags item); [done..|].
    exact (all_exclusive_item_at _ _ _ Hd Hit). }
    by destruct (negb (isStarred item)).
Qed.

Lemma keeps_saveItemToArchive (item : option Item) (s : State) :
  (∀ i, item = Some i → exclusive i) →
  state_exclusive s → keeps (_saveItemToArchive item) s.
Proof.
  intros Hi Hs. unfold _saveItemToArchive. unfold bind, ret. simpl.
  destruct item as [i|]; simpl; [|done].
  destruct Hs as [Hs Ha]. split; [done|]. simpl.
  apply all_exclusive_insert; [done|].
  apply (exclusive_same_flags i); [done..|by apply Hi].
Qed.

Lemma keeps_deleteItems (ids : list string) (s : State) :
  state_exclusive s → keeps (deleteItems Number ids) s.
Proof.
  intros Hs. unfold deleteItems. apply ends_bind, ends_validateIDs.
  { intros s' ?. by eapply state_exclusive_same_files. }
  apply ends_bind. simpl. apply ends_bind.
  eapply ends_mono; [| |apply (ends_forEach
    (λ acc s', all_exclusive acc ∧ state_exclusive s') state_exclusive)].
  - intros d s' [Hd [_ Ha]]. simpl. by split.
  - done.
  - split; [apply Hs|done].
  - intros d id s' _ [Hd Hs']. apply ends_bind.
    eapply ends_mono; [| |apply keeps_saveItemToArchive]; simpl.
    + intros _ s'' ?. split; [|done]. by apply all_exclusive_delete_item.
    + done.
    + intros i ?. by eapply all_exclusive_item_at.
    + done.
Qed.

Lemma keeps_clear (s : State) :
  state_exclusive s → keeps (clear Number) s.
Proof.
  intros Hs. unfold clear. apply ends_bind. simpl.
  destruct (foldl _ _ _); [done|]. by apply keeps_deleteItems.
Qed.

Lemma keeps_beginTasks (ids : list string) (s : State) :
  state_exclusive s → keeps (beginTasks Number ids) s.
Proof.
  intros Hs.
  destruct (beginTasks_writes_nothing Number ids s) as (s' & ? & [-> | ->]);
    simpl; by eapply state_exclusive_same_files.
Qed.

Lemma keeps_restoreItems (ids : list string) (s : State) :
  state_exclusive s → keeps (restoreItems Number ids) s.
Proof.
  intros Hs. rewrite restoreItems_eval.
  destruct (validateIDs_cases Number (AArr ids) (Some (Object_keys (archive s))) s)
    as [(s' & -> & ?)| ->]; simpl; [|done].
  by eapply state_exclusive_same_files.
Qed.

Lemma keeps_editDescription (input : list string) (s : State) :
  state_exclusive s → keeps (editDescription Number input) s.
Proof.
  intros Hs. unfold editDescription.
  destruct (filter _ input) as [|target [|? ?]]; [done| |done].
  apply keeps_detached; [|intros; by apply keeps_validateIDs].
  apply ends_bind. destruct (Nat.eqb _ 0); simpl; [done|].
  exact Hs.
Qed.

Lemma keeps_moveBoards (input : list string) (s : State) :
  state_exclusive s → keeps (moveBoards Number input) s.
Proof.
  intros Hs. unfold moveBoards.
  destruct (filter _ input) as [|target [|? ?]]; [done| |done].
  apply ends_bind, ends_validateIDs.
  { intros s' ?. by eapply state_exclusive_same_files. }
  apply ends_bind. destruct (Nat.eqb _ 0); simpl; [done|].
  apply ends_bind. simpl.
  destruct (item_at (storage s) _) as [item|] eqn:Hit; simpl; [|done].
  destruct Hs as [Hs Ha]. split; [|done]. simpl.
  apply all_exclusive_put_item; [done|].
  apply (exclusive_same_flags item); [done..|].
    exact (all_exclusive_item_at _ _ _ Hs Hit).
Qed.

Lemma keeps_updatePriority (input : list string) (s : State) :
  state_exclusive s → keeps (updatePriority Number input) s.
Proof.
  intros Hs. unfold updatePriority.
  destruct (find_first _ input) as [level|]; [|done].
  destruct (filter _ input) as [|target [|? ?]]; [done| |done].
  apply ends_bind, ends_validateIDs.
  { intros s' ?. by eapply state_exclusive_same_files. }
  apply ends_bind. simpl.
  destruct (item_at (storage s) _) as [item|] eqn:Hit; simpl; [|done].
  destruct Hs as [Hs Ha]. split; [|done]. simpl.
  apply all_exclusive_put_item; [done|].
  apply (exclusive_same_flags item); [done..|].
    exact (all_exclusive_item_at _ _ _ Hs Hit).
Qed.

End Exclusion.

(** C5: no task is both complete and in progress, in the storage and in
    the archive alike: each of the commands create, check, begin, star,
    move, edit, priority, delete, restore and clear keeps it so, however
    the command ends, and so it holds in every state that commands reach
    from a state where it holds, the empty one among them. *)
Theorem exclusive_flags_invariant (Number : string → option N) :
  (∀ c s, state_exclusive s → state_exclusive (final (run Number c s))) ∧
  (∀ s0 s, state_exclusive s0 → reachable Number s0 s → state_exclusive s) ∧
  state_exclusive empty_state.
Proof.
  assert (Hstep : ∀ c s, state_exclusive s → state_exclusive (final (run Number c s))).
  { intros c s Hs. apply ends_final. destruct c; simpl.
    - by apply keeps_createTask.
    - by apply keeps_createNote.
    - by apply keeps_checkTasks.
    - by apply keeps_beginTasks.
    - by apply keeps_starItems.
    - by apply keeps_moveBoards.
    - by apply keeps_editDescription.
    - by apply keeps_updatePriority.
    - by apply keeps_deleteItems.
    - by apply keeps_restoreItems.
    - by apply keeps_clear. }
  split; [exact Hstep|]. split.
  - intros s0 s Hs0 Hr. induction Hr as [|s c _ IH]; [done|]. by apply Hstep.
  - split; intros id item Hl; unfold empty_state in Hl; simpl in Hl;
      by rewrite lookup_empty in Hl.
Qed.

Lemma exclusive_flags_invariant_witness :
  state_exclusive
    (final (run Number_digits (CheckTasks ["1"])
       (mkState {[ 1 := set_inProgress true (new_Task "Mon" 1 "a" ["My Board"] (PNum 1)) ]} ∅ []))) ∧
  state_exclusive
    (final (run Number_digits (CheckTasks ["1"])
       (final (run Number_digits (CreateTask "Mon" ["a"]) empty_state)))).
Proof.
  split.
  - apply (proj1 (exclusive_flags_invariant Number_digits)).
    split; intros id item Hl; simpl in Hl.
    + apply lookup_singleton_Some in Hl as [_ <-].
      intros _ [Hc _]. discriminate Hc.
    + rewrite lookup_empty in Hl. discriminate Hl.
  - apply (proj1 (proj2 (exclusive_flags_invariant Number_digits)) empty_state).
    + apply (proj2 (proj2 (exclusive_flags_invariant Number_digits))).
    + apply reach_step, reach_step, reach_start.
Defined.

(** ** Creating an item *)

Lemma priority_opt_cases (x : string) :
  _isPriorityOpt x = true → x = "p:1" ∨ x = "p:2" ∨ x = "p:3".
Proof.
  unfold _isPriorityOpt. rewrite bool_decide_eq_true, !elem_of_cons.
  intros [?|[?|[?|?%elem_of_nil]]]; tauto.
Qed.

Lemma priority_opt_not_tag (x : string) :
  _isPriorityOpt x = true → is_board_tag x = false.
Proof. by intros [->|[->| ->]]%priority_opt_cases. Qed.

Lemma getOptions_split (input bs desc : list string) :
  foldl (λ '(boards, desc) x,
    if negb (_isPriorityOpt x) then
      if startsWith_at x && Nat.ltb 1 (String.length x)
      then (boards ++ [x], desc)
      else (boards, desc ++ [x])
    else (boards, desc)) (bs, desc) input
  = (bs ++ board_tags input, desc ++ plain_words input).
Proof.
  revert bs desc. induction input as [|x l IH]; intros bs desc; simpl.
  - by rewrite !app_nil_r.
  - unfold board_tags, plain_words. rewrite !filter_cons.
    fold (is_board_tag x).
    destruct (_isPriorityOpt x) eqn:Hp; simpl.
    + rewrite IH. rewrite (priority_opt_not_tag x Hp).
      repeat case_decide; try done; exfalso; intuition congruence.
    + destruct (is_board_tag x) eqn:Ht; rewrite IH;
        repeat case_decide; try done; try (exfalso; intuition congruence);
        by rewrite <- ?app_assoc.
Qed.

Lemma level_of_getPriority (input : list string) :
  level_of (_getPriority input) = priority_level input.
Proof.
  unfold _getPriority, priority_level.
  destruct (find_first _isPriorityOpt input) as [opt|] eqn:Hf; [|done].
  assert (Hopt : _isPriorityOpt opt = true).
  { clear -Hf. induction input as [|x l IH]; [done|]. simpl in Hf.
    destruct (_isPriorityOpt x) eqn:Hx; [by injection Hf as <-|by apply IH]. }
  by apply priority_opt_cases in Hopt as [->|[->| ->]].
Qed.

Lemma getOptions_eval (input : list string) (s : State) :
  input ≠ [] →
  _getOptions input s =
  Ret (if Nat.eqb (length (board_tags input)) 0 then ["My Board"] else board_tags input,
       join_space (plain_words input),
       next_id (storage s),
       _getPriority input) s.
Proof.
  intros Hne. unfold _getOptions. unfold bind at 1.
  destruct input as [|x l]; [done|].
  change (Nat.eqb (length (x :: l)) 0) with false. cbv iota.
  unfold ret at 1. unfold bind at 1. unfold _generateID at 1.
  unfold bind at 1. simpl (_data s). cbv iota beta. unfold ret at 1.
  rewrite getOptions_split. simpl ([] ++ _).
  fold (next_id (storage s)). unfold ret.
  destruct (Nat.eqb (length (board_tags (x :: l))) 0) eqn:Hb; [|done].
  apply Nat.eqb_eq, nil_length_inv in Hb. by rewrite Hb.
Qed.

(** C6: [createTask] turns the tokens that start with ['@'] and are
    longer than one character into the boards of the new task (the one
    board [My Board] when there is none), takes the level of the first
    token among [p:1], [p:2], [p:3] as its priority (1 when there is
    none), and joins the tokens that are neither board tags nor priority
    tokens with spaces into its description; on [buy milk @shopping p:2]
    the task has description [buy milk], the one board [@shopping] and
    priority 2.  The task is stored under the id the allocator returns;
    its priority is the number that the constructor makes of the
    character [_getPriority] returns. *)
Theorem createTask_parses_tokens (today : string) (input : list string) (s : State) :
  (input ≠ [] →
     let task :=
       mkItem (next_id (storage s)) today
              (join_space (plain_words input)) false
              (if Nat.eqb (length (board_tags input)) 0 then ["My Board"]
               else board_tags input)
              true false false (Some (PNum (priority_level input))) in
     createTask today input s =
     Ret () (mkState (<[next_id (storage s) := task]> (storage s)) (archive s)
                     (screen s ++ [successCreate task]))) ∧
  (let task :=
     mkItem (next_id (storage s)) today "buy milk" false ["@shopping"]
            true false false (Some (PNum 2)) in
   createTask today ["buy"; "milk"; "@shopping"; "p:2"] s =
   Ret () (mkState (<[next_id (storage s) := task]> (storage s)) (archive s)
                   (screen s ++ [successCreate task]))).
Proof.
  assert (H : ∀ input, input ≠ [] →
     createTask today input s =
     Ret () (mkState
       (<[next_id (storage s) :=
            mkItem (next_id (storage s)) today
              (join_space (plain_words input)) false
              (if Nat.eqb (length (board_tags input)) 0 then ["My Board"]
               else board_tags input)
              true false false (Some (PNum (priority_level input)))]> (storage s))
       (archive s)
       (screen s ++ [successCreate (mkItem (next_id (storage s)) today
              (join_space (plain_words input)) false
              (if Nat.eqb (length (board_tags input)) 0 then ["My Board"]
               else board_tags input)
              true false false (Some (PNum (priority_level input))))]))).
  { intros l Hl. unfold createTask. unfold bind at 1.
    rewrite getOptions_eval by done. unfold new_Task.
    rewrite level_of_getPriority. reflexivity. }
  split.
  - intros Hne. simpl. by apply H.
  - simpl. by rewrite H.
Qed.

Lemma createTask_parses_tokens_witness :
  createTask "Tue" ["call"; "@home"; "@"; "p:3"; "p:1"; "mum"] empty_state =
  Ret () (mkState
    {[ 1 := mkItem 1 "Tue" "call @ mum" false ["@home"] true false false (Some (PNum 3)) ]}
    ∅
    [successCreate
       (mkItem 1 "Tue" "call @ mum" false ["@home"] true false false (Some (PNum 3)))]).
Proof.
  apply (proj1 (createTask_parses_tokens "Tue"
                  ["call"; "@home"; "@"; "p:3"; "p:1"; "mum"] empty_state)).
  discriminate.
Defined.

(** C7: an empty token list ends [createTask] with the missing-description
    error and nothing written; a token list that leaves no word for the
    description does not: on the one token [@shopping] a task with the
    empty description is created and stored. *)
Theorem createTask_empty_description :
  (∀ today s,
     createTask today [] s
     = Exit 1 (mkState (storage s) (archive s) (screen s ++ [missingDesc]))) ∧
  createTask "Tue" ["@shopping"] empty_state =
  Ret () (mkState
    {[ 1 := mkItem 1 "Tue" EmptyString false ["@shopping"] true false false (Some (PNum 1)) ]}
    ∅
    [successCreate
       (mkItem 1 "Tue" EmptyString false ["@shopping"] true false false (Some (PNum 1)))]).
Proof.
  split; [reflexivity|]. vm_compute. reflexivity.
Qed.

(** ** Archiving and restoring *)

Section Archive.

Variable Number : string → option N.

(** [deleteItems] on one valid id: the item moves to the archive under the
    id the allocator returns for it, with its other fields as they were. *)
Lemma deleteItems_single (id : string) (k : N) (item : Item) (s : State) :
  present_in Number (storage s) id →
  key_of_string id = Some k →
  storage s !! k = Some item →
  deleteItems Number [id] s =
  Ret () (mkState (delete k (storage s))
            (<[next_id (archive s) := set_id (next_id (archive s)) item]> (archive s))
            (screen s ++ [successDelete [id]])).
Proof.
  intros Hp Hk Hit. unfold deleteItems. unfold bind at 1.
  rewrite validateIDs_default, (validateIDs_accepts Number [id] (storage s) s).
  2: done.
  2: { by intros ? ->%list_elem_of_singleton. }
  unfold Set_spread. simpl. unfold bind at 1. simpl.
  unfold bind at 1. unfold bind at 1. unfold bind at 1.
  unfold item_at, delete_item. rewrite Hk, Hit.
  reflexivity.
Qed.

(** [restoreItems] never gets to its loop either. *)
Lemma restoreItems_writes_nothing (ids : list string) (s : State) :
  ∃ s', same_files s s' ∧
        (restoreItems Number ids s = Exit 1 s' ∨
         restoreItems Number ids s = Throw (TypeError "ids.forEach is not a function") s').
Proof.
  rewrite restoreItems_eval.
  destruct (validateIDs_cases Number (AArr ids) (Some (Object_keys (archive s))) s)
    as [(s' & -> & ?)| ->].
  - exists s'. split; [done|]. by left.
  - exists s. split; [by split|]. by right.
Qed.

End Archive.

(** C8: deleting the starred task 3 moves it into the empty archive as
    item 1 with its description, boards, priority and star; restoring
    item 1 then fails on [ids.forEach], the promise of the validation
    that was not awaited: the item stays in the archive and the storage
    stays empty.  No call of [restoreItems] writes anything. *)
Theorem restoreItems_restores_nothing :
  deleteItems Number_digits ["3"]
    (mkState {[ 3 := mkItem 3 "Mon" "a" true ["@x"] true false false (Some (PNum 2)) ]} ∅ [])
  = Ret () (mkState ∅
      {[ 1 := mkItem 1 "Mon" "a" true ["@x"] true false false (Some (PNum 2)) ]}
      [successDelete ["3"]]) ∧
  restoreItems Number_digits ["1"]
    (mkState ∅
      {[ 1 := mkItem 1 "Mon" "a" true ["@x"] true false false (Some (PNum 2)) ]}
      [successDelete ["3"]])
  = Throw (TypeError "ids.forEach is not a function")
      (mkState ∅
        {[ 1 := mkItem 1 "Mon" "a" true ["@x"] true false false (Some (PNum 2)) ]}
        [successDelete ["3"]]) ∧
  (∀ Number ids s, ∃ s', same_files s s' ∧
     (restoreItems Number ids s = Exit 1 s' ∨
      restoreItems Number ids s = Throw (TypeError "ids.forEach is not a function") s')).
Proof.
  split; [vm_compute; reflexivity|].
  split; [vm_compute; reflexivity|].
  apply restoreItems_writes_nothing.
Qed.

(** C4: [beginTasks] on the id of a task that is complete and not in
    progress fails on [ids.forEach], the promise of the validation that
    was not awaited: the task is neither started nor made incomplete.
    No call of [beginTasks] writes anything. *)
Theorem beginTasks_toggles_nothing :
  beginTasks Number_digits ["1"]
    (mkState {[ 1 := mkItem 1 "Mon" "a" false ["My Board"] true true false (Some (PNum 1)) ]} ∅ [])
  = Throw (TypeError "ids.forEach is not a function")
      (mkState {[ 1 := mkItem 1 "Mon" "a" false ["My Board"] true true false (Some (PNum 1)) ]} ∅ []) ∧
  (∀ Number ids s, ∃ s', same_files s s' ∧
     (beginTasks Number ids s = Exit 1 s' ∨
      beginTasks Number ids s = Throw (TypeError "ids.forEach is not a function") s')).
Proof.
  split; [vm_compute; reflexivity|].
  apply beginTasks_writes_nothing.
Qed.

(** C10: on the id of a note [checkTasks] writes the storage back as it
    was and reports two empty buckets, whereas [beginTasks] ends in the
    [TypeError] of [ids.forEach]. *)
Theorem beginTasks_fails_on_note :
  checkTasks Number_digits ["2"]
    (mkState {[ 2 := new_Note "Mon" 2 "b" ["My Board"] ]} ∅ [])
  = Ret () (mkState {[ 2 := new_Note "Mon" 2 "b" ["My Board"] ]} ∅
              [markComplete []; markIncomplete []]) ∧
  beginTasks Number_digits ["2"]
    (mkState {[ 2 := new_Note "Mon" 2 "b" ["My Board"] ]} ∅ [])
  = Throw (TypeError "ids.forEach is not a function")
      (mkState {[ 2 := new_Note "Mon" 2 "b" ["My Board"] ]} ∅ []).
Proof.
  split; vm_compute; reflexivity.
Qed.

(** ** The remote backend *)

Section Remote.

Import Storage.

Variable network : list request → request → reply.
Variable JSON_parse : string → option (gmap N Item).
Variable JSON_stringify : gmap N Item → string.

Lemma checkAndGetDynamoInstance_ready (cfg : Config) (w : World) :
  remote_ready cfg →
  _checkAndGetDynamoInstance cfg w
  = Ret (createInstance (text (dynamoBaseUrl cfg)) (text (dynamoToken cfg))) w.
Proof.
  intros (Hb & Ht & Hn). unfold _checkAndGetDynamoInstance, bind.
  rewrite Hb, Ht, Hn. reflexivity.
Qed.

Lemma perform_rejected (r : request) (w : World) (message : string) :
  network (sent w) r = Rejected message →
  perform network r w
  = Throw (RequestError message)
      (mkWorld (sent w ++ [r]) (main_file w) (notices w ++ [errorHttpRequest message])).
Proof. intros H. unfold perform. rewrite H. reflexivity. Qed.

Lemma getFromDynamo_rejected (cfg : Config) (w : World) (message : string) :
  remote_ready cfg →
  network (sent w)
    (GET (createInstance (text (dynamoBaseUrl cfg)) (text (dynamoToken cfg)))
         (dynamo_path cfg)) = Rejected message →
  _getFromDynamo network JSON_parse cfg w
  = Ret ∅ (mkWorld
      (sent w ++ [GET (createInstance (text (dynamoBaseUrl cfg)) (text (dynamoToken cfg)))
                      (dynamo_path cfg)])
      (main_file w) (notices w ++ [errorHttpRequest message])).
Proof.
  intros Hr Hn. unfold _getFromDynamo. unfold bind at 1.
  rewrite checkAndGetDynamoInstance_ready by done.
  unfold try_catch. unfold bind at 1.
  rewrite (perform_rejected _ _ message) by done. reflexivity.
Qed.

Lemma setToDynamo_rejected (cfg : Config) (data : gmap N Item) (w : World)
    (message : string) :
  remote_ready cfg →
  network (sent w)
    (PUT (createInstance (text (dynamoBaseUrl cfg)) (text (dynamoToken cfg)))
         (dynamo_path cfg) data) = Rejected message →
  _setToDynamo network cfg data w
  = Ret () (mkWorld
      (sent w ++ [PUT (createInstance (text (dynamoBaseUrl cfg)) (text (dynamoToken cfg)))
                      (dynamo_path cfg) data])
      (main_file w) (notices w ++ [errorHttpRequest message])).
Proof.
  intros Hr Hn. unfold _setToDynamo. unfold bind at 1.
  rewrite checkAndGetDynamoInstance_ready by done.
  unfold try_catch. unfold bind at 1.
  rewrite (perform_rejected _ _ message) by done. reflexivity.
Qed.

End Remote.

(** C9: with the remote backend configured, a request that fails in
    transport makes the read return the empty collection rather than
    throw, and lets the write return normally, as it does on success; in
    both cases the one request is all that is sent (nothing is retried).
    [Storage.get] and [Storage.set] with [useDynamo] on behave the
    same. *)
Theorem remote_failure_is_swallowed
    (network : list Storage.request → Storage.request → Storage.reply)
    (JSON_parse : string → option (gmap N Item))
    (JSON_stringify : gmap N Item → string)
    (cfg : Storage.Config) (data : gmap N Item) (w : Storage.World) (message : string) :
  Storage.remote_ready cfg →
  Storage.useDynamo cfg = true →
  let instance :=
    Storage.createInstance (Storage.text (Storage.dynamoBaseUrl cfg))
                           (Storage.text (Storage.dynamoToken cfg)) in
  let failed r :=
    Storage.mkWorld (Storage.sent w ++ [r]) (Storage.main_file w)
                    (Storage.notices w ++ [Storage.errorHttpRequest message]) in
  (network (Storage.sent w) (Storage.GET instance (Storage.dynamo_path cfg))
     = Storage.Rejected message →
   Storage._getFromDynamo network JSON_parse cfg w
     = Ret ∅ (failed (Storage.GET instance (Storage.dynamo_path cfg))) ∧
   Storage.get network JSON_parse cfg w
     = Ret ∅ (failed (Storage.GET instance (Storage.dynamo_path cfg)))) ∧
  (network (Storage.sent w) (Storage.PUT instance (Storage.dynamo_path cfg) data)
     = Storage.Rejected message →
   Storage._setToDynamo network cfg data w
     = Ret () (failed (Storage.PUT instance (Storage.dynamo_path cfg) data)) ∧
   Storage.set network JSON_stringify cfg data w
     = Ret () (failed (Storage.PUT instance (Storage.dynamo_path cfg) data))).
Proof.
  intros Hr Hu. simpl. split; intros Hn.
  - unfold Storage.get. rewrite Hu.
    by rewrite (getFromDynamo_rejected network JSON_parse cfg w message).
  - unfold Storage.set. rewrite Hu.
    by rewrite (setToDynamo_rejected network cfg data w message).
Qed.

Lemma remote_failure_is_swallowed_witness :
  Storage.get (λ _ _, Storage.Rejected "timeout") (λ _, None)
    (Storage.mkConfig true (Some "https://kv.example") (Some "secret") (Some "home"))
    (Storage.mkWorld [] None [])
  = Ret ∅ (Storage.mkWorld
      [Storage.GET (Storage.mkInstance "https://kv.example" "token secret")
                   "/api/home/storage.json"]
      None [Storage.errorHttpRequest "timeout"]) ∧
  Storage.set (λ _ _, Storage.Rejected "timeout") (λ _, "{}")
    (Storage.mkConfig true (Some "https://kv.example") (Some "secret") (Some "home"))
    {[ 1 := new_Note "Mon" 1 "b" ["My Board"] ]}
    (Storage.mkWorld [] None [])
  = Ret () (Storage.mkWorld
      [Storage.PUT (Storage.mkInstance "https://kv.example" "token secret")
                   "/api/home/storage.json" {[ 1 := new_Note "Mon" 1 "b" ["My Board"] ]}]
      None [Storage.errorHttpRequest "timeout"]).
Proof.
  split.
  - apply (proj1 (remote_failure_is_swallowed (λ _ _, Storage.Rejected "timeout")
      (λ _, None) (λ _, "{}")
      (Storage.mkConfig true (Some "https://kv.example") (Some "secret") (Some "home"))
      ∅ (Storage.mkWorld [] None []) "timeout"
      (conj eq_refl (conj eq_refl eq_refl)) eq_refl)).
    reflexivity.
  - apply (proj2 (remote_failure_is_swallowed (λ _ _, Storage.Rejected "timeout")
      (λ _, None) (λ _, "{}")
      (Storage.mkConfig true (Some "https://kv.example") (Some "secret") (Some "home"))
      {[ 1 := new_Note "Mon" 1 "b" ["My Board"] ]} (Storage.mkWorld [] None []) "timeout"
      (conj eq_refl (conj eq_refl eq_refl)) eq_refl)).
    reflexivity.
Defined.

(** ** The query engine *)

Lemma only_changes_refl (data : N) (m : Mem) : only_changes data m m.
Proof. by repeat split. Qed.

Lemma only_changes_trans (data : N) (m1 m2 m3 : Mem) :
  only_changes data m1 m2 → only_changes data m2 m3 → only_changes data m1 m3.
Proof.
  intros (H1 & H2 & H3) (H1' & H2' & H3'). repeat split.
  - intros r Hr. by rewrite H1', H1.
  - by rewrite H2'.
  - by rewrite H3'.
Qed.

Lemma obj_delete_prop (data id : N) (m : Mem) :
  ∃ m', delete_prop data id m = Ret () m' ∧
        obj m' data = delete id (obj m data) ∧ only_changes data m m'.
Proof.
  eexists. split; [reflexivity|]. split.
  - unfold obj at 1. simpl. by rewrite lookup_insert_eq.
  - repeat split. intros r Hr. simpl. by rewrite lookup_insert_ne.
Qed.

(** The loop of a filter over a list of keys still to visit. *)
Lemma delete_where_loop (test : Item → bool) (data : N) (l : list N) (m : Mem) :
  NoDup l →
  (∀ id, id ∈ l → is_Some (obj m data !! id)) →
  ∃ m',
    forEach l (λ _ id,
      let* item := get_prop data id in
      match item with
      | None => throw (TypeError "data[id] is undefined")
      | Some item => if test item then delete_prop data id else ret ()
      end) () m = Ret () m' ∧
    obj m' data = filter (λ kv, kv.1 ∈ l → test kv.2 = false) (obj m data) ∧
    only_changes data m m'.
Proof.
  revert m. induction l as [|x l IH]; intros m Hnd Hin.
  - exists m. split; [done|]. split; [|apply only_changes_refl].
    symmetry. apply map_filter_id. by intros ? ? _ ?%elem_of_nil.
  - apply NoDup_cons in Hnd as [Hx Hnd].
    destruct (Hin x) as [item Hitem]; [left|].
    simpl. unfold bind at 1. unfold bind at 1. simpl. rewrite Hitem.
    destruct (test item) eqn:Ht.
    + destruct (obj_delete_prop data x m) as (m1 & -> & Ho & Hc).
      destruct (IH m1 Hnd) as (m' & -> & Ho' & Hc').
      { intros id Hid. rewrite Ho, lookup_delete_ne by (by intros ->).
        apply Hin. by right. }
      exists m'. split; [done|]. split; [|by eapply only_changes_trans].
      rewrite Ho', Ho. apply map_eq. intros k. apply option_eq. intros v.
      rewrite !map_lookup_filter_Some. simpl. rewrite lookup_delete_Some.
      split.
      * intros [[? ?] Hl]. split; [done|].
        intros [->|?]%elem_of_cons; [done|auto].
      * intros [Hk Hl]. split.
        -- split; [|done]. intros ->.
           assert (v = item) as -> by congruence.
           specialize (Hl (list_elem_of_here _ _)). congruence.
        -- intros ?. apply Hl. by right.
    + unfold ret at 1.
      destruct (IH m Hnd) as (m' & -> & Ho' & Hc').
      { intros id Hid. apply Hin. by right. }
      exists m'. split; [done|]. split; [|done].
      rewrite Ho'. apply map_filter_ext. intros k v Hk. simpl. split.
      * intros Hl [->|?]%elem_of_cons; [|auto].
        assert (v = item) as -> by congruence. done.
      * intros Hl ?. apply Hl. by right.
Qed.

Lemma delete_where_spec (test : Item → bool) (data : N) (m : Mem) :
  ∃ m', delete_where test data m = Ret data m' ∧
        obj m' data = filter (λ kv, test kv.2 = false) (obj m data) ∧
        only_changes data m m'.
Proof.
  unfold delete_where. unfold bind at 1. simpl.
  destruct (delete_where_loop test data (Object_keys (obj m data)) m)
    as (m' & Hrun & Ho & Hc).
  { apply NoDup_Object_keys. }
  { intros id. apply elem_of_Object_keys. }
  exists m'. unfold bind at 1. rewrite Hrun. split; [done|]. split; [|done].
  rewrite Ho. apply map_filter_ext. intros k v Hk. simpl. split; [|auto].
  intros Hl. apply Hl, elem_of_Object_keys. by eexists.
Qed.

(** One round of the [switch]: the filter that the tag selects, or
    nothing for a tag that is not recognised. *)
Lemma filter_switch_spec (x : string) (data : N) (m : Mem) :
  ∃ m',
    (if one_of x ["star"; "starred"] then _filterStarred data
     else if one_of x ["done"; "checked"; "complete"] then _filterComplete data
     else if one_of x ["progress"; "started"; "begun"] then _filterInProgress data
     else if one_of x ["pending"; "unchecked"; "incomplete"] then _filterPending data
     else if one_of x ["todo"; "task"; "tasks"] then _filterTask data
     else if one_of x ["note"; "notes"] then _filterNote data
     else ret data) m = Ret data m' ∧
    obj m' data = filter (λ kv, tag_holds x kv.2 = true) (obj m data) ∧
    only_changes data m m'.
Proof.
  unfold tag_holds.
  repeat match goal with
  | |- context [if one_of x ?l then _ else _] => destruct (one_of x l)
  end.
  7: { exists m. split; [done|]. split; [|apply only_changes_refl].
       symmetry. by apply map_filter_id. }
  all: unfold _filterStarred, _filterComplete, _filterInProgress,
         _filterPending, _filterTask, _filterNote;
       match goal with
       | |- context [delete_where ?t ?d ?mm] =>
           destruct (delete_where_spec t d mm) as (m' & -> & Ho & Hc)
       end;
       exists m'; (split; [done|]); (split; [|done]);
       rewrite Ho; apply map_filter_ext; intros k v _; simpl;
       destruct (_isTask v), (isStarred v), (isComplete v), (inProgress v);
       simpl; split; congruence.
Qed.

Lemma filter_rounds_spec (attr : list string) (data : N) (m : Mem) :
  ∃ m',
    forEach attr (λ data x,
      if one_of x ["star"; "starred"] then _filterStarred data
      else if one_of x ["done"; "checked"; "complete"] then _filterComplete data
      else if one_of x ["progress"; "started"; "begun"] then _filterInProgress data
      else if one_of x ["pending"; "unchecked"; "incomplete"] then _filterPending data
      else if one_of x ["todo"; "task"; "tasks"] then _filterTask data
      else if one_of x ["note"; "notes"] then _filterNote data
      else ret data) data m = Ret data m' ∧
    obj m' data = filter (λ kv, tags_hold attr kv.2 = true) (obj m data) ∧
    only_changes data m m'.
Proof.
  revert m. induction attr as [|x attr IH]; intros m.
  - exists m. split; [done|]. split; [|apply only_changes_refl].
    symmetry. by apply map_filter_id.
  - simpl forEach. unfold bind at 1.
    destruct (filter_switch_spec x data m) as (m1 & -> & Ho & Hc).
    destruct (IH m1) as (m' & -> & Ho' & Hc').
    exists m'. split; [done|]. split; [|by eapply only_changes_trans].
    rewrite Ho', Ho, map_filter_filter. apply map_filter_ext.
    intros k v _. simpl. rewrite andb_true_iff. tauto.
Qed.

Lemma filterByAttributes_spec (attr : list string) (data : N) (m : Mem) :
  ∃ m', _filterByAttributes attr (Some data) m = Ret data m' ∧
        obj m' data = filter (λ kv, tags_hold attr kv.2 = true) (obj m data) ∧
        only_changes data m m'.
Proof.
  unfold _filterByAttributes. unfold bind at 1. unfold ret at 1.
  unfold bind at 1. unfold keys_of.
  destruct (Object_keys (obj m data)) as [|k ks] eqn:Hk.
  - exists m. split; [done|]. split; [|apply only_changes_refl].
    apply Object_keys_nil in Hk. rewrite Hk. by rewrite map_filter_empty.
  - change (Nat.eqb (length (k :: ks)) 0) with false. cbv iota.
    unfold bind at 1.
    destruct (filter_rounds_spec attr data m) as (m' & -> & Ho & Hc).
    by exists m'.
Qed.


Lemma keeps_objects_trans (m1 m2 m3 : Mem) :
  keeps_objects m1 m2 → keeps_objects m2 m3 → keeps_objects m1 m3.
Proof.
  intros [H1 H2] [H1' H2']. split; [auto|]. by rewrite H2'.
Qed.

Lemma next_ref_fresh (h : gmap N (gmap N Item)) : h !! next_ref h = None.
Proof.
  apply eq_None_not_Some. intros Hs.
  apply elem_of_dom, elem_of_elements, Math_max_upper in Hs.
  unfold next_ref in Hs. lia.
Qed.

Lemma alloc_spec (c : gmap N Item) (m : Mem) :
  ∃ r m', alloc c m = Ret r m' ∧ heap m !! r = None ∧ heap m' !! r = Some c ∧
          keeps_objects m m' ∧ displayed m' = displayed m ∧
          (∀ r', r' ≠ r → heap m' !! r' = heap m !! r').
Proof.
  exists (next_ref (heap m)). eexists. split; [reflexivity|].
  pose proof (next_ref_fresh (heap m)) as Hf.
  split; [done|]. split.
  { simpl. by rewrite lookup_insert_eq. }
  split; [|split; [done|]].
  - split; [|done]. intros r c' Hr. simpl.
    rewrite lookup_insert_ne; [done|]. intros <-. congruence.
  - intros r' ?. simpl. by rewrite lookup_insert_ne.
Qed.






Section SearchProperties.

Variable toLocaleLowerCase : string → string.

Lemma obj_only_changes (result r : N) (m m' : Mem) :
  r ≠ result → only_changes result m m' → obj m' r = obj m r.
Proof. intros Hr (H & _). unfold obj. by rewrite H. Qed.



End SearchProperties.




(** * Further properties of the code *)

(** ** Keys and their spellings *)

Lemma key_of_string_key_string (k : N) : key_of_string (key_string k) = Some k.
Proof.
  unfold key_of_string, key_string.
  rewrite NilEmpty.usu. simpl. rewrite DecimalN.Unsigned.of_to.
  by rewrite String.eqb_refl.
Qed.

Lemma key_string_of_key (id : string) (k : N) :
  key_of_string id = Some k → key_string k = id.
Proof.
  unfold key_of_string. destruct (NilEmpty.uint_of_string id) as [d|]; [|done].
  simpl. destruct (String.eqb _ id) eqn:He; [|done].
  intros [= <-]. by apply String.eqb_eq.
Qed.

Lemma key_string_inj (k k' : N) : key_string k = key_string k' → k = k'.
Proof.
  intros H. apply (f_equal key_of_string) in H.
  rewrite !key_of_string_key_string in H. by injection H.
Qed.


Lemma item_at_put_other (data : gmap N Item) (id id' : string) (item : Item) :
  id ≠ id' → item_at (put_item id item data) id' = item_at data id'.
Proof.
  intros Hne. unfold item_at, put_item.
  destruct (key_of_string id) as [k|] eqn:Hk; [|done].
  destruct (key_of_string id') as [k'|] eqn:Hk'; [|done].
  apply lookup_insert_ne. intros ->.
  apply key_string_of_key in Hk, Hk'. congruence.
Qed.

Lemma filter_ext_elem {A} (P Q : A → Prop) `{∀ x, Decision (P x)} `{∀ x, Decision (Q x)}
    (l : list A) :
  (∀ x, x ∈ l → P x ↔ Q x) → filter P l = filter Q l.
Proof.
  induction l as [|x l IH]; intros Hpq; [done|].
  rewrite !filter_cons.
  assert (P x ↔ Q x) by (apply Hpq; left).
  rewrite IH by (intros ? ?; apply Hpq; by right).
  repeat case_decide; tauto || done.
Qed.

(** ** The loop of check and star *)

Section ToggleLoop.

Variables (app : Item → bool) (upd : Item → Item) (side : Item → bool).

Lemma lands_put_other (want : bool) (data : gmap N Item) (x : string) (item : Item)
    (l : list string) :
  x ∉ l →
  filter (λ id, lands app upd side want (put_item x item data) id = true) l
  = filter (λ id, lands app upd side want data id = true) l.
Proof.
  intros Hx. apply filter_ext_elem. intros id Hid. unfold lands.
  rewrite item_at_put_other; [done|]. by intros ->.
Qed.

Lemma toggle_loop (l : list string) (d : gmap N Item) (yes no : list string) (s : State) :
  NoDup l →
  match forEach l (toggle_round app upd side) (d, yes, no) s with
  | Ret (d', yes', no') s' =>
      s' = s ∧
      (∀ k, d' !! k = toggled app upd l k <$> d !! k) ∧
      yes' = yes ++ filter (λ id, lands app upd side true d id = true) l ∧
      no' = no ++ filter (λ id, lands app upd side false d id = true) l ∧
      (∀ id, id ∈ l → is_Some (item_at d id))
  | Exit _ s' | Throw _ s' => s' = s
  end.
Proof.
  revert d yes no. induction l as [|x l IH]; intros d yes no Hnd.
  { simpl. split; [done|]. split.
    - intros k. unfold toggled. by destruct (d !! k).
    - rewrite !app_nil_r. split; [done|]. split; [done|].
      by intros ? ?%elem_of_nil. }
  apply NoDup_cons in Hnd as [Hx Hnd].
  simpl forEach. unfold bind.
  destruct (item_at d x) as [item|] eqn:Hit; [|done].
  pose proof Hit as (kx & Hkx & Hd)%item_at_key.
  pose proof (key_string_of_key x kx Hkx) as Hsp.
  assert (Hmem : ∀ k, k ≠ kx →
            bool_decide (key_string k ∈ x :: l) = bool_decide (key_string k ∈ l)).
  { intros k Hk. apply bool_decide_ext. rewrite elem_of_cons.
    split; [|tauto]. intros [He|?]; [|done].
    exfalso. apply Hk, key_string_inj. congruence. }
  assert (Hkxl : bool_decide (key_string kx ∈ l) = false).
  { apply bool_decide_eq_false_2. by rewrite Hsp. }
  destruct (app item) eqn:Happ.
  - assert (Hput : put_item x (upd item) d = <[kx := upd item]> d).
    { unfold put_item. by rewrite Hkx. }
    assert (Hstep : ∀ yes1 no1,
      yes1 ++ filter (λ id, lands app upd side true (put_item x (upd item) d) id = true) l
        = yes ++ filter (λ id, lands app upd side true d id = true) (x :: l) →
      no1 ++ filter (λ id, lands app upd side false (put_item x (upd item) d) id = true) l
        = no ++ filter (λ id, lands app upd side false d id = true) (x :: l) →
      match forEach l (toggle_round app upd side) (put_item x (upd item) d, yes1, no1) s with
      | Ret (d', yes', no') s' =>
          s' = s ∧
          (∀ k, d' !! k = toggled app upd (x :: l) k <$> d !! k) ∧
          yes' = yes ++ filter (λ id, lands app upd side true d id = true) (x :: l) ∧
          no' = no ++ filter (λ id, lands app upd side false d id = true) (x :: l) ∧
          (∀ id, id ∈ x :: l → is_Some (item_at d id))
      | Exit _ s' | Throw _ s' => s' = s
      end).
    { intros yes1 no1 Hy Hn.
      specialize (IH (put_item x (upd item) d) yes1 no1 Hnd).
      destruct (forEach l _ _ s) as [[[d' yes'] no'] s'| |]; [|done..].
      destruct IH as (-> & Hl & -> & -> & Hall).
      split; [done|]. split; [|split; [done|split; [done|]]].
      - intros k. rewrite Hl, Hput. unfold toggled.
        destruct (decide (k = kx)) as [->|Hk].
        + rewrite lookup_insert_eq, Hd. simpl.
          rewrite Hkxl, Hsp. simpl.
          rewrite bool_decide_eq_true_2 by left. simpl. by rewrite Happ.
        + rewrite lookup_insert_ne by done. by rewrite Hmem.
      - intros id [->|Hid]%elem_of_cons; [by eexists|].
        specialize (Hall id Hid). rewrite item_at_put_other in Hall; [done|].
        by intros ->. }
    assert (Hl1 : lands app upd side true d x = side (upd item)).
    { unfold lands. rewrite Hit, Happ. simpl. by destruct (side (upd item)). }
    assert (Hl2 : lands app upd side false d x = negb (side (upd item))).
    { unfold lands. rewrite Hit, Happ. simpl. by destruct (side (upd item)). }
    destruct (side (upd item)) eqn:Hside; simpl in Hl1, Hl2.
    + apply Hstep; rewrite lands_put_other, filter_cons by done.
      * rewrite decide_True by done. by rewrite <- app_assoc.
      * rewrite decide_False; [done|]. by rewrite Hl2.
    + apply Hstep; rewrite lands_put_other, filter_cons by done.
      * rewrite decide_False; [done|]. by rewrite Hl1.
      * rewrite decide_True by done. by rewrite <- app_assoc.
  - assert (Hno : ∀ want, lands app upd side want d x = false).
    { intros want. unfold lands. by rewrite Hit, Happ. }
    specialize (IH d yes no Hnd). simpl.
    destruct (forEach l _ _ s) as [[[d' yes'] no'] s'| |]; [|done..].
    destruct IH as (-> & Hl & -> & -> & Hall).
    split; [done|]. split; [|split; [|split]].
    + intros k. rewrite Hl. unfold toggled.
      destruct (decide (k = kx)) as [->|Hk].
      * rewrite Hd. simpl. by rewrite Happ, !andb_false_r.
      * by rewrite Hmem.
    + rewrite filter_cons. rewrite decide_False; [done|]. by rewrite Hno.
    + rewrite filter_cons. rewrite decide_False; [done|]. by rewrite Hno.
    + intros id [->|Hid]%elem_of_cons; [by eexists|auto].
Qed.

Lemma toggle_loop_total (l : list string) (d : gmap N Item) (yes no : list string)
    (s : State) :
  NoDup l →
  (∀ id, id ∈ l → is_Some (item_at d id)) →
  ∃ r, forEach l (toggle_round app upd side) (d, yes, no) s = Ret r s.
Proof.
  revert d yes no. induction l as [|x l IH]; intros d yes no Hnd Hall.
  { by eexists. }
  apply NoDup_cons in Hnd as [Hx Hnd].
  destruct (Hall x) as [item Hit]; [left|].
  simpl forEach. unfold bind. rewrite Hit.
  assert (Hrest : ∀ item', ∀ id, id ∈ l → is_Some (item_at (put_item x item' d) id)).
  { intros item' id Hid. rewrite item_at_put_other by (by intros ->).
    apply Hall. by right. }
  destruct (app item); [destruct (side (upd item))|]; simpl.
  - apply IH; [done|apply Hrest].
  - apply IH; [done|apply Hrest].
  - apply IH; [done|]. intros id ?. apply Hall. by right.
Qed.

End ToggleLoop.

Lemma forEach_ext {S A B} (f g : B → A → M S B) (l : list A) (acc : B) (s : S) :
  (∀ acc x, f acc x = g acc x) →
  forEach l f acc s = forEach l g acc s.
Proof.
  intros Hfg. revert acc s. induction l as [|x l IH]; intros acc s; [done|].
  simpl. unfold bind. rewrite Hfg. destruct (g acc x s); [apply IH|done..].
Qed.

Lemma toggled_Set_spread (app : Item → bool) (upd : Item → Item) (ids : list string)
    (k : N) (item : Item) :
  toggled app upd (Set_spread ids) k item = toggled app upd ids k item.
Proof.
  unfold toggled.
  by rewrite (bool_decide_ext _ (key_string k ∈ ids)) by apply Set_spread_elem.
Qed.

Section CheckAndStar.

Variable Number : string → option N.

Lemma checkTasks_as_toggle (ids : list string) (s : State) :
  checkTasks Number ids s =
  (let* ids := _validateIDs Number (AArr ids) None in
   let* _data := _data in
   let* (_data, checked, unchecked) :=
     forEach ids (toggle_round _isTask checked_item isComplete) (_data, [], []) in
   _save _data;;
   render (markComplete checked);;
   render (markIncomplete unchecked)) s.
Proof.
  unfold checkTasks. unfold bind at 1 6.
  destruct (_validateIDs _ _ _ s) as [ids' s'| |]; [|done..].
  unfold bind at 1 5. change (_data s') with (Ret (storage s') s'). cbv iota beta.
  unfold bind at 1 4. erewrite forEach_ext; [reflexivity|].
  by intros [[d c] u] id.
Qed.

Lemma starItems_as_toggle (ids : list string) (s : State) :
  starItems Number ids s =
  (let* ids := _validateIDs Number (AArr ids) None in
   let* _data := _data in
   let* (_data, starred, unstarred) :=
     forEach ids (toggle_round (λ _, true) starred_item isStarred) (_data, [], []) in
   _save _data;;
   render (markStarred starred);;
   render (markUnstarred unstarred)) s.
Proof.
  unfold starItems. unfold bind at 1 6.
  destruct (_validateIDs _ _ _ s) as [ids' s'| |]; [|done..].
  unfold bind at 1 5. change (_data s') with (Ret (storage s') s'). cbv iota beta.
  unfold bind at 1 4. erewrite forEach_ext; [reflexivity|].
  by intros [[d c] u] id.
Qed.

(** A command made of validation, the toggle loop, one save and two
    reports. *)
Lemma toggle_command (app : Item → bool) (upd : Item → Item) (side : Item → bool)
    (yes_call no_call : list string → render_call) (ids : list string) (s : State) :
  match
    (let* ids := _validateIDs Number (AArr ids) None in
     let* _data := _data in
     let* (_data, yes, no) :=
       forEach ids (toggle_round app upd side) (_data, [], []) in
     _save _data;;
     render (yes_call yes);;
     render (no_call no)) s
  with
  | Ret _ s' =>
      (∀ k, storage s' !! k = toggled app upd ids k <$> storage s !! k) ∧
      archive s' = archive s ∧
      screen s' = screen s ++
        [yes_call (filter (λ id, lands app upd side true (storage s) id = true)
                          (Set_spread ids));
         no_call (filter (λ id, lands app upd side false (storage s) id = true)
                         (Set_spread ids))] ∧
      ids ≠ [] ∧
      (∀ id, id ∈ ids → present_in Number (storage s) id ∧ is_Some (item_at (storage s) id))
  | Exit _ s' | Throw _ s' => same_files s s'
  end.
Proof.
  unfold bind at 1.
  destruct (validateIDs_cases Number (AArr ids) None s) as [(s' & -> & ?)|Hv];
    [done|].
  rewrite Hv. unfold bind at 1. change (_data s) with (Ret (storage s) s).
  cbv iota beta. unfold bind at 1.
  pose proof (toggle_loop app upd side (Set_spread ids) (storage s) [] [] s
                (Set_spread_from_NoDup [] ids)) as Hloop.
  unfold _removeDuplicates, _arrayify.
  destruct (forEach (Set_spread ids) _ _ s) as [[[d' yes'] no'] s'|c s'|e s'];
    [|subst; by split..].
  destruct Hloop as (-> & Hl & -> & -> & Hall). simpl.
  split; [|split; [done|split; [by rewrite <- app_assoc|]]].
  - intros k. rewrite Hl. destruct (storage s !! k); simpl; [|done].
    by rewrite toggled_Set_spread.
  - rewrite validateIDs_default, validateIDs_eval in Hv. simpl in Hv.
    destruct ids as [|x l]; [done|]. split; [done|].
    simpl in Hv. destruct (first_invalid _ _ _) eqn:Hf; [done|].
    rewrite first_invalid_None in Hf.
    intros id Hid. split.
    + apply has_number_keys, Hf. unfold _removeDuplicates. simpl.
      by apply (Set_spread_elem (x :: l)).
    + apply Hall. by apply Set_spread_elem.
Qed.

Lemma toggle_command_runs (app : Item → bool) (upd : Item → Item) (side : Item → bool)
    (yes_call no_call : list string → render_call) (ids : list string) (s : State) :
  ids ≠ [] →
  (∀ id, id ∈ ids → present_in Number (storage s) id ∧ is_Some (item_at (storage s) id)) →
  ∃ s',
    (let* ids := _validateIDs Number (AArr ids) None in
     let* _data := _data in
     let* (_data, yes, no) :=
       forEach ids (toggle_round app upd side) (_data, [], []) in
     _save _data;;
     render (yes_call yes);;
     render (no_call no)) s = Ret () s'.
Proof.
  intros Hne Hall. unfold bind at 1.
  rewrite validateIDs_default, (validateIDs_accepts Number ids (storage s) s);
    [|done|intros; by apply Hall].
  unfold bind at 1. change (_data s) with (Ret (storage s) s).
  cbv iota beta. unfold bind at 1.
  destruct (toggle_loop_total app upd side (Set_spread ids) (storage s) [] [] s)
    as ([[d' yes'] no'] & ->).
  - apply Set_spread_from_NoDup.
  - intros id Hid. apply (proj1 (Set_spread_elem _ _)) in Hid.
    by destruct (Hall id Hid).
  - by eexists.
Qed.

End CheckAndStar.

(** [checkTasks] is all or nothing.  When it returns, the storage it has
    saved differs from the one it read in exactly the tasks whose key is
    spelled by one of the ids: each has [isComplete] flipped once, however
    often its id was given, and [inProgress] false; notes and the archive
    are as they were, and the two buckets reported hold the ids of the
    tasks that became complete and of those that became incomplete.  When
    it ends in an exit or an exception, neither file has changed.  It
    returns whenever the list is not empty and every id converts to a key
    of the storage and spells one. *)
Theorem checkTasks_toggles_each_once (Number : string → option N)
    (ids : list string) (s : State) :
  match checkTasks Number ids s with
  | Ret _ s' =>
      (∀ k, storage s' !! k = toggled _isTask checked_item ids k <$> storage s !! k) ∧
      archive s' = archive s ∧
      screen s' = screen s ++
        [markComplete
           (filter (λ id, lands _isTask checked_item isComplete true (storage s) id = true)
                   (Set_spread ids));
         markIncomplete
           (filter (λ id, lands _isTask checked_item isComplete false (storage s) id = true)
                   (Set_spread ids))]
  | Exit _ s' | Throw _ s' => same_files s s'
  end ∧
  (ids ≠ [] →
   (∀ id, id ∈ ids →
      present_in Number (storage s) id ∧ is_Some (item_at (storage s) id)) →
   ∃ s', checkTasks Number ids s = Ret () s').
Proof.
  rewrite checkTasks_as_toggle. split.
  - pose proof (toggle_command Number _isTask checked_item isComplete
                  markComplete markIncomplete ids s) as H.
    destruct (bind _ _ s); [|done..]. tauto.
  - apply toggle_command_runs.
Qed.

Lemma checkTasks_toggles_each_once_witness :
  ∃ s', checkTasks Number_digits ["1"; "2"; "1"]
          (mkState {[ 1 := new_Task "Mon" 1 "a" ["My Board"] (PNum 1);
                      2 := new_Note "Mon" 2 "b" ["My Board"] ]} ∅ [])
        = Ret () s'.
Proof.
  apply (proj2 (checkTasks_toggles_each_once Number_digits ["1"; "2"; "1"]
    (mkState {[ 1 := new_Task "Mon" 1 "a" ["My Board"] (PNum 1);
                2 := new_Note "Mon" 2 "b" ["My Board"] ]} ∅ []))).
  - discriminate.
  - intros id Hid.
    assert (id = "1" ∨ id = "2") as [-> | ->].
    { repeat (apply elem_of_cons in Hid as [->|Hid]; [tauto|]).
      by apply elem_of_nil in Hid. }
    + split; [exists 1; split; [reflexivity|]|]; eexists; reflexivity.
    + split; [exists 2; split; [reflexivity|]|]; eexists; reflexivity.
Defined.

(** [starItems] is all or nothing in the same way: when it returns, each
    item (task or note) whose key is spelled by one of the ids has
    [isStarred] flipped once and nothing else has changed; the buckets
    hold the ids of the items that became starred and unstarred. *)
Theorem starItems_flips_each_once (Number : string → option N)
    (ids : list string) (s : State) :
  match starItems Number ids s with
  | Ret _ s' =>
      (∀ k, storage s' !! k = toggled (λ _, true) starred_item ids k <$> storage s !! k) ∧
      archive s' = archive s ∧
      screen s' = screen s ++
        [markStarred
           (filter (λ id, lands (λ _, true) starred_item isStarred true (storage s) id = true)
                   (Set_spread ids));
         markUnstarred
           (filter (λ id, lands (λ _, true) starred_item isStarred false (storage s) id = true)
                   (Set_spread ids))]
  | Exit _ s' | Throw _ s' => same_files s s'
  end ∧
  (ids ≠ [] →
   (∀ id, id ∈ ids →
      present_in Number (storage s) id ∧ is_Some (item_at (storage s) id)) →
   ∃ s', starItems Number ids s = Ret () s').
Proof.
  rewrite starItems_as_toggle. split.
  - pose proof (toggle_command Number (λ _, true) starred_item isStarred
                  markStarred markUnstarred ids s) as H.
    destruct (bind _ _ s); [|done..]. tauto.
  - apply toggle_command_runs.
Qed.

Lemma starItems_flips_each_once_witness :
  ∃ s', starItems Number_digits ["2"; "2"]
          (mkState {[ 2 := new_Note "Mon" 2 "b" ["My Board"] ]} ∅ [])
        = Ret () s'.
Proof.
  apply (proj2 (starItems_flips_each_once Number_digits ["2"; "2"]
    (mkState {[ 2 := new_Note "Mon" 2 "b" ["My Board"] ]} ∅ []))).
  - discriminate.
  - intros id Hid.
    assert (id = "2") as ->.
    { repeat (apply elem_of_cons in Hid as [->|Hid]; [done|]).
      by apply elem_of_nil in Hid. }
    split; [exists 2; split; [reflexivity|]|]; eexists; reflexivity.
Defined.

(** ** Moving items to the archive *)

Lemma headroom_mono (n n' : N) (data : gmap N Item) :
  n' ≤ n → headroom n data → headroom n' data.
Proof.
  intros Hle [Hn Hroom]. split; [lia|]. intros k Hk. specialize (Hroom k Hk). lia.
Qed.

Lemma next_id_above (data : gmap N Item) (k : N) :
  headroom 1 data → is_Some (data !! k) → k < next_id data.
Proof.
  intros Hroom Hk%elem_of_Object_keys. rewrite (next_id_exact 1) by done.
  destruct (Object_keys data) as [|x l] eqn:Hkeys; [by apply elem_of_nil in Hk|].
  simpl Nat.eqb. cbv iota. apply Math_max_upper in Hk. lia.
Qed.

Lemma next_id_fresh (data : gmap N Item) :
  headroom 1 data → data !! next_id data = None.
Proof.
  intros Hroom. apply eq_None_not_Some. intros H%next_id_above; [lia|done].
Qed.

Lemma next_id_positive (data : gmap N Item) : 1 ≤ next_id data.
Proof. unfold next_id, js_plus. apply to_double_positive. lia. Qed.

Lemma headroom_insert_next (n : N) (data : gmap N Item) (item : Item) :
  headroom (n + 1) data → headroom n (<[next_id data := item]> data).
Proof.
  intros Hroom. pose proof Hroom as [Hn Hkeys].
  split; [lia|]. intros k Hk.
  destruct (decide (k = next_id data)) as [->|Hne].
  - rewrite (next_id_exact (n + 1)) by (done || lia).
    destruct (Object_keys data) as [|x l] eqn:Hl; simpl Nat.eqb; cbv iota; [lia|].
    assert (Hmax : Math_max (x :: l) ∈ Object_keys data).
    { rewrite Hl. by apply Math_max_elem. }
    apply elem_of_Object_keys, Hkeys in Hmax. lia.
  - rewrite lookup_insert_ne in Hk by done. specialize (Hkeys k Hk). lia.
Qed.

Lemma grows_refl (a : gmap N Item) : grows a a.
Proof. by intros ? ?. Qed.

Lemma grows_trans (a b c : gmap N Item) : grows a b → grows b c → grows a c.
Proof. intros H1 H2 k item ?. by apply H2, H1. Qed.

Lemma grows_insert_next (a : gmap N Item) (item : Item) :
  headroom 1 a → grows a (<[next_id a := item]> a).
Proof.
  intros Hroom k i Hk. rewrite lookup_insert_ne; [done|].
  intros <-. by rewrite next_id_fresh in Hk.
Qed.

Lemma saveItemToArchive_eval (item : Item) (s : State) :
  _saveItemToArchive (Some item) s =
  Ret () (mkState (storage s)
            (<[next_id (archive s) := set_id (next_id (archive s)) item]> (archive s))
            (screen s)).
Proof. reflexivity. Qed.

Lemma delete_item_lookup (data : gmap N Item) (x : string) (kx k : N) :
  key_of_string x = Some kx →
  delete_item x data !! k = if decide (k = kx) then None else data !! k.
Proof.
  intros Hx. unfold delete_item. rewrite Hx. rewrite lookup_delete.
  repeat case_decide; congruence.
Qed.

Lemma item_at_delete_other (data : gmap N Item) (id id' : string) :
  id ≠ id' → item_at (delete_item id data) id' = item_at data id'.
Proof.
  intros Hne. unfold item_at, delete_item.
  destruct (key_of_string id) as [k|] eqn:Hk; [|done].
  destruct (key_of_string id') as [k'|] eqn:Hk'; [|done].
  apply lookup_delete_ne. intros ->.
  apply key_string_of_key in Hk, Hk'. congruence.
Qed.

Lemma delete_loop (l : list string) (d : gmap N Item) (s : State) :
  NoDup l →
  headroom (N.of_nat (length l)) (archive s) →
  match forEach l (λ _data _id,
          _saveItemToArchive (item_at _data _id);;
          ret (delete_item _id _data)) d s with
  | Ret d' s' =>
      storage s' = storage s ∧ screen s' = screen s ∧
      grows (archive s) (archive s') ∧
      size (archive s') = (size (archive s) + length l)%nat ∧
      (∀ k, d' !! k = if bool_decide (key_string k ∈ l) then None else d !! k) ∧
      (∀ k item, key_string k ∈ l → d !! k = Some item →
         ∃ k', archive s !! k' = None ∧ archive s' !! k' = Some (set_id k' item))
  | Exit _ s' | Throw _ s' =>
      storage s' = storage s ∧ screen s' = screen s ∧ grows (archive s) (archive s')
  end.
Proof.
  revert d s. induction l as [|x l IH]; intros d s Hnd Hroom.
  { simpl. split; [done|]. split; [done|]. split; [apply grows_refl|].
    split; [lia|]. split; [done|]. by intros ? ? ?%elem_of_nil. }
  apply NoDup_cons in Hnd as [Hx Hnd].
  assert (Hroom1 : headroom 1 (archive s)).
  { apply (headroom_mono (N.of_nat (length (x :: l)))); [simpl; lia|done]. }
  simpl forEach. unfold bind at 1. unfold bind at 1.
  destruct (item_at d x) as [item|] eqn:Hit.
  2: { simpl. split; [done|]. split; [done|]. apply grows_refl. }
  rewrite saveItemToArchive_eval. unfold ret at 1.
  pose proof Hit as (kx & Hkx & Hd)%item_at_key.
  pose proof (key_string_of_key x kx Hkx) as Hsp.
  set (s1 := mkState (storage s)
               (<[next_id (archive s) := set_id (next_id (archive s)) item]> (archive s))
               (screen s)).
  assert (Hg1 : grows (archive s) (archive s1)) by (by apply grows_insert_next).
  specialize (IH (delete_item x d) s1 Hnd).
  assert (Hroom' : headroom (N.of_nat (length l)) (archive s1)).
  { apply headroom_insert_next.
    by replace (N.of_nat (length l) + 1) with (N.of_nat (length (x :: l)))
      by (simpl; lia). }
  specialize (IH Hroom').
  destruct (forEach l _ _ s1) as [d' s'|c s'|e s'].
  - destruct IH as (Hst & Hsc & Hg & Hsz & Hl & Hin).
    split; [done|]. split; [done|]. split; [by eapply grows_trans|].
    split; [|split].
    + rewrite Hsz. simpl. rewrite map_size_insert_None by (by apply next_id_fresh). lia.
    + intros k. rewrite Hl, (delete_item_lookup d x kx k Hkx).
      destruct (decide (k = kx)) as [->|Hk].
      * rewrite Hsp. rewrite (bool_decide_eq_true_2 (x ∈ x :: l)) by left.
        by destruct (bool_decide _).
      * rewrite (bool_decide_ext (key_string k ∈ x :: l) (key_string k ∈ l)); [done|].
        rewrite elem_of_cons. split; [|tauto]. intros [He|?]; [|done].
        exfalso. apply Hk, key_string_inj. congruence.
    + intros k i [He|Hk]%elem_of_cons Hki.
      * assert (k = kx) as -> by (apply key_string_inj; congruence).
        assert (i = item) as -> by congruence.
        exists (next_id (archive s)). split; [by apply next_id_fresh|].
        apply Hg. simpl. apply lookup_insert_eq.
      * destruct (Hin k i Hk) as (k' & Hnone & Hsome).
        { rewrite (delete_item_lookup d x kx k Hkx).
          rewrite decide_False; [done|]. intros ->. congruence. }
        exists k'. split; [|done].
        destruct (archive s !! k') eqn:Hold; [|done].
        apply Hg1 in Hold. congruence.
  - destruct IH as (Hst & Hsc & Hg). split; [done|]. split; [done|].
    by eapply grows_trans.
  - destruct IH as (Hst & Hsc & Hg). split; [done|]. split; [done|].
    by eapply grows_trans.
Qed.

Lemma delete_loop_total (l : list string) (d : gmap N Item) (s : State) :
  NoDup l →
  (∀ id, id ∈ l → is_Some (item_at d id)) →
  ∃ d' s', forEach l (λ _data _id,
             _saveItemToArchive (item_at _data _id);;
             ret (delete_item _id _data)) d s = Ret d' s'.
Proof.
  revert d s. induction l as [|x l IH]; intros d s Hnd Hall.
  { by eexists _, _. }
  apply NoDup_cons in Hnd as [Hx Hnd].
  destruct (Hall x) as [item Hit]; [left|].
  simpl forEach. unfold bind at 1. unfold bind at 1. rewrite Hit.
  rewrite saveItemToArchive_eval. unfold ret at 1.
  apply IH; [done|]. intros id Hid.
  rewrite item_at_delete_other by (by intros ->). apply Hall. by right.
Qed.

Section Delete.

Variable Number : string → option N.

Lemma deleteItems_outcome (ids : list string) (s : State) :
  headroom (N.of_nat (length (Set_spread ids))) (archive s) →
  match deleteItems Number ids s with
  | Ret _ s' =>
      (∀ k, storage s' !! k
            = if bool_decide (key_string k ∈ ids) then None else storage s !! k) ∧
      grows (archive s) (archive s') ∧
      size (archive s') = (size (archive s) + length (Set_spread ids))%nat ∧
      (∀ k item, key_string k ∈ ids → storage s !! k = Some item →
         ∃ k', archive s !! k' = None ∧ archive s' !! k' = Some (set_id k' item)) ∧
      screen s' = screen s ++ [successDelete (Set_spread ids)]
  | Exit _ s' | Throw _ s' =>
      storage s' = storage s ∧ grows (archive s) (archive s')
  end.
Proof.
  intros Hroom. unfold deleteItems. unfold bind at 1.
  destruct (validateIDs_cases Number (AArr ids) None s) as [(s' & -> & Hs & Ha)|Hv].
  { split; [done|]. rewrite Ha. apply grows_refl. }
  rewrite Hv. unfold bind at 1. change (_data s) with (Ret (storage s) s).
  cbv iota beta. unfold bind at 1. unfold _removeDuplicates, _arrayify.
  pose proof (delete_loop (Set_spread ids) (storage s) s
                (Set_spread_from_NoDup [] ids) Hroom) as Hloop.
  destruct (forEach (Set_spread ids) _ _ s) as [d' s'|c s'|e s'].
  - destruct Hloop as (Hst & Hsc & Hg & Hsz & Hl & Hin). simpl.
    split; [|split; [done|split; [done|split; [|by rewrite Hsc]]]].
    + intros k. rewrite Hl.
      by rewrite (bool_decide_ext _ (key_string k ∈ ids)) by apply Set_spread_elem.
    + intros k item Hk. apply Hin. by apply Set_spread_elem.
  - by destruct Hloop as (? & _ & ?).
  - by destruct Hloop as (? & _ & ?).
Qed.

Lemma deleteItems_runs (ids : list string) (s : State) :
  ids ≠ [] →
  (∀ id, id ∈ ids → present_in Number (storage s) id ∧ is_Some (item_at (storage s) id)) →
  ∃ s', deleteItems Number ids s = Ret () s'.
Proof.
  intros Hne Hall. unfold deleteItems. unfold bind at 1.
  rewrite validateIDs_default, (validateIDs_accepts Number ids (storage s) s);
    [|done|intros; by apply Hall].
  unfold bind at 1. change (_data s) with (Ret (storage s) s).
  cbv iota beta. unfold bind at 1.
  destruct (delete_loop_total (Set_spread ids) (storage s) s) as (d' & s' & ->).
  - apply Set_spread_from_NoDup.
  - intros id Hid. apply (proj1 (Set_spread_elem _ _)) in Hid.
    by destruct (Hall id Hid).
  - by eexists.
Qed.

Lemma clear_ids (data : gmap N Item) (l : list N) (acc : list string) :
  foldl (λ ids id,
    match data !! id with
    | Some item => if isComplete item then ids ++ [key_string id] else ids
    | None => ids
    end) acc l
  = acc ++ (key_string <$> filter (λ k, complete_at data k = true) l).
Proof.
  revert acc. induction l as [|k l IH]; intros acc; simpl.
  - by rewrite app_nil_r.
  - rewrite IH, filter_cons.
    destruct (data !! k) as [item|] eqn:Hk; [destruct (isComplete item) eqn:Hc|].
    + rewrite decide_True by (unfold complete_at; by rewrite Hk).
      simpl. by rewrite <- app_assoc.
    + rewrite decide_False; [done|]. unfold complete_at. by rewrite Hk, Hc.
    + rewrite decide_False; [done|]. unfold complete_at. by rewrite Hk.
Qed.

Lemma clear_outcome (s : State) :
  clear Number s =
  match key_string <$> filter (λ k, complete_at (storage s) k = true)
                              (Object_keys (storage s)) with
  | [] => Ret () s
  | ids => deleteItems Number ids s
  end.
Proof.
  unfold clear. unfold bind at 1. change (_data s) with (Ret (storage s) s).
  cbv iota beta. rewrite clear_ids. simpl ([] ++ _).
  by destruct (key_string <$> _).
Qed.

End Delete.



(** [deleteItems] moves items and loses none, as long as the archive's
    ids stay exact: the archive leaves room for one more id per distinct
    id given.  Then, when it returns, the storage has lost exactly the
    items whose key is spelled by one of the ids; every entry the archive
    had is still there under its key; the archive has gained one entry
    per distinct id; and each removed item is in the archive under a key
    that was free, with that key as its [_id] and its other fields as
    they were.  When it ends otherwise the storage is as it was and the
    archive has lost nothing.  It returns whenever the list is not empty
    and every id converts to a key of the storage and spells one. *)
Theorem deleteItems_moves_to_archive (Number : string → option N)
    (ids : list string) (s : State) :
  (headroom (N.of_nat (length (Set_spread ids))) (archive s) →
   match deleteItems Number ids s with
   | Ret _ s' =>
       (∀ k, storage s' !! k
             = if bool_decide (key_string k ∈ ids) then None else storage s !! k) ∧
       grows (archive s) (archive s') ∧
       size (archive s') = (size (archive s) + length (Set_spread ids))%nat ∧
       (∀ k item, key_string k ∈ ids → storage s !! k = Some item →
          ∃ k', archive s !! k' = None ∧ archive s' !! k' = Some (set_id k' item)) ∧
       screen s' = screen s ++ [successDelete (Set_spread ids)]
   | Exit _ s' | Throw _ s' =>
       storage s' = storage s ∧ grows (archive s) (archive s')
   end) ∧
  (ids ≠ [] →
   (∀ id, id ∈ ids →
      present_in Number (storage s) id ∧ is_Some (item_at (storage s) id)) →
   ∃ s', deleteItems Number ids s = Ret () s').
Proof.
  split; [apply deleteItems_outcome | apply deleteItems_runs].
Qed.

Lemma deleteItems_moves_to_archive_witness :
  ∃ s', deleteItems Number_digits ["2"; "2"]
          (mkState {[ 2 := new_Note "Mon" 2 "b" ["My Board"] ]}
                   {[ 1 := new_Note "Sun" 1 "c" ["My Board"] ]} [])
        = Ret () s' ∧
        storage s' !! 2 = None ∧
        archive s' !! 1 = Some (new_Note "Sun" 1 "c" ["My Board"]) ∧
        size (archive s') = 2%nat.
Proof.
  destruct (proj2 (deleteItems_moves_to_archive Number_digits ["2"; "2"]
    (mkState {[ 2 := new_Note "Mon" 2 "b" ["My Board"] ]}
             {[ 1 := new_Note "Sun" 1 "c" ["My Board"] ]} []))) as (s' & Hrun).
  - discriminate.
  - intros id Hid.
    assert (id = "2") as ->.
    { repeat (apply elem_of_cons in Hid as [->|Hid]; [done|]).
      by apply elem_of_nil in Hid. }
    split; [exists 2; split; [reflexivity|]|]; eexists; reflexivity.
  - pose proof (proj1 (deleteItems_moves_to_archive Number_digits ["2"; "2"]
      (mkState {[ 2 := new_Note "Mon" 2 "b" ["My Board"] ]}
               {[ 1 := new_Note "Sun" 1 "c" ["My Board"] ]} []))) as Hout.
    rewrite Hrun in Hout. destruct Hout as (Hl & Hg & Hsz & _).
    { split; [by vm_compute|].
      intros k [item Hk]. simpl in Hk.
      apply lookup_singleton_Some in Hk as [<- _]. by vm_compute. }
    exists s'. split; [exact Hrun|]. split; [|split].
    + rewrite (Hl 2). reflexivity.
    + apply Hg. reflexivity.
    + rewrite Hsz. reflexivity.
Defined.




(** ** Properties of the items that every command keeps *)

Section ItemInvariant.

Variable Number : string → option N.

(** A property of an item under its key that survives the updates the
    commands make and holds of the items they create. *)
Variable P : N → Item → Prop.
Hypothesis P_checked : ∀ k i, P k i → P k (checked_item i).
Hypothesis P_starred : ∀ k i, P k i → P k (starred_item i).
Hypothesis P_boards : ∀ k i bs, P k i → bs ≠ [] → P k (set_boards bs i).
Hypothesis P_priority : ∀ k i level, P k i → P k (set_priority (PStr level) i).
Hypothesis P_moved : ∀ k k' i, P k i → 1 ≤ k' → P k' (set_id k' i).
Hypothesis P_task : ∀ today id desc bs p,
  1 ≤ id → bs ≠ [] → P id (new_Task today id desc bs p).
Hypothesis P_note : ∀ today id desc bs,
  1 ≤ id → bs ≠ [] → P id (new_Note today id desc bs).

Local Notation "'all_P' d" := (∀ k item, d !! k = Some item → P k item)
  (at level 10, d at level 9, only parsing).
Local Notation "'holds' m s" := (ends (m s) (λ _ s', all_items P s') (all_items P))
  (at level 10, m at level 9, s at level 9, only parsing).

Lemma all_P_insert (d : gmap N Item) (k : N) (item : Item) :
  all_P d → P k item → all_P (<[k := item]> d).
Proof.
  intros Hd Hi k' item'. rewrite lookup_insert. case_decide as Hk.
  - intros [= <-]. by rewrite <- Hk.
  - apply Hd.
Qed.

Lemma all_P_update (d : gmap N Item) (id : string) (item : Item) (f : Item → Item) :
  all_P d → item_at d id = Some item → (∀ k, P k item → P k (f item)) →
  all_P (put_item id (f item) d).
Proof.
  intros Hd (k & Hk & Hit)%item_at_key Hf. unfold put_item. rewrite Hk.
  apply all_P_insert; [done|]. by apply Hf, (Hd k).
Qed.

Lemma all_P_delete_item (d : gmap N Item) (id : string) :
  all_P d → all_P (delete_item id d).
Proof.
  intros Hd. unfold delete_item. destruct (key_of_string id) as [k|]; [|done].
  intros k' item. rewrite lookup_delete. case_decide; [done|]. apply Hd.
Qed.

Lemma all_items_same_files (s s' : State) :
  same_files s s' → all_items P s → all_items P s'.
Proof. unfold all_items. by intros [-> ->]. Qed.

Lemma holds_validated {A} (arg : idarg) (ex : option (list N)) (k : list string → M State A)
    (s : State) :
  all_items P s →
  (∀ ids, holds (k ids) s) →
  holds (bind (_validateIDs Number arg ex) k) s.
Proof.
  intros Hs Hk. apply ends_bind, ends_validateIDs; [|apply Hk].
  intros s' ?. by eapply all_items_same_files.
Qed.

Lemma holds_toggle (app : Item → bool) (upd : Item → Item) (side : Item → bool)
    (ids : list string) (s : State) :
  (∀ k i, P k i → P k (upd i)) →
  all_items P s →
  ends (forEach ids (toggle_round app upd side) (storage s, [], []) s)
       (λ acc s', all_P (acc.1.1) ∧ s' = s) (all_items P).
Proof.
  intros Hupd Hs.
  apply (ends_forEach (λ acc s', all_P (acc.1.1) ∧ s' = s) (all_items P)).
  { split; [apply Hs|done]. }
  intros [[d c] u] id s' _ [Hd ->]. simpl in *.
  destruct (item_at d id) as [item|] eqn:Hit; simpl; [|done].
  assert (all_P (put_item id (upd item) d)).
  { apply (all_P_update _ _ item upd); [done|exact Hit|]. intros k. apply Hupd. }
  destruct (app item); [destruct (side (upd item))|]; simpl; done.
Qed.

Lemma holds_checkTasks (ids : list string) (s : State) :
  all_items P s → holds (checkTasks Number ids) s.
Proof.
  intros Hs. rewrite checkTasks_as_toggle.
  apply holds_validated; [done|]. intros ids'.
  apply ends_bind. simpl. apply ends_bind.
  eapply ends_mono; [| |by apply holds_toggle]; [|done].
  intros [[d c] u] s' [Hd ->]. simpl in *. split; [done|apply Hs].
Qed.

Lemma holds_starItems (ids : list string) (s : State) :
  all_items P s → holds (starItems Number ids) s.
Proof.
  intros Hs. rewrite starItems_as_toggle.
  apply holds_validated; [done|]. intros ids'.
  apply ends_bind. simpl. apply ends_bind.
  eapply ends_mono; [| |by apply holds_toggle]; [|done].
  intros [[d c] u] s' [Hd ->]. simpl in *. split; [done|apply Hs].
Qed.

Lemma holds_deleteItems (ids : list string) (s : State) :
  all_items P s → holds (deleteItems Number ids) s.
Proof.
  intros Hs. unfold deleteItems. apply holds_validated; [done|]. intros ids'.
  apply ends_bind. simpl. apply ends_bind.
  eapply ends_mono; [| |apply (ends_forEach
    (λ acc s', all_P acc ∧ all_items P s') (all_items P))].
  - intros d s' [Hd [_ Ha]]. simpl. by split.
  - done.
  - split; [apply Hs|done].
  - intros d id s' _ [Hd Hs']. apply ends_bind.
    destruct (item_at d id) as [item|] eqn:Hit; [|done].
    rewrite saveItemToArchive_eval. simpl.
    split; [by apply all_P_delete_item|].
    destruct Hs' as [Hst Har]. split; [done|]. simpl.
    apply item_at_key in Hit as (k & _ & Hk).
    apply all_P_insert; [done|].
    apply (P_moved k); [by apply Hd|apply next_id_positive].
Qed.

Lemma holds_clear (s : State) : all_items P s → holds (clear Number) s.
Proof.
  intros Hs. rewrite clear_outcome.
  destruct (key_string <$> _); [done|]. by apply holds_deleteItems.
Qed.

Lemma holds_created (input : list string) (s : State)
    (make : list string → string → N → jsprio → Item) :
  (∀ bs desc id p, 1 ≤ id → bs ≠ [] → P id (make bs desc id p)) →
  all_items P s →
  holds (let* (boards, description, id, priority) := _getOptions input in
         let item := make boards description id priority in
         let* _data := _data in
         let _data := <[id := item]> _data in
         _save _data;;
         render (successCreate item)) s.
Proof.
  intros Hmake Hs. destruct input as [|x l]; [done|].
  unfold bind at 1. rewrite getOptions_eval by done. simpl.
  destruct Hs as [Hst Har]. split; [|done]. simpl.
  apply all_P_insert; [done|]. apply Hmake; [apply next_id_positive|].
  destruct (Nat.eqb _ 0) eqn:Hb; [done|].
  intros Hnil. by rewrite Hnil in Hb.
Qed.

Lemma holds_createTask (today : string) (input : list string) (s : State) :
  all_items P s → holds (createTask today input) s.
Proof.
  intros Hs.
  apply (holds_created input s (λ bs desc id p, new_Task today id desc bs p));
    [|done].
  intros. by apply P_task.
Qed.

Lemma holds_createNote (today : string) (input : list string) (s : State) :
  all_items P s → holds (createNote today input) s.
Proof.
  intros Hs.
  apply (holds_created input s (λ bs desc id p, new_Note today id desc bs));
    [|done].
  intros. by apply P_note.
Qed.

Lemma holds_moveBoards (input : list string) (s : State) :
  all_items P s → holds (moveBoards Number input) s.
Proof.
  intros Hs. unfold moveBoards.
  destruct (filter _ input) as [|target [|? ?]]; [done| |done].
  apply holds_validated; [done|]. intros id.
  apply ends_bind. destruct (Nat.eqb _ 0) eqn:Hb; simpl; [done|].
  apply ends_bind. simpl.
  destruct (item_at (storage s) _) as [item|] eqn:Hit; simpl; [|done].
  destruct Hs as [Hst Har]. split; [|done]. simpl.
  apply (all_P_update _ _ item (set_boards _)); [done|exact Hit|].
  intros k Hk. apply P_boards; [done|].
  intros Hnil%Set_spread_nil. by rewrite Hnil in Hb.
Qed.

Lemma holds_updatePriority (input : list string) (s : State) :
  all_items P s → holds (updatePriority Number input) s.
Proof.
  intros Hs. unfold updatePriority.
  destruct (find_first _ input) as [level|]; [|done].
  destruct (filter _ input) as [|target [|? ?]]; [done| |done].
  apply holds_validated; [done|]. intros id.
  apply ends_bind. simpl.
  destruct (item_at (storage s) _) as [item|] eqn:Hit; simpl; [|done].
  destruct Hs as [Hst Har]. split; [|done]. simpl.
  apply (all_P_update _ _ item (set_priority _)); [done|exact Hit|].
  intros k Hk. by apply P_priority.
Qed.

Lemma holds_same_files (m : M State unit) (s : State) :
  (∃ s', same_files s s' ∧ final (m s) = s') →
  all_items P s → all_items P (final (m s)).
Proof. intros (s' & ? & ->) ?. by eapply all_items_same_files. Qed.

End ItemInvariant.

Lemma editDescription_writes_nothing (Number : string → option N)
    (input : list string) (s : State) :
  ∃ s', same_files s s' ∧
        (editDescription Number input s = Exit 1 s' ∨
         editDescription Number input s
           = Throw (TypeError "_data[id] is undefined") s').
Proof.
  unfold editDescription.
  destruct (filter _ input) as [|target [|? ?]].
  - eexists. split; [|left; reflexivity]. by split.
  - unfold detached. unfold bind at 1.
    destruct (Nat.eqb _ 0); simpl.
    + eexists. split; [|left; reflexivity]. by split.
    + destruct (validateIDs_cases Number (AStr (replace_at target)) None s)
        as [(s' & -> & ?)| ->].
      * exists s'. split; [done|]. by left.
      * exists s. split; [by split|]. by right.
  - eexists. split; [|left; reflexivity]. by split.
Qed.

Section ItemInvariantRun.

Variable Number : string → option N.
Variable P : N → Item → Prop.
Hypothesis P_checked : ∀ k i, P k i → P k (checked_item i).
Hypothesis P_starred : ∀ k i, P k i → P k (starred_item i).
Hypothesis P_boards : ∀ k i bs, P k i → bs ≠ [] → P k (set_boards bs i).
Hypothesis P_priority : ∀ k i level, P k i → P k (set_priority (PStr level) i).
Hypothesis P_moved : ∀ k k' i, P k i → 1 ≤ k' → P k' (set_id k' i).
Hypothesis P_task : ∀ today id desc bs p,
  1 ≤ id → bs ≠ [] → P id (new_Task today id desc bs p).
Hypothesis P_note : ∀ today id desc bs,
  1 ≤ id → bs ≠ [] → P id (new_Note today id desc bs).

Lemma run_keeps_items (c : command) (s : State) :
  all_items P s → all_items P (final (run Number c s)).
Proof.
  intros Hs. destruct c; simpl.
  - by apply ends_final, holds_createTask.
  - by apply ends_final, holds_createNote.
  - by apply ends_final, holds_checkTasks.
  - destruct (beginTasks_writes_nothing Number ids s) as (s' & ? & [-> | ->]);
      by eapply all_items_same_files.
  - by apply ends_final, holds_starItems.
  - by apply ends_final, holds_moveBoards.
  - destruct (editDescription_writes_nothing Number input s) as (s' & ? & [-> | ->]);
      by eapply all_items_same_files.
  - by apply ends_final, holds_updatePriority.
  - by apply ends_final, holds_deleteItems.
  - destruct (restoreItems_writes_nothing Number ids s) as (s' & ? & [-> | ->]);
      by eapply all_items_same_files.
  - by apply ends_final, holds_clear.
Qed.

Lemma reachable_keeps_items (s0 s : State) :
  all_items P s0 → reachable Number s0 s → all_items P s.
Proof.
  intros Hs0 Hr. induction Hr as [|s c _ IH]; [done|]. by apply run_keeps_items.
Qed.

End ItemInvariantRun.

(** Every stored item has at least one board, and the commands keep it so:
    a created item gets [My Board] when it names no board, [moveBoards]
    refuses an empty board list, and no other command assigns [boards]. *)
Theorem boards_never_empty (Number : string → option N) :
  (∀ c s, all_items (λ _ item, boards item ≠ []) s →
          all_items (λ _ item, boards item ≠ []) (final (run Number c s))) ∧
  (∀ s0 s, all_items (λ _ item, boards item ≠ []) s0 → reachable Number s0 s →
           all_items (λ _ item, boards item ≠ []) s).
Proof.
  split.
  - intros c s. by apply run_keeps_items.
  - intros s0 s. by apply reachable_keeps_items.
Qed.

Lemma boards_never_empty_witness :
  all_items (λ _ item, boards item ≠ [])
    (final (run Number_digits (MoveBoards ["@1"; "home"])
       (mkState {[ 1 := new_Note "Mon" 1 "b" ["My Board"] ]} ∅ []))).
Proof.
  apply (proj1 (boards_never_empty Number_digits)).
  split; intros k item Hk; simpl in Hk.
  - apply lookup_singleton_Some in Hk as [_ <-]. discriminate.
  - rewrite lookup_empty in Hk. discriminate Hk.
Defined.

(** Every item carries its own key as [_id], and no key is 0: an item is
    created under the id the allocator returns, it is archived under the
    archive id that is written into it, and no other command assigns
    [_id] or moves an item to another key. *)
Theorem ids_match_keys (Number : string → option N) :
  (∀ c s, all_items (λ k item, _id item = k ∧ 1 ≤ k) s →
          all_items (λ k item, _id item = k ∧ 1 ≤ k) (final (run Number c s))) ∧
  (∀ s0 s, all_items (λ k item, _id item = k ∧ 1 ≤ k) s0 → reachable Number s0 s →
           all_items (λ k item, _id item = k ∧ 1 ≤ k) s).
Proof.
  split.
  - intros c s. apply run_keeps_items; done.
  - intros s0 s. apply reachable_keeps_items; done.
Qed.

Lemma ids_match_keys_witness :
  all_items (λ k item, _id item = k ∧ 1 ≤ k)
    (final (run Number_digits (DeleteItems ["3"])
       (mkState {[ 3 := new_Note "Mon" 3 "b" ["My Board"] ]} ∅ []))).
Proof.
  apply (proj1 (ids_match_keys Number_digits)).
  split; intros k item Hk; simpl in Hk.
  - apply lookup_singleton_Some in Hk as [<- <-]. split; [reflexivity|lia].
  - rewrite lookup_empty in Hk. discriminate Hk.
Defined.

(** [editDescription] changes nothing: it binds [id] to the promise of a
    validation it does not await, so [_data[id]] is undefined and the
    assignment of the description throws; every call ends in an exit with
    status 1 or in that exception, with both files as they were. *)
Theorem editDescription_never_edits (Number : string → option N)
    (input : list string) (s : State) :
  ∃ s', same_files s s' ∧
        (editDescription Number input s = Exit 1 s' ∨
         editDescription Number input s
           = Throw (TypeError "_data[id] is undefined") s').
Proof. apply editDescription_writes_nothing. Qed.

(** ** Creating never overwrites *)

(** On a non-empty token list [createTask] and [createNote] return, and
    the storage they save is the one they read with one item, a task or a
    note, put under the id the allocator hands out; the archive is not
    touched.  As long as the storage's ids are all below [2^53] that key
    was free and is greater than every key in use, so the item is added
    and none is overwritten. *)
Theorem create_adds_one_item (today : string) (input : list string) (s : State) :
  input ≠ [] →
  (headroom 1 (storage s) →
   storage s !! next_id (storage s) = None ∧
   (∀ k, is_Some (storage s !! k) → k < next_id (storage s))) ∧
  (∃ s' task,
     createTask today input s = Ret () s' ∧ _isTask task = true ∧
     storage s' = <[next_id (storage s) := task]> (storage s) ∧
     archive s' = archive s) ∧
  (∃ s' note,
     createNote today input s = Ret () s' ∧ _isTask note = false ∧
     storage s' = <[next_id (storage s) := note]> (storage s) ∧
     archive s' = archive s).
Proof.
  intros Hne. split.
  { intros Hroom. split; [by apply next_id_fresh|]. intros k. by apply next_id_above. }
  split.
  - unfold createTask. unfold bind at 1. rewrite getOptions_eval by done.
    eexists _, (new_Task today _ _ _ _). split; [reflexivity|]. by repeat split.
  - unfold createNote. unfold bind at 1. rewrite getOptions_eval by done.
    eexists _, (new_Note today _ _ _). split; [reflexivity|]. by repeat split.
Qed.

Lemma create_adds_one_item_witness :
  ({[ 4 := new_Note "Mon" 4 "b" ["My Board"] ]} : gmap N Item)
    !! next_id {[ 4 := new_Note "Mon" 4 "b" ["My Board"] ]} = None ∧
  ∃ s' note,
    createNote "Tue" ["buy"; "milk"]
      (mkState {[ 4 := new_Note "Mon" 4 "b" ["My Board"] ]} ∅ []) = Ret () s' ∧
    _isTask note = false ∧
    storage s' = <[next_id {[ 4 := new_Note "Mon" 4 "b" ["My Board"] ]} := note]>
                   {[ 4 := new_Note "Mon" 4 "b" ["My Board"] ]} ∧
    archive s' = ∅.
Proof.
  split.
  - refine (proj1 (proj1 (create_adds_one_item "Tue" ["buy"; "milk"]
             (mkState {[ 4 := new_Note "Mon" 4 "b" ["My Board"] ]} ∅ []) _) _)).
    + discriminate.
    + split; [by vm_compute|]. intros k [item Hk].
      destruct (proj1 (lookup_singleton_Some (M := gmap N) 4 k _ item) Hk) as [<- _].
      by vm_compute.
  - refine (proj2 (proj2 (create_adds_one_item "Tue" ["buy"; "milk"]
             (mkState {[ 4 := new_Note "Mon" 4 "b" ["My Board"] ]} ∅ []) _))).
    discriminate.
Defined.

(** ** The single-target commands on a valid target *)

Section SingleTarget.

Variable Number : string → option N.

Lemma key_of_string_nonempty (id : string) (k : N) :
  key_of_string id = Some k → id ≠ EmptyString.
Proof. by intros H ->. Qed.

Lemma validate_target (t : string) (k : N) (s : State) :
  present_in Number (storage s) t →
  key_of_string t = Some k →
  _validateIDs Number (AStr t) None s = Ret [t] s.
Proof.
  intros Hp Hk. rewrite validateIDs_default, validateIDs_eval.
  destruct t as [|c t']; [by apply key_of_string_nonempty in Hk|].
  simpl. apply has_number_keys in Hp.
  unfold first_invalid. simpl. by rewrite Hp.
Qed.

Lemma moveBoards_eval (input : list string) (target : string) (k : N) (item : Item)
    (s : State) :
  filter (λ x, startsWith_at x = true) input = [target] →
  present_in Number (storage s) (replace_at target) →
  key_of_string (replace_at target) = Some k →
  storage s !! k = Some item →
  moveBoards Number input s =
  if Nat.eqb (length (filter (λ x, x ≠ target) input)) 0
  then Exit 1 (mkState (storage s) (archive s) (screen s ++ [missingBoards]))
  else Ret () (mkState
         (<[k := set_boards (moved_boards target input) item]> (storage s))
         (archive s)
         (screen s ++ [successMove [replace_at target] (moved_boards target input)])).
Proof.
  intros Ht Hp Hk Hit. unfold moveBoards. rewrite Ht.
  unfold bind at 1. rewrite (validate_target _ k) by done.
  unfold bind at 1. rewrite length_fmap.
  destruct (Nat.eqb _ 0); [reflexivity|].
  unfold ret at 1. unfold bind at 1.
  change (_data s) with (Ret (storage s) s). cbv iota beta.
  change (array_key [replace_at target]) with (replace_at target).
  unfold item_at, put_item. rewrite Hk, Hit. reflexivity.
Qed.

Lemma updatePriority_eval (input : list string) (level target : string) (k : N)
    (item : Item) (s : State) :
  find_first (λ x, bool_decide (x ∈ ["1"; "2"; "3"])) input = Some level →
  filter (λ x, startsWith_at x = true) input = [target] →
  present_in Number (storage s) (replace_at target) →
  key_of_string (replace_at target) = Some k →
  storage s !! k = Some item →
  updatePriority Number input s =
  Ret () (mkState
    (<[k := set_priority (PStr level) item]> (storage s))
    (archive s)
    (screen s ++ [successPriority [replace_at target] level])).
Proof.
  intros Hl Ht Hp Hk Hit. unfold updatePriority. rewrite Hl, Ht.
  unfold bind at 1. rewrite (validate_target _ k) by done.
  unfold bind at 1.
  change (_data s) with (Ret (storage s) s). cbv iota beta.
  change (array_key [replace_at target]) with (replace_at target).
  unfold item_at, put_item. rewrite Hk, Hit. reflexivity.
Qed.

End SingleTarget.

(** [moveBoards] with one [@id] token that names an item.  Without any
    other token it ends with the missing-boards error and writes nothing.
    Otherwise it returns, and the storage it saves differs from the one it
    read in that item's [boards] only: the other tokens, each prefixed
    with ['@'] ([myboard] standing for [My Board]), without repetitions. *)
Theorem moveBoards_replaces_boards (Number : string → option N)
    (input : list string) (target : string) (k : N) (item : Item) (s : State) :
  filter (λ x, startsWith_at x = true) input = [target] →
  present_in Number (storage s) (replace_at target) →
  key_of_string (replace_at target) = Some k →
  storage s !! k = Some item →
  (filter (λ x, x ≠ target) input = [] →
   moveBoards Number input s
   = Exit 1 (mkState (storage s) (archive s) (screen s ++ [missingBoards]))) ∧
  (filter (λ x, x ≠ target) input ≠ [] →
   moveBoards Number input s
   = Ret () (mkState
       (<[k := set_boards (moved_boards target input) item]> (storage s))
       (archive s)
       (screen s ++ [successMove [replace_at target] (moved_boards target input)])) ∧
   NoDup (moved_boards target input) ∧
   moved_boards target input ≠ [] ∧
   (∀ b, b ∈ moved_boards target input → b = "My Board" ∨ startsWith_at b = true)).
Proof.
  intros Ht Hp Hk Hit.
  rewrite (moveBoards_eval Number input target k item s) by done.
  split.
  - by intros ->.
  - intros Hne. destruct (filter (λ x, x ≠ target) input) as [|y l] eqn:Hf; [done|].
    split; [done|]. unfold moved_boards. rewrite Hf.
    split; [apply Set_spread_from_NoDup|]. split.
    + intros Hnil%Set_spread_nil. discriminate Hnil.
    + intros b Hb. apply (proj1 (Set_spread_elem _ _)) in Hb.
      apply list_elem_of_fmap in Hb as (x & -> & _).
      destruct (String.eqb x "myboard"); [by left|right].
      unfold startsWith_at. simpl. by destruct (EmptyString +:+ x).
Qed.

Lemma moveBoards_replaces_boards_witness :
  moveBoards Number_digits ["@1"; "home"; "myboard"; "home"]
    (mkState {[ 1 := new_Note "Mon" 1 "b" ["@old"] ]} ∅ [])
  = Ret () (mkState {[ 1 := new_Note "Mon" 1 "b" ["@home"; "My Board"] ]} ∅
              [successMove ["1"] ["@home"; "My Board"]]).
Proof.
  refine (proj1 (proj2 (moveBoards_replaces_boards Number_digits
    ["@1"; "home"; "myboard"; "home"] "@1" 1 (new_Note "Mon" 1 "b" ["@old"])
    (mkState {[ 1 := new_Note "Mon" 1 "b" ["@old"] ]} ∅ []) _ _ _ _) _)).
  - reflexivity.
  - exists 1. split; [reflexivity|]. eexists. reflexivity.
  - reflexivity.
  - reflexivity.
  - discriminate.
Defined.

(** [updatePriority] looks for a level before it looks for a target:
    without a token among [1], [2], [3] it ends with the invalid-priority
    error.  With a level and one [@id] token that names an item it
    returns, and the storage it saves differs from the one it read in that
    item's [priority] only, which is now the level token itself, a string;
    the item may be a note. *)
Theorem updatePriority_stores_level (Number : string → option N)
    (input : list string) (s : State) :
  (find_first (λ x, bool_decide (x ∈ ["1"; "2"; "3"])) input = None →
   updatePriority Number input s
   = Exit 1 (mkState (storage s) (archive s) (screen s ++ [invalidPriority]))) ∧
  (∀ level target k item,
     find_first (λ x, bool_decide (x ∈ ["1"; "2"; "3"])) input = Some level →
     filter (λ x, startsWith_at x = true) input = [target] →
     present_in Number (storage s) (replace_at target) →
     key_of_string (replace_at target) = Some k →
     storage s !! k = Some item →
     updatePriority Number input s
     = Ret () (mkState
         (<[k := set_priority (PStr level) item]> (storage s))
         (archive s)
         (screen s ++ [successPriority [replace_at target] level]))).
Proof.
  split.
  - intros Hl. unfold updatePriority. by rewrite Hl.
  - intros. by apply updatePriority_eval.
Qed.

Lemma updatePriority_stores_level_witness :
  updatePriority Number_digits ["@1"]
    (mkState {[ 1 := new_Note "Mon" 1 "b" ["My Board"] ]} ∅ [])
  = Exit 1 (mkState {[ 1 := new_Note "Mon" 1 "b" ["My Board"] ]} ∅ [invalidPriority]) ∧
  updatePriority Number_digits ["@1"; "3"]
    (mkState {[ 1 := new_Note "Mon" 1 "b" ["My Board"] ]} ∅ [])
  = Ret () (mkState
      {[ 1 := set_priority (PStr "3") (new_Note "Mon" 1 "b" ["My Board"]) ]} ∅
      [successPriority ["1"] "3"]).
Proof.
  split.
  - refine (proj1 (updatePriority_stores_level Number_digits ["@1"]
      (mkState {[ 1 := new_Note "Mon" 1 "b" ["My Board"] ]} ∅ [])) _).
    reflexivity.
  - refine (proj2 (updatePriority_stores_level Number_digits ["@1"; "3"]
      (mkState {[ 1 := new_Note "Mon" 1 "b" ["My Board"] ]} ∅ []))
      "3" "@1" 1 (new_Note "Mon" 1 "b" ["My Board"]) _ _ _ _ _).
    + reflexivity.
    + reflexivity.
    + exists 1. split; [reflexivity|]. eexists. reflexivity.
    + reflexivity.
    + reflexivity.
Defined.

(** ** Statistics *)

Lemma count_of_cons (p : Item → bool) (item : Item) (l : list Item) :
  count_of p (item :: l) = (if p item then 1 else 0) + count_of p l.
Proof.
  unfold count_of. rewrite filter_cons.
  destruct (p item); [rewrite decide_True by done|rewrite decide_False by done];
    simpl; lia.
Qed.

Lemma count_of_partition (l : list Item) :
  count_of is_complete_task l + count_of is_progress_task l +
  count_of is_pending_task l + count_of is_note l = N.of_nat (length l).
Proof.
  induction l as [|item l IH]; [done|].
  rewrite !count_of_cons. simpl length. rewrite Nat2N.inj_succ.
  unfold is_complete_task, is_progress_task, is_pending_task, is_note in *.
  destruct (_isTask item), (isComplete item), (inProgress item);
    cbn [andb negb]; lia.
Qed.

Lemma length_items_of (data : gmap N Item) :
  length (items_of data) = size data.
Proof.
  unfold items_of.
  assert (H : ∀ l, (∀ k, k ∈ l → is_Some (data !! k)) →
              length (omap (λ k, data !! k) l) = length l).
  { induction l as [|k l IH]; intros Hl; [done|]. simpl.
    destruct (Hl k) as [item ->]; [left|]. simpl. f_equal.
    apply IH. intros ? ?. apply Hl. by right. }
  rewrite H by (intros k; apply elem_of_Object_keys).
  unfold Object_keys. rewrite merge_sort_Permutation.
  by rewrite <- size_dom.
Qed.

Lemma getStats_loop (data : gmap N Item) (l : list N) (c p q n : N) (s : State) :
  forEach l (λ '(complete, progress, pending, notes) id,
      match data !! id with
      | None => throw (TypeError "_data[id] is undefined")
      | Some item =>
          if _isTask item then
            if isComplete item then ret (complete + 1, progress, pending, notes)
            else if inProgress item then ret (complete, progress + 1, pending, notes)
            else ret (complete, progress, pending + 1, notes)
          else ret (complete, progress, pending, notes + 1)
      end) (c, p, q, n) s =
  if forallb (λ k, bool_decide (is_Some (data !! k))) l
  then Ret (c + count_of is_complete_task (omap (λ k, data !! k) l),
            p + count_of is_progress_task (omap (λ k, data !! k) l),
            q + count_of is_pending_task (omap (λ k, data !! k) l),
            n + count_of is_note (omap (λ k, data !! k) l)) s
  else Throw (TypeError "_data[id] is undefined") s.
Proof.
  revert c p q n. induction l as [|k l IH]; intros c p q n.
  { simpl. unfold ret, count_of. simpl. by rewrite !N.add_0_r. }
  simpl forEach. unfold bind. simpl forallb. simpl omap.
  destruct (data !! k) as [item|] eqn:Hk.
  2: { by rewrite bool_decide_eq_false_2 by (by intros [? ?]). }
  rewrite bool_decide_eq_true_2 by (by eexists). simpl andb.
  rewrite !count_of_cons.
  change (is_complete_task item) with (_isTask item && isComplete item).
  change (is_progress_task item)
    with (_isTask item && negb (isComplete item) && inProgress item).
  change (is_pending_task item)
    with (_isTask item && negb (isComplete item) && negb (inProgress item)).
  change (is_note item) with (negb (_isTask item)).
  destruct (_isTask item), (isComplete item), (inProgress item);
    cbn [andb negb];
    (change (ret ?a s) with (Ret a s)); cbv iota beta;
    rewrite IH; destruct (forallb _ l); try done;
    by rewrite ?N.add_0_l, ?N.add_assoc.
Qed.

(** [_getStats] reads the storage and changes nothing.  Its four counts
    are those of the complete tasks, of the tasks in progress that are not
    complete, of the other tasks and of the notes, so they add up to the
    number of stored items.  The percentage is the floor of
    [complete * 100 / total], [total] being the number of tasks; it is 0
    without tasks, never above 100, and 100 exactly when there is a task
    and every task is complete. *)
Theorem getStats_counts (s : State) :
  let items := items_of (storage s) in
  let complete := count_of is_complete_task items in
  let progress := count_of is_progress_task items in
  let pending := count_of is_pending_task items in
  let notes := count_of is_note items in
  let total := complete + pending + progress in
  ∃ percent,
    _getStats s = Ret (percent, complete, progress, pending, notes) s ∧
    complete + progress + pending + notes = N.of_nat (size (storage s)) ∧
    (total = 0 → percent = 0) ∧
    (total ≠ 0 → percent * total ≤ complete * 100 < (percent + 1) * total) ∧
    percent ≤ 100 ∧
    (percent = 100 ↔ 0 < complete ∧ progress = 0 ∧ pending = 0).
Proof.
  intros items complete progress pending notes total.
  exists (if N.eqb total 0 then 0 else (complete * 100) / total).
  split; [|split].
  - unfold _getStats. unfold bind at 1.
    change (_data s) with (Ret (storage s) s). cbv iota beta.
    unfold bind at 1. rewrite getStats_loop.
    rewrite (proj2 (forallb_forall _ _)).
    2: { intros k Hk. apply bool_decide_eq_true.
         apply elem_of_Object_keys. by apply list_elem_of_In. }
    rewrite !N.add_0_l. reflexivity.
  - rewrite <- length_items_of. apply count_of_partition.
  - destruct (N.eqb_spec total 0) as [Hz|Hnz].
    + split; [done|]. split; [done|]. split; [lia|]. split; [lia|].
      intros (? & ? & ?). lia.
    + pose proof (N.div_mod (complete * 100) total Hnz) as Hdm.
      pose proof (N.mod_lt (complete * 100) total Hnz) as Hlt.
      assert (Hle : complete ≤ total) by lia.
      generalize dependent ((complete * 100) `div` total).
      generalize dependent ((complete * 100) `mod` total).
      intros r Hr q Hq.
      split; [done|]. split; [intros _; nia|]. split; [nia|].
      split; [intros ->; nia|]. intros (Hc & Hp & Hq'). nia.
Qed.

(** ** Composing attribute filters *)

Lemma tags_hold_same (attr1 attr2 : list string) (item : Item) :
  (∀ x, x ∈ attr1 ↔ x ∈ attr2) → tags_hold attr1 item = tags_hold attr2 item.
Proof.
  intros H. unfold tags_hold. apply eq_true_iff_eq.
  rewrite !forallb_forall. split; intros Ha x Hx%list_elem_of_In;
    apply Ha, list_elem_of_In, H, Hx.
Qed.

Lemma tags_hold_elem (attr : list string) (x : string) (item : Item) :
  x ∈ attr → tags_hold attr item = true → tag_holds x item = true.
Proof.
  intros Hx%list_elem_of_In Ha. unfold tags_hold in Ha.
  rewrite forallb_forall in Ha. by apply Ha.
Qed.

(** Two tags of the list that no item of the object satisfies together
    leave nothing. *)
Lemma filter_clash (attr : list string) (x y : string) (data : N) (m : Mem) :
  x ∈ attr → y ∈ attr →
  (∀ k item, obj m data !! k = Some item →
     tag_holds x item = true → tag_holds y item = true → False) →
  ∃ m', _filterByAttributes attr (Some data) m = Ret data m' ∧ obj m' data = ∅.
Proof.
  intros Hx Hy Hclash.
  destruct (filterByAttributes_spec attr data m) as (m' & Hrun & Ho & _).
  exists m'. split; [done|]. rewrite Ho.
  apply map_empty. intros k. apply map_lookup_filter_None. right.
  intros item Hk Hh. simpl in Hh.
  apply (Hclash k item Hk); by eapply tags_hold_elem.
Qed.

Lemma one_of_cases3 (x a b c : string) :
  one_of x [a; b; c] = true → x = a ∨ x = b ∨ x = c.
Proof.
  unfold one_of. rewrite bool_decide_eq_true, !elem_of_cons.
  intros [?|[?|[?|?%elem_of_nil]]]; tauto.
Qed.

Lemma one_of_cases2 (x a b : string) :
  one_of x [a; b] = true → x = a ∨ x = b.
Proof.
  unfold one_of. rewrite bool_decide_eq_true, !elem_of_cons.
  intros [?|[?|?%elem_of_nil]]; tauto.
Qed.

Lemma tag_holds_done (x : string) (item : Item) :
  one_of x ["done"; "checked"; "complete"] = true →
  tag_holds x item = _isTask item && isComplete item.
Proof. by intros [->|[->| ->]]%one_of_cases3. Qed.

Lemma tag_holds_progress (x : string) (item : Item) :
  one_of x ["progress"; "started"; "begun"] = true →
  tag_holds x item = _isTask item && inProgress item.
Proof. by intros [->|[->| ->]]%one_of_cases3. Qed.

Lemma tag_holds_pending (x : string) (item : Item) :
  one_of x ["pending"; "unchecked"; "incomplete"] = true →
  tag_holds x item = _isTask item && negb (isComplete item).
Proof. by intros [->|[->| ->]]%one_of_cases3. Qed.

Lemma tag_holds_task (x : string) (item : Item) :
  one_of x ["todo"; "task"; "tasks"] = true →
  tag_holds x item = _isTask item.
Proof. by intros [->|[->| ->]]%one_of_cases3. Qed.

Lemma tag_holds_note (x : string) (item : Item) :
  one_of x ["note"; "notes"] = true →
  tag_holds x item = negb (_isTask item).
Proof. by intros [->| ->]%one_of_cases2. Qed.

(** What the attribute filter keeps depends on the set of tags alone:
    their order and their repetitions do not matter, so filtering the
    result again by the same tags changes nothing; and the filter only
    ever removes items. *)
Theorem filter_depends_on_tag_set (attr1 attr2 : list string) (data : N) (m : Mem) :
  (∀ x, x ∈ attr1 ↔ x ∈ attr2) →
  ∃ m1 m2 m3,
    _filterByAttributes attr1 (Some data) m = Ret data m1 ∧
    _filterByAttributes attr2 (Some data) m = Ret data m2 ∧
    obj m1 data = obj m2 data ∧
    _filterByAttributes attr2 (Some data) m1 = Ret data m3 ∧
    obj m3 data = obj m1 data ∧
    obj m1 data ⊆ obj m data.
Proof.
  intros Hsame.
  destruct (filterByAttributes_spec attr1 data m) as (m1 & H1 & Ho1 & _).
  destruct (filterByAttributes_spec attr2 data m) as (m2 & H2 & Ho2 & _).
  destruct (filterByAttributes_spec attr2 data m1) as (m3 & H3 & Ho3 & _).
  exists m1, m2, m3. split; [done|]. split; [done|].
  assert (Hext : filter (λ kv, tags_hold attr1 kv.2 = true) (obj m data)
               = filter (λ kv, tags_hold attr2 kv.2 = true) (obj m data)).
  { apply map_filter_ext. intros k item _. simpl.
    by rewrite (tags_hold_same attr1 attr2). }
  split; [by rewrite Ho1, Ho2|]. split; [done|]. split.
  - rewrite Ho3, Ho1, Hext, map_filter_filter. apply map_filter_ext.
    intros k item _. simpl. tauto.
  - rewrite Ho1. apply map_filter_subseteq.
Qed.

Lemma filter_depends_on_tag_set_witness :
  ∃ m1 m2 m3,
    _filterByAttributes ["task"; "star"] (Some 1)
      (mkMem {[ 1 := {[ 1 := new_Task "Mon" 1 "a" ["My Board"] (PNum 1);
                        2 := new_Note "Mon" 2 "b" ["My Board"] ]} ]} ∅ [])
      = Ret 1 m1 ∧
    _filterByAttributes ["star"; "task"; "star"] (Some 1)
      (mkMem {[ 1 := {[ 1 := new_Task "Mon" 1 "a" ["My Board"] (PNum 1);
                        2 := new_Note "Mon" 2 "b" ["My Board"] ]} ]} ∅ [])
      = Ret 1 m2 ∧
    obj m1 1 = obj m2 1 ∧
    _filterByAttributes ["star"; "task"; "star"] (Some 1) m1 = Ret 1 m3 ∧
    obj m3 1 = obj m1 1 ∧
    obj m1 1 ⊆ obj (mkMem {[ 1 := {[ 1 := new_Task "Mon" 1 "a" ["My Board"] (PNum 1);
                                     2 := new_Note "Mon" 2 "b" ["My Board"] ]} ]} ∅ []) 1.
Proof.
  apply (filter_depends_on_tag_set ["task"; "star"] ["star"; "task"; "star"] 1).
  intros x. rewrite !elem_of_cons. pose proof (not_elem_of_nil x). tauto.
Defined.

(** Tags that exclude each other leave nothing: a note tag together with
    any tag that asks for a task, and a complete tag together with a
    pending tag, on every collection; a complete tag together with an
    in-progress tag on a collection in which no task is both. *)
Theorem clashing_tags_leave_nothing (attr : list string) (x y : string)
    (data : N) (m : Mem) :
  x ∈ attr → y ∈ attr →
  (one_of x ["note"; "notes"] = true ∧
   (one_of y ["todo"; "task"; "tasks"] = true ∨
    one_of y ["done"; "checked"; "complete"] = true ∨
    one_of y ["progress"; "started"; "begun"] = true ∨
    one_of y ["pending"; "unchecked"; "incomplete"] = true)) ∨
  (one_of x ["done"; "checked"; "complete"] = true ∧
   one_of y ["pending"; "unchecked"; "incomplete"] = true) ∨
  (one_of x ["done"; "checked"; "complete"] = true ∧
   one_of y ["progress"; "started"; "begun"] = true ∧
   all_exclusive (obj m data)) →
  ∃ m', _filterByAttributes attr (Some data) m = Ret data m' ∧ obj m' data = ∅.
Proof.
  intros Hx Hy Hcase. apply (filter_clash attr x y); [done..|].
  intros k item Hk Htx Hty.
  destruct Hcase as [[Hn Hy']|[[Hd Hp]|(Hd & Hp & Hex)]].
  - rewrite (tag_holds_note x) in Htx by done.
    destruct Hy' as [H|[H|[H|H]]];
      [rewrite (tag_holds_task y) in Hty by done
      |rewrite (tag_holds_done y) in Hty by done
      |rewrite (tag_holds_progress y) in Hty by done
      |rewrite (tag_holds_pending y) in Hty by done];
      destruct (_isTask item); done.
  - rewrite (tag_holds_done x) in Htx by done.
    rewrite (tag_holds_pending y) in Hty by done.
    destruct (_isTask item), (isComplete item); done.
  - rewrite (tag_holds_done x) in Htx by done.
    rewrite (tag_holds_progress y) in Hty by done.
    apply andb_true_iff in Htx as [Ht Hc]. apply andb_true_iff in Hty as [_ Hi].
    by apply (Hex k item Hk Ht).
Qed.

Lemma clashing_tags_leave_nothing_witness :
  ∃ m', _filterByAttributes ["tasks"; "star"; "note"] (Some 1)
          (mkMem {[ 1 := {[ 1 := new_Task "Mon" 1 "a" ["My Board"] (PNum 1);
                            2 := new_Note "Mon" 2 "b" ["My Board"] ]} ]} ∅ [])
        = Ret 1 m' ∧ obj m' 1 = ∅.
Proof.
  apply (clashing_tags_leave_nothing ["tasks"; "star"; "note"] "note" "tasks" 1).
  - right. right. left.
  - left.
  - left. split; [reflexivity|]. left. reflexivity.
Defined.

(** ** Dates, boards and groupings *)

Lemma elem_of_items_of (data : gmap N Item) (item : Item) :
  item ∈ items_of data ↔ ∃ k, data !! k = Some item.
Proof.
  unfold items_of. rewrite list_elem_of_omap. split.
  - intros (k & _ & Hk). by exists k.
  - intros (k & Hk). exists k. split; [|done].
    apply elem_of_Object_keys. by eexists.
Qed.

(** A loop over the keys of an object whose rounds only read it. *)
Lemma keys_loop {B} (data : N) (m : Mem) (body : B → N → M Mem B)
    (step : B → Item → B) (l : list N) (acc : B) :
  (∀ acc id item, obj m data !! id = Some item →
     body acc id m = Ret (step acc item) m) →
  (∀ id, id ∈ l → is_Some (obj m data !! id)) →
  forEach l body acc m = Ret (foldl step acc (omap (λ k, obj m data !! k) l)) m.
Proof.
  intros Hbody. revert acc. induction l as [|k l IH]; intros acc Hl; [done|].
  destruct (Hl k) as [item Hk]; [left|].
  simpl. unfold bind. rewrite (Hbody acc k item Hk), Hk. simpl.
  apply IH. intros ? ?. apply Hl. by right.
Qed.

Lemma all_keys_loop {B} (data : N) (m : Mem) (body : B → N → M Mem B)
    (step : B → Item → B) (acc : B) :
  (∀ acc id item, obj m data !! id = Some item →
     body acc id m = Ret (step acc item) m) →
  forEach (Object_keys (obj m data)) body acc m
  = Ret (foldl step acc (items_of (obj m data))) m.
Proof.
  intros Hbody. apply keys_loop; [done|]. intros id. apply elem_of_Object_keys.
Qed.

Lemma add_dates_spread (acc seen : list string) (l : list Item) :
  (∀ x, x ∈ seen ↔ x ∈ acc) →
  foldl (λ dates item,
          if bool_decide (_date item ∈ dates) then dates else dates ++ [_date item])
        acc l
  = acc ++ Set_spread_from seen (_date <$> l).
Proof.
  revert acc seen. induction l as [|item l IH]; intros acc seen Hs; simpl.
  - by rewrite app_nil_r.
  - rewrite (bool_decide_ext (_date item ∈ seen) (_date item ∈ acc)) by apply Hs.
    destruct (bool_decide (_date item ∈ acc)).
    + by apply IH.
    + rewrite (IH (acc ++ [_date item]) (_date item :: seen)).
      * by rewrite <- app_assoc.
      * intros x. rewrite elem_of_cons, elem_of_app, list_elem_of_singleton, Hs. tauto.
Qed.

Lemma getDates_eval (data : N) (m : Mem) :
  _getDates (Some data) m
  = Ret (Set_spread (_date <$> items_of (obj m data))) m.
Proof.
  unfold _getDates. unfold bind at 1. unfold ret at 1. unfold bind at 1.
  unfold keys_of.
  rewrite (all_keys_loop data m _
    (λ dates item,
       if bool_decide (_date item ∈ dates) then dates else dates ++ [_date item])).
  - by rewrite (add_dates_spread [] []).
  - intros acc id item Hk. unfold bind, get_prop. rewrite Hk.
    by destruct (bool_decide _).
Qed.


Lemma add_boards_spec (acc : list string) (l : list Item) :
  let bs := foldl (λ bs item, bs ++ filter (λ x, x ∉ bs) (boards item)) acc l in
  (∃ rest, bs = acc ++ rest) ∧
  (∀ b, b ∈ bs ↔ b ∈ acc ∨ ∃ item, item ∈ l ∧ b ∈ boards item) ∧
  (NoDup acc → (∀ item, item ∈ l → NoDup (boards item)) → NoDup bs).
Proof.
  revert acc. induction l as [|item l IH]; intros acc; simpl.
  - split; [exists []; by rewrite app_nil_r|]. split; [|done].
    intros b. split; [tauto|]. intros [?|(? & ?%elem_of_nil & _)]; tauto.
  - destruct (IH (acc ++ filter (λ x, x ∉ acc) (boards item))) as ([rest Hr] & Hm & Hn).
    split; [|split].
    + eexists. rewrite Hr, <- app_assoc. reflexivity.
    + intros b. rewrite Hm, elem_of_app, list_elem_of_filter. split.
      * intros [[?|[_ ?]]|(i & ? & ?)]; [tauto| |].
        -- right. exists item. split; [left|done].
        -- right. exists i. split; [by right|done].
      * intros [?|(i & [->|?]%elem_of_cons & ?)]; [tauto| |].
        -- destruct (decide (b ∈ acc)); tauto.
        -- right. by exists i.
    + intros Hacc Hall. apply Hn.
      * apply NoDup_app. split; [done|]. split.
        -- intros x ? [? _]%list_elem_of_filter. tauto.
        -- apply NoDup_filter, Hall. left.
      * intros i ?. apply Hall. by right.
Qed.

(** [_getBoards] returns a list that starts with [My Board] and holds
    exactly that name and the boards of the stored items; it has no
    repetition when no item lists a board twice.  The storage is as it
    was. *)
Theorem getBoards_lists_all_boards (m : Mem) :
  ∃ rest m',
    _getBoards m = Ret ("My Board" :: rest) m' ∧
    disk m' = disk m ∧
    (∀ b, b ∈ "My Board" :: rest ↔
          b = "My Board" ∨ ∃ k item, disk m !! k = Some item ∧ b ∈ boards item) ∧
    ((∀ k item, disk m !! k = Some item → NoDup (boards item)) →
     NoDup ("My Board" :: rest)).
Proof.
  unfold _getBoards. unfold bind at 1. unfold read_data.
  destruct (alloc_spec (disk m) m) as (r & m1 & -> & _ & Hr & [_ Hd] & _ & _).
  assert (Ho : obj m1 r = disk m) by (unfold obj; by rewrite Hr).
  unfold bind at 1. unfold keys_of.
  rewrite (all_keys_loop r m1 _
    (λ bs item, bs ++ filter (λ x, x ∉ bs) (boards item))).
  2: { intros acc id item Hk. unfold bind, get_prop. by rewrite Hk. }
  rewrite Ho.
  destruct (add_boards_spec ["My Board"] (items_of (disk m))) as ([rest Hrest] & Hm & Hn).
  simpl in Hrest. rewrite Hrest in *.
  exists rest, m1. split; [done|]. split; [done|]. split.
  - intros b. rewrite Hm, list_elem_of_singleton. split.
    + intros [?|(item & (k & Hk)%elem_of_items_of & ?)]; [tauto|].
      right. by exists k, item.
    + intros [?|(k & item & Hk & ?)]; [tauto|].
      right. exists item. split; [|done]. apply elem_of_items_of. by exists k.
  - intros Hall. apply Hn.
    + apply NoDup_singleton.
    + intros item (k & Hk)%elem_of_items_of. by eapply Hall.
Qed.

Lemma push_group_lookup (k b : string) (item : Item) (g : Grouping) :
  push_group k item g !! b
  = if decide (b = k) then Some (list_of g k ++ [item]) else g !! b.
Proof.
  unfold push_group, list_of.
  destruct (g !! k) as [l|] eqn:Hk; rewrite lookup_insert;
    repeat case_decide; simpl; congruence.
Qed.

Lemma group_step_lookup (test : Item → string → bool) (names : list string)
    (g : Grouping) (item : Item) (b : string) :
  NoDup names →
  group_step test names g item !! b
  = if bool_decide (b ∈ names) && test item b
    then Some (list_of g b ++ [item])
    else g !! b.
Proof.
  unfold group_step. revert g. induction names as [|k ks IH]; intros g Hnd; [done|].
  apply NoDup_cons in Hnd as [Hk Hnd]. simpl. rewrite IH by done.
  destruct (decide (b = k)) as [->|Hb].
  - rewrite (bool_decide_eq_false_2 (k ∈ ks)) by done.
    rewrite (bool_decide_eq_true_2 (k ∈ k :: ks)) by left. simpl.
    destruct (test item k); [|done].
    rewrite push_group_lookup. by rewrite decide_True.
  - rewrite (bool_decide_ext (b ∈ k :: ks) (b ∈ ks)).
    2: { rewrite elem_of_cons. tauto. }
    assert (Hsame : (if test item k then push_group k item g else g) !! b = g !! b).
    { destruct (test item k); [|done]. rewrite push_group_lookup.
      by rewrite decide_False. }
    unfold list_of. by rewrite Hsame.
Qed.

Lemma grouping_lookup (test : Item → string → bool) (names : list string)
    (items : list Item) (g : Grouping) (b : string) :
  NoDup names →
  foldl (group_step test names) g items !! b
  = if bool_decide (b ∈ names)
    then match filter (λ item, test item b = true) items with
         | [] => g !! b
         | l => Some (list_of g b ++ l)
         end
    else g !! b.
Proof.
  intros Hnd. revert g. induction items as [|item items IH]; intros g; simpl.
  { by destruct (bool_decide _). }
  rewrite IH. rewrite filter_cons.
  pose proof (group_step_lookup test names g item b Hnd) as Hstep.
  destruct (bool_decide (b ∈ names)); simpl in Hstep; [|done].
  unfold list_of at 1. rewrite Hstep.
  destruct (test item b).
  - rewrite decide_True by done. simpl.
    destruct (filter _ items); [done|]. by rewrite <- app_assoc.
  - rewrite decide_False by done. done.
Qed.

Lemma groupByBoard_eval (data : N) (bs : list string) (m : Mem) :
  bs ≠ [] →
  _groupByBoard (Some data) bs m
  = Ret (foldl (group_step on_board bs) ∅ (items_of (obj m data))) m.
Proof.
  intros Hne. unfold _groupByBoard. unfold bind at 1. unfold ret at 1.
  unfold bind at 1. destruct bs as [|b bs']; [done|].
  change (Nat.eqb (length (b :: bs')) 0) with false. cbv iota.
  unfold ret at 1. unfold bind at 1. unfold keys_of.
  apply all_keys_loop.
  intros acc id item Hk. unfold bind, get_prop. by rewrite Hk.
Qed.

Lemma groupByDate_eval (data : N) (dates : list string) (m : Mem) :
  _groupByDate (Some data) (Some dates) m
  = Ret (foldl (group_step on_date dates) ∅ (items_of (obj m data))) m.
Proof.
  unfold _groupByDate. unfold bind at 1. unfold ret at 1.
  unfold bind at 1. unfold ret at 1. unfold bind at 1. unfold keys_of.
  apply all_keys_loop.
  intros acc id item Hk. unfold bind, get_prop. by rewrite Hk.
Qed.





Lemma bucket_Some (l l' : list Item) : bucket l = Some l' → l' = l.
Proof. destruct l; [done|]. by intros [= <-]. Qed.

Lemma bucket_elem (l : list Item) (item : Item) :
  item ∈ l → bucket l = Some l.
Proof. destruct l; [by intros ?%elem_of_nil|done]. Qed.

(** Grouping a collection by the dates [_getDates] finds in it is a
    partition: every item is in the bucket of its creation date, and a
    bucket holds nothing but items of the collection created on its
    date. *)
Theorem groupByDate_partitions (data : N) (m : Mem) :
  ∃ dates g,
    _getDates (Some data) m = Ret dates m ∧
    _groupByDate (Some data) (Some dates) m = Ret g m ∧
    (∀ k item, obj m data !! k = Some item →
       ∃ l, g !! _date item = Some l ∧ item ∈ l) ∧
    (∀ d l item, g !! d = Some l → item ∈ l →
       _date item = d ∧ ∃ k, obj m data !! k = Some item).
Proof.
  eexists _, _. split; [apply getDates_eval|]. split; [apply groupByDate_eval|].
  assert (Hl : ∀ d,
    foldl (group_step on_date (Set_spread (_date <$> items_of (obj m data)))) ∅
          (items_of (obj m data)) !! d
    = if bool_decide (d ∈ Set_spread (_date <$> items_of (obj m data)))
      then bucket (filter (λ item, _date item = d) (items_of (obj m data)))
      else None).
  { intros d. rewrite grouping_lookup by apply Set_spread_from_NoDup.
    destruct (bool_decide _); [|done].
    rewrite (filter_ext_elem (λ item, on_date item d = true) (λ item, _date item = d)).
    2: { intros item _. unfold on_date. apply String.eqb_eq. }
    by destruct (filter _ _). }
  split.
  - intros k item Hk.
    assert (Hin : item ∈ items_of (obj m data)) by (apply elem_of_items_of; by exists k).
    eexists. rewrite Hl. rewrite bool_decide_eq_true_2.
    2: { apply Set_spread_elem, list_elem_of_fmap. by exists item. }
    split; [apply (bucket_elem _ item)|]; by apply list_elem_of_filter.
  - intros d l item Hg Hin. rewrite Hl in Hg.
    destruct (bool_decide _); [|done]. apply bucket_Some in Hg as ->.
    apply list_elem_of_filter in Hin as [Hd Hin]. split; [done|].
    by apply elem_of_items_of.
Qed.

(** ** Search *)

Lemma list_of_push_group (k b : string) (item : Item) (g : Grouping) :
  list_of (push_group k item g) b
  = if decide (b = k) then list_of g k ++ [item] else list_of g b.
Proof.
  unfold list_of at 1. rewrite push_group_lookup. by case_decide.
Qed.

Lemma elem_of_group_step (test : Item → string → bool) (names : list string)
    (g : Grouping) (item item' : Item) (b : string) :
  item' ∈ list_of (group_step test names g item) b ↔
  item' ∈ list_of g b ∨ (b ∈ names ∧ test item b = true ∧ item' = item).
Proof.
  unfold group_step. revert g. induction names as [|k ks IH]; intros g; simpl.
  { split; [tauto|]. intros [?|(?%elem_of_nil & _)]; tauto. }
  rewrite IH, elem_of_cons. destruct (test item k) eqn:Hk.
  - rewrite list_of_push_group. case_decide as Hb.
    + subst b. rewrite elem_of_app, list_elem_of_singleton. split; [|tauto].
      intros [[?|?]|?]; tauto.
    + split; [tauto|]. intros [?|([?|?] & ? & ?)]; tauto.
  - split; [tauto|]. intros [?|([->|?] & ? & ?)]; [tauto|congruence|tauto].
Qed.

Lemma elem_of_grouping (test : Item → string → bool) (names : list string)
    (items : list Item) (g : Grouping) (item : Item) (b : string) :
  item ∈ list_of (foldl (group_step test names) g items) b ↔
  item ∈ list_of g b ∨ (b ∈ names ∧ item ∈ items ∧ test item b = true).
Proof.
  revert g. induction items as [|i items IH]; intros g; simpl.
  { split; [tauto|]. intros [?|(_ & ?%elem_of_nil & _)]; tauto. }
  rewrite IH, elem_of_group_step, elem_of_cons. split.
  - intros [[?|(? & ? & ->)]|(? & ? & ?)]; tauto.
  - intros [?|(? & [->|?] & ?)]; tauto.
Qed.

Lemma list_of_elem (g : Grouping) (b : string) (item : Item) :
  item ∈ list_of g b ↔ ∃ l, g !! b = Some l ∧ item ∈ l.
Proof.
  unfold list_of. destruct (g !! b) as [l|]; simpl.
  - split; [intros ?; by exists l|]. by intros (l' & [= <-] & ?).
  - split; [by intros ?%elem_of_nil|]. by intros (? & ? & _).
Qed.

Section SearchResult.

Variable toLocaleLowerCase : string → string.

Lemma found_iff (terms : list string) (item : Item) :
  found toLocaleLowerCase terms item = true ↔
  description item ≠ EmptyString ∧
  ∃ term, term ∈ terms ∧
    includes (toLocaleLowerCase (description item)) (toLocaleLowerCase term) = true.
Proof.
  unfold found, _hasTerms.
  destruct (existsb _ terms) eqn:He.
  - apply existsb_exists in He as (term & Hin%list_elem_of_In & Hinc).
    destruct (description item) eqn:Hd; simpl.
    + split; [done|]. by intros [? _].
    + split; [|done]. intros _. split; [done|]. by exists term.
  - simpl. split; [done|]. intros (_ & term & Hin%list_elem_of_In & Hinc).
    assert (existsb (λ term, includes (toLocaleLowerCase (description item))
                               (toLocaleLowerCase term)) terms = true).
    { apply existsb_exists. by exists term. }
    congruence.
Qed.

Lemma findItems_loop_result (terms : list string) (result _data : N) (l : list N)
    (m : Mem) :
  result ≠ _data →
  is_Some (heap m !! result) →
  (∀ id, id ∈ l → is_Some (obj m _data !! id)) →
  ∃ m',
    forEach l (λ _ id,
      let* item := get_prop _data id in
      match item with
      | None => throw (TypeError "_data[id] is undefined")
      | Some item =>
          if negb (truthy (_hasTerms toLocaleLowerCase (description item) terms))
          then ret ()
          else set_prop result id item
      end) () m = Ret () m' ∧
    only_changes result m m' ∧
    is_Some (heap m' !! result) ∧
    (∀ k, obj m' result !! k
          = match obj m _data !! k with
            | Some item =>
                if bool_decide (k ∈ l) && found toLocaleLowerCase terms item
                then Some item else obj m result !! k
            | None => obj m result !! k
            end).
Proof.
  intros Hne. revert m. induction l as [|x l IH]; intros m Hres Hin.
  - exists m. split; [done|]. split; [apply only_changes_refl|]. split; [done|].
    intros k. by destruct (obj m _data !! k).
  - destruct (Hin x) as [item Hitem]; [left|].
    simpl. unfold bind at 1. unfold bind at 1. simpl. rewrite Hitem.
    fold (found toLocaleLowerCase terms item).
    destruct (found toLocaleLowerCase terms item) eqn:Hf; simpl.
    + set (m1 := mkMem (<[result := <[x := item]> (obj m result)]> (heap m))
                       (disk m) (displayed m)).
      assert (Hc : only_changes result m m1).
      { repeat split. intros r ?. simpl. by rewrite lookup_insert_ne. }
      assert (Hd : obj m1 _data = obj m _data).
      { by apply (obj_only_changes result). }
      assert (Hr : obj m1 result = <[x := item]> (obj m result)).
      { unfold obj at 1. simpl. by rewrite lookup_insert_eq. }
      destruct (IH m1) as (m' & Heq & Hc' & Hs' & Hl).
      { simpl. rewrite lookup_insert_eq. by eexists. }
      { intros id ?. rewrite Hd. apply Hin. by right. }
      exists m'. split; [exact Heq|]. split; [by eapply only_changes_trans|].
      split; [done|]. intros k. rewrite Hl, Hd, Hr.
      destruct (obj m _data !! k) as [i|] eqn:Hk.
      * destruct (decide (k = x)) as [->|Hkx].
        -- assert (i = item) as -> by congruence. rewrite Hf.
           rewrite (bool_decide_eq_true_2 (x ∈ x :: l)) by left.
           rewrite lookup_insert_eq. by destruct (bool_decide _).
        -- rewrite lookup_insert_ne by done.
           rewrite (bool_decide_ext (k ∈ x :: l) (k ∈ l)); [done|].
           rewrite elem_of_cons. tauto.
      * rewrite lookup_insert_ne; [done|]. intros ->. congruence.
    + destruct (IH m Hres) as (m' & Heq & Hc' & Hs' & Hl).
      { intros id ?. apply Hin. by right. }
      exists m'. split; [exact Heq|]. split; [done|]. split; [done|].
      intros k. rewrite Hl.
      destruct (obj m _data !! k) as [i|] eqn:Hk; [|done].
      destruct (decide (k = x)) as [->|Hkx].
      * assert (i = item) as -> by congruence. by rewrite Hf, !andb_false_r.
      * rewrite (bool_decide_ext (k ∈ x :: l) (k ∈ l)); [done|].
        rewrite elem_of_cons. tauto.
Qed.

End SearchResult.

Lemma getBoards_members (m : Mem) :
  ∃ bs m',
    _getBoards m = Ret bs m' ∧ keeps_objects m m' ∧ displayed m' = displayed m ∧
    bs ≠ [] ∧
    (∀ b, b ∈ bs ↔
          b = "My Board" ∨ ∃ k item, disk m !! k = Some item ∧ b ∈ boards item).
Proof.
  unfold _getBoards. unfold bind at 1. unfold read_data.
  destruct (alloc_spec (disk m) m) as (r & m1 & -> & _ & Hr & Hk & Hd & _).
  assert (Ho : obj m1 r = disk m) by (unfold obj; by rewrite Hr).
  unfold bind at 1. unfold keys_of.
  rewrite (all_keys_loop r m1 _
    (λ bs item, bs ++ filter (λ x, x ∉ bs) (boards item))).
  2: { intros acc id item Hit. unfold bind, get_prop. by rewrite Hit. }
  rewrite Ho.
  destruct (add_boards_spec ["My Board"] (items_of (disk m))) as ([rest Hrest] & Hm & _).
  eexists _, m1. split; [done|]. split; [done|]. split; [done|]. split.
  - rewrite Hrest. done.
  - intros b. rewrite Hm, list_elem_of_singleton. split.
    + intros [?|(item & (k & Hit)%elem_of_items_of & ?)]; [tauto|].
      right. by exists k, item.
    + intros [?|(k & item & Hit & ?)]; [tauto|].
      right. exists item. split; [|done]. apply elem_of_items_of. by exists k.
Qed.

Section SearchShown.

Variable toLocaleLowerCase : string → string.

(** [findItems] shows, grouped by board, exactly the stored items whose
    description is not empty and contains one of the terms, both taken
    in lower case: every item of a bucket is such an item and carries
    the bucket's board, and every such item is in the bucket of each of
    its boards.  The storage is as it was. *)
Theorem findItems_shows_matches (terms : list string) (m : Mem) :
  ∃ g m',
    findItems toLocaleLowerCase terms m = Ret () m' ∧
    displayed m' = displayed m ++ [displayByBoard g] ∧
    disk m' = disk m ∧
    (∀ b l item, g !! b = Some l → item ∈ l →
       found toLocaleLowerCase terms item = true ∧ b ∈ boards item ∧
       ∃ k, disk m !! k = Some item) ∧
    (∀ k item b, disk m !! k = Some item →
       found toLocaleLowerCase terms item = true → b ∈ boards item →
       ∃ l, g !! b = Some l ∧ item ∈ l) ∧
    (∀ item, found toLocaleLowerCase terms item = true ↔
       description item ≠ EmptyString ∧
       ∃ term, term ∈ terms ∧
         includes (toLocaleLowerCase (description item))
                  (toLocaleLowerCase term) = true).
Proof.
  unfold findItems. unfold bind at 1.
  destruct (alloc_spec ∅ m) as (result & m1 & -> & Hfresh & Hnew & [Hh1 Hd1] & Hs1 & _).
  unfold bind at 1. unfold read_data.
  destruct (alloc_spec (disk m1) m1)
    as (_data & m2 & -> & Hfresh2 & Hdata & [Hh2 Hd2] & Hs2 & _).
  assert (Hne : result ≠ _data) by (intros <-; congruence).
  assert (Hres2 : heap m2 !! result = Some ∅) by by apply Hh2.
  unfold bind at 1. unfold keys_of. unfold bind at 1.
  destruct (findItems_loop_result toLocaleLowerCase terms result _data
              (Object_keys (obj m2 _data)) m2 Hne)
    as (m3 & -> & (Hh3 & Hd3 & Hs3) & [c Hres3] & Hl).
  { by eexists. }
  { intros id. apply elem_of_Object_keys. }
  assert (Ho2 : obj m2 _data = disk m).
  { unfold obj. by rewrite Hdata, Hd1. }
  assert (Hempty : obj m2 result = ∅) by (unfold obj; by rewrite Hres2).
  assert (Hsel : ∀ k item, obj m3 result !! k = Some item ↔
            disk m !! k = Some item ∧ found toLocaleLowerCase terms item = true).
  { intros k item. rewrite Hl, Ho2, Hempty.
    destruct (disk m !! k) as [i|] eqn:Hk.
    - assert (bool_decide (k ∈ Object_keys (disk m)) = true) as ->.
      { apply bool_decide_eq_true, elem_of_Object_keys. by eexists. }
      simpl. destruct (found toLocaleLowerCase terms i) eqn:Hf.
      + split; [by intros [= <-]|]. by intros [[= <-] _].
      + rewrite lookup_empty. split; [done|]. intros [[= <-] ?]. congruence.
    - rewrite lookup_empty. split; [done|]. by intros [? _]. }
  unfold bind at 1. unfold _groupByBoard. unfold bind at 1. unfold ret at 1.
  unfold bind at 1. change (Nat.eqb (length (@nil string)) 0) with true. cbv iota.
  destruct (getBoards_members m3) as (bs & m4 & -> & [Hh4 Hd4] & Hs4 & Hbs & Hmem).
  assert (Ho4 : obj m4 result = obj m3 result).
  { unfold obj. by rewrite (Hh4 _ _ Hres3), Hres3. }
  unfold bind at 1. unfold keys_of.
  rewrite (all_keys_loop result m4 _ (group_step on_board bs)).
  2: { intros acc id item Hk. unfold bind, get_prop. by rewrite Hk. }
  rewrite Ho4.
  eexists _, _. split; [reflexivity|]. simpl.
  split; [by rewrite Hs4, Hs3, Hs2, Hs1|].
  split; [by rewrite Hd4, Hd3, Hd2, Hd1|].
  assert (Hd : disk m3 = disk m) by by rewrite Hd3, Hd2, Hd1.
  split; [|split].
  - intros b l item Hg Hin.
    assert (Hel : item ∈ list_of
              (foldl (group_step on_board bs) ∅ (items_of (obj m3 result))) b).
    { apply list_of_elem. by exists l. }
    apply elem_of_grouping in Hel as [Hel|(_ & (k & Hk)%elem_of_items_of & Hb)].
    { unfold list_of in Hel. rewrite lookup_empty in Hel. by apply elem_of_nil in Hel. }
    apply Hsel in Hk as [Hk Hf]. split; [done|]. split.
    + unfold on_board in Hb. by apply bool_decide_eq_true in Hb.
    + by exists k.
  - intros k item b Hk Hf Hb. apply list_of_elem, elem_of_grouping. right.
    split; [|split].
    + apply Hmem. right. exists k, item. by rewrite Hd.
    + apply elem_of_items_of. exists k. by apply Hsel.
    + unfold on_board. by apply bool_decide_eq_true.
  - apply found_iff.
Qed.

End SearchShown.

(** ** Listing by boards and attributes *)

Lemma names_board_cons (storedBoards : list string) (x : string) (terms : list string) :
  omap (names_board storedBoards) (x :: terms)
  = match names_board storedBoards x with
    | Some y => y :: omap (names_board storedBoards) terms
    | None => omap (names_board storedBoards) terms
    end.
Proof. reflexivity. Qed.

Lemma split_terms (storedBoards terms bs0 at0 : list string) :
  foldl (λ '(bs, attributes) x,
      if negb (bool_decide (("@" +:+ x) ∈ storedBoards)) then
        if String.eqb x "myboard" then (bs ++ ["My Board"], attributes)
        else (bs, attributes ++ [x])
      else (bs ++ ["@" +:+ x], attributes)) (bs0, at0) terms
  = (bs0 ++ omap (names_board storedBoards) terms,
     at0 ++ filter (λ x, names_board storedBoards x = None) terms).
Proof.
  revert bs0 at0. induction terms as [|x terms IH]; intros bs0 at0.
  { simpl. by rewrite !app_nil_r. }
  cbn [foldl]. rewrite filter_cons, names_board_cons.
  destruct (names_board storedBoards x) as [y|] eqn:Hnb.
  - rewrite decide_False by done. unfold names_board in Hnb.
    destruct (negb _); [destruct (String.eqb x "myboard"); [|done]|];
      injection Hnb as <-; rewrite IH; by rewrite <- app_assoc.
  - rewrite decide_True by done. unfold names_board in Hnb.
    destruct (negb _); [destruct (String.eqb x "myboard"); [done|]|done].
    rewrite IH. by rewrite <- app_assoc.
Qed.

Lemma delete_where_allocated (test : Item → bool) (data : N) (m : Mem) :
  is_Some (heap m !! data) →
  ends (delete_where test data m)
       (λ r m', r = data ∧ is_Some (heap m' !! data)) (λ _, True).
Proof.
  intros Hs. unfold delete_where. apply ends_bind. simpl.
  apply ends_bind.
  apply (ends_mono _ (λ _ m', is_Some (heap m' !! data)) _ (λ _, True)).
  { intros _ s Hx. simpl. by split. }
  { done. }
  apply ends_forEach; [done|].
  intros acc x s _ Hx. apply ends_bind. simpl.
  destruct (obj s data !! x) as [item|]; [|done].
  destruct (test item); simpl; [|done].
  rewrite lookup_insert_eq. by eexists.
Qed.

Lemma filterByAttributes_allocated (attr : list string) (data : N) (m : Mem) :
  is_Some (heap m !! data) →
  ends (_filterByAttributes attr (Some data) m)
       (λ _ m', is_Some (heap m' !! data)) (λ _, True).
Proof.
  intros Hs. unfold _filterByAttributes. apply ends_bind. simpl.
  apply ends_bind. simpl.
  destruct (Nat.eqb _ 0); [done|].
  apply ends_bind.
  apply (ends_mono _ (λ d m', d = data ∧ is_Some (heap m' !! data)) _ (λ _, True)).
  { by intros ? ? [_ ?]. }
  { done. }
  apply ends_forEach; [done|].
  intros acc x s _ [-> Hx].
  unfold _filterStarred, _filterComplete, _filterInProgress,
    _filterPending, _filterTask, _filterNote.
  repeat match goal with
  | |- context [if one_of x ?l then _ else _] => destruct (one_of x l)
  end.
  7: by split.
  all: by apply delete_where_allocated.
Qed.

Lemma filterByAttributes_default (attr : list string) (m : Mem) :
  ∃ r m', _filterByAttributes attr None m = Ret r m' ∧
          keeps_objects m m' ∧ displayed m' = displayed m ∧
          is_Some (heap m' !! r) ∧
          obj m' r = filter (λ kv, tags_hold attr kv.2 = true) (disk m).
Proof.
  destruct (alloc_spec (disk m) m) as (r & m1 & Ha & Hfresh & Hr & [Hh1 Hd1] & Hs1 & _).
  destruct (filterByAttributes_spec attr r m1) as (m' & Hf & Ho & Hh & Hd & Hs).
  pose proof (filterByAttributes_allocated attr r m1) as Hal.
  rewrite Hf in Hal. simpl in Hal.
  exists r, m'. split; [|split; [split|split; [|split]]].
  - unfold _filterByAttributes in *. unfold bind at 1. unfold read_data.
    rewrite Ha. exact Hf.
  - intros r' c Hr'. rewrite Hh; [by apply Hh1|]. intros ->. congruence.
  - by rewrite Hd.
  - by rewrite Hs.
  - apply Hal. by eexists.
  - unfold obj at 2 in Ho. rewrite Hr in Ho. exact Ho.
Qed.

Lemma groupByBoard_members (data : N) (bs : list string) (m : Mem) :
  is_Some (heap m !! data) →
  ∃ g m',
    _groupByBoard (Some data) bs m = Ret g m' ∧
    disk m' = disk m ∧ displayed m' = displayed m ∧
    ∀ b item,
      (∃ l, g !! b = Some l ∧ item ∈ l) ↔
      (∃ k, obj m data !! k = Some item) ∧ b ∈ boards item ∧
      match bs with
      | [] => b = "My Board" ∨ ∃ k i, disk m !! k = Some i ∧ b ∈ boards i
      | _ => b ∈ bs
      end.
Proof.
  intros [c Hc].
  assert (Hgroup : ∀ names b item,
    (∃ l, foldl (group_step on_board names) ∅ (items_of (obj m data)) !! b = Some l ∧
          item ∈ l) ↔
    (∃ k, obj m data !! k = Some item) ∧ b ∈ boards item ∧ b ∈ names).
  { intros names b item. rewrite <- list_of_elem, elem_of_grouping, elem_of_items_of.
    unfold on_board. rewrite bool_decide_eq_true. split.
    - intros [Hel|?]; [|tauto].
      unfold list_of in Hel. rewrite lookup_empty in Hel. by apply elem_of_nil in Hel.
    - tauto. }
  destruct bs as [|b0 bs'].
  - unfold _groupByBoard. unfold bind at 1. unfold ret at 1. unfold bind at 1.
    change (Nat.eqb (length (@nil string)) 0) with true. cbv iota.
    destruct (getBoards_members m) as (bs & m1 & -> & [Hh1 Hd1] & Hs1 & _ & Hmem).
    assert (Ho1 : obj m1 data = obj m data).
    { unfold obj. by rewrite (Hh1 _ _ Hc), Hc. }
    unfold bind at 1. unfold keys_of.
    rewrite (all_keys_loop data m1 _ (group_step on_board bs)).
    2: { intros acc id item Hk. unfold bind, get_prop. by rewrite Hk. }
    rewrite Ho1. eexists _, m1. split; [reflexivity|]. split; [done|]. split; [done|].
    intros b item. by rewrite Hgroup, Hmem.
  - rewrite groupByBoard_eval by done.
    eexists _, m. split; [reflexivity|]. split; [done|]. split; [done|].
    intros b item. apply Hgroup.
Qed.

(** [listByAttributes] takes a term [x] for the board [@x] when that is
    a stored board, for [My Board] when it is [myboard], and for an
    attribute otherwise.  It shows, grouped by board, the stored items
    that pass every attribute: under the boards the terms name, or under
    every board when they name none.  The storage is as it was. *)
Theorem listByAttributes_shows (terms : list string) (m : Mem) :
  ∃ storedBoards g m',
    (∀ b, b ∈ storedBoards ↔
          b = "My Board" ∨ ∃ k item, disk m !! k = Some item ∧ b ∈ boards item) ∧
    listByAttributes terms m = Ret () m' ∧
    displayed m' = displayed m ++ [displayByBoard g] ∧
    disk m' = disk m ∧
    ∀ b item,
      (∃ l, g !! b = Some l ∧ item ∈ l) ↔
      (∃ k, disk m !! k = Some item) ∧ b ∈ boards item ∧
      tags_hold (filter (λ x, names_board storedBoards x = None) terms) item = true ∧
      (omap (names_board storedBoards) terms = [] ∨
       b ∈ omap (names_board storedBoards) terms).
Proof.
  unfold listByAttributes. unfold bind at 1.
  destruct (getBoards_members m) as (stored & m1 & -> & [Hh1 Hd1] & Hs1 & _ & Hmem).
  exists stored.
  rewrite (split_terms stored terms [] []). cbv beta iota zeta. simpl app.
  set (bs := omap (names_board stored) terms).
  set (attrs := filter (λ x, names_board stored x = None) terms).
  unfold bind at 1.
  destruct (filterByAttributes_default (Set_spread attrs) m1)
    as (r & m2 & -> & [Hh2 Hd2] & Hs2 & Hal & Ho).
  unfold bind at 1.
  destruct (groupByBoard_members r (Set_spread bs) m2 Hal)
    as (g & m3 & -> & Hd3 & Hs3 & Hg).
  exists g. eexists. split; [done|]. split; [reflexivity|]. simpl.
  split; [by rewrite Hs3, Hs2, Hs1|]. split; [by rewrite Hd3, Hd2, Hd1|].
  intros b item. rewrite Hg, Ho, Hd1.
  assert (Hsel : (∃ k, filter (λ kv, tags_hold (Set_spread attrs) kv.2 = true)
                         (disk m) !! k = Some item) ↔
                 (∃ k, disk m !! k = Some item) ∧ tags_hold attrs item = true).
  { pose proof (tags_hold_same (Set_spread attrs) attrs item
                  (Set_spread_elem attrs)) as Hsame.
    split.
    - intros (k & [Hk Ht]%map_lookup_filter_Some). simpl in Ht.
      split; [by exists k|congruence].
    - intros [(k & Hk) Ht]. exists k. apply map_lookup_filter_Some.
      split; [done|]. simpl. congruence. }
  rewrite Hsel.
  destruct (Set_spread bs) as [|b0 bs'] eqn:Hsp.
  - apply Set_spread_nil in Hsp. rewrite Hsp, Hd2, Hd1. split.
    + intros ([? ?] & ? & _). tauto.
    + intros ((k & Hk) & Hb & Ht & _). split; [split; [by exists k|done]|].
      split; [done|]. right. by exists k, item.
  - rewrite <- Hsp, Set_spread_elem.
    assert (bs ≠ []) by (intros Hnil; by rewrite Hnil in Hsp).
    tauto.
Qed.

(** ** The storage backend *)

Lemma checkAndGetDynamoInstance_missing (cfg : Storage.Config) (w : Storage.World)
    (key : string) :
  first_missing cfg = Some key →
  Storage._checkAndGetDynamoInstance cfg w
  = Exit 1 (Storage.mkWorld (Storage.sent w) (Storage.main_file w)
              (Storage.notices w ++ [Storage.missingConfig key])).
Proof.
  unfold first_missing, Storage._checkAndGetDynamoInstance, bind.
  destruct (negb (Storage.is_set (Storage.dynamoBaseUrl cfg))).
  { by intros [= <-]. }
  destruct (negb (Storage.is_set (Storage.dynamoToken cfg))).
  { by intros [= <-]. }
  destruct (negb (Storage.is_set (Storage.dynamoNamespace cfg))).
  { by intros [= <-]. }
  done.
Qed.

(** With one of the three remote settings missing or empty, the remote
    read and the remote write both end the process with code 1 after
    reporting the first missing setting, in the order base URL, token,
    namespace; no request is sent and the local file is not touched.
    [Storage.get] and [Storage.set] with [useDynamo] on end the same
    way. *)
Theorem missing_config_sends_nothing
    (network : list Storage.request → Storage.request → Storage.reply)
    (JSON_parse : string → option (gmap N Item))
    (JSON_stringify : gmap N Item → string)
    (cfg : Storage.Config) (data : gmap N Item) (w : Storage.World) (key : string) :
  first_missing cfg = Some key →
  Storage._getFromDynamo network JSON_parse cfg w
    = Exit 1 (Storage.mkWorld (Storage.sent w) (Storage.main_file w)
                (Storage.notices w ++ [Storage.missingConfig key])) ∧
  Storage._setToDynamo network cfg data w
    = Exit 1 (Storage.mkWorld (Storage.sent w) (Storage.main_file w)
                (Storage.notices w ++ [Storage.missingConfig key])) ∧
  (Storage.useDynamo cfg = true →
   Storage.get network JSON_parse cfg w
     = Exit 1 (Storage.mkWorld (Storage.sent w) (Storage.main_file w)
                 (Storage.notices w ++ [Storage.missingConfig key])) ∧
   Storage.set network JSON_stringify cfg data w
     = Exit 1 (Storage.mkWorld (Storage.sent w) (Storage.main_file w)
                 (Storage.notices w ++ [Storage.missingConfig key]))).
Proof.
  intros Hm.
  assert (Hget : Storage._getFromDynamo network JSON_parse cfg w
    = Exit 1 (Storage.mkWorld (Storage.sent w) (Storage.main_file w)
                (Storage.notices w ++ [Storage.missingConfig key]))).
  { unfold Storage._getFromDynamo. unfold bind at 1.
    by rewrite (checkAndGetDynamoInstance_missing cfg w key). }
  assert (Hset : Storage._setToDynamo network cfg data w
    = Exit 1 (Storage.mkWorld (Storage.sent w) (Storage.main_file w)
                (Storage.notices w ++ [Storage.missingConfig key]))).
  { unfold Storage._setToDynamo. unfold bind at 1.
    by rewrite (checkAndGetDynamoInstance_missing cfg w key). }
  split; [done|]. split; [done|]. intros Hu.
  unfold Storage.get, Storage.set. by rewrite Hu.
Qed.

Lemma missing_config_sends_nothing_witness :
  Storage._getFromDynamo (λ _ _, Storage.Resolved None) (λ _, None)
    (Storage.mkConfig true (Some "https://kv.example") (Some EmptyString) None)
    (Storage.mkWorld [] (Some "{}") [])
  = Exit 1 (Storage.mkWorld [] (Some "{}") [Storage.missingConfig "dynamoToken"]).
Proof.
  apply (proj1 (missing_config_sends_nothing (λ _ _, Storage.Resolved None)
    (λ _, None) (λ _, "{}")
    (Storage.mkConfig true (Some "https://kv.example") (Some EmptyString) None)
    ∅ (Storage.mkWorld [] (Some "{}") []) "dynamoToken" eq_refl)).
Defined.

(** With the remote backend configured and a request that is answered,
    the read sends one GET and returns the parsed value of the answer,
    or the empty collection when the answer carries no value or an empty
    one, and also when the value does not parse: the parse error is
    caught.  The write sends one PUT with the collection and returns.
    Neither reports anything, and neither touches the local file. *)
Theorem remote_answer_is_parsed
    (network : list Storage.request → Storage.request → Storage.reply)
    (JSON_parse : string → option (gmap N Item))
    (cfg : Storage.Config) (data : gmap N Item) (w : Storage.World)
    (value : option string) :
  Storage.remote_ready cfg →
  let instance :=
    Storage.createInstance (Storage.text (Storage.dynamoBaseUrl cfg))
                           (Storage.text (Storage.dynamoToken cfg)) in
  let after r :=
    Storage.mkWorld (Storage.sent w ++ [r]) (Storage.main_file w) (Storage.notices w) in
  (network (Storage.sent w) (Storage.GET instance (Storage.dynamo_path cfg))
     = Storage.Resolved value →
   Storage._getFromDynamo network JSON_parse cfg w
     = Ret (match value with
            | None | Some EmptyString => ∅
            | Some v => default ∅ (JSON_parse v)
            end)
           (after (Storage.GET instance (Storage.dynamo_path cfg)))) ∧
  (network (Storage.sent w) (Storage.PUT instance (Storage.dynamo_path cfg) data)
     = Storage.Resolved value →
   Storage._setToDynamo network cfg data w
     = Ret () (after (Storage.PUT instance (Storage.dynamo_path cfg) data))).
Proof.
  intros Hr. simpl. split; intros Hn.
  - unfold Storage._getFromDynamo. unfold bind at 1.
    rewrite checkAndGetDynamoInstance_ready by done.
    unfold try_catch. unfold bind at 1. unfold Storage.perform. rewrite Hn.
    destruct value as [[|a v]|]; simpl; [done| |done].
    by destruct (JSON_parse (String a v)).
  - unfold Storage._setToDynamo. unfold bind at 1.
    rewrite checkAndGetDynamoInstance_ready by done.
    unfold try_catch. unfold bind at 1. unfold Storage.perform. by rewrite Hn.
Qed.

Lemma remote_answer_is_parsed_witness :
  Storage._getFromDynamo (λ _ _, Storage.Resolved (Some "{oops")) (λ _, None)
    (Storage.mkConfig true (Some "https://kv.example") (Some "secret") (Some "home"))
    (Storage.mkWorld [] None [])
  = Ret ∅ (Storage.mkWorld
      [Storage.GET (Storage.mkInstance "https://kv.example" "token secret")
                   "/api/home/storage.json"]
      None []).
Proof.
  apply (proj1 (remote_answer_is_parsed (λ _ _, Storage.Resolved (Some "{oops"))
    (λ _, None)
    (Storage.mkConfig true (Some "https://kv.example") (Some "secret") (Some "home"))
    ∅ (Storage.mkWorld [] None []) (Some "{oops")
    (conj eq_refl (conj eq_refl eq_refl)))).
  reflexivity.
Defined.

(** On the local file (the scratch file that is renamed over it is not
    followed), a collection that [JSON.parse] reads back from its
    [JSON.stringify] text is what [Storage.get] returns after
    [Storage.set]; writing it a second time changes nothing; and neither
    call sends a request or reports anything, whatever the remote
    settings are. *)
Theorem local_write_then_read
    (network : list Storage.request → Storage.request → Storage.reply)
    (JSON_parse : string → option (gmap N Item))
    (JSON_stringify : gmap N Item → string)
    (cfg : Storage.Config) (data : gmap N Item) (w : Storage.World) :
  Storage.useDynamo cfg = false →
  JSON_parse (JSON_stringify data) = Some data →
  ∃ w',
    Storage.set network JSON_stringify cfg data w = Ret () w' ∧
    Storage.get network JSON_parse cfg w' = Ret data w' ∧
    Storage.set network JSON_stringify cfg data w' = Ret () w' ∧
    Storage.sent w' = Storage.sent w ∧ Storage.notices w' = Storage.notices w.
Proof.
  intros Hu Hp. unfold Storage.set, Storage.get. rewrite Hu.
  eexists. split; [reflexivity|]. simpl. rewrite Hp. done.
Qed.

Lemma local_write_then_read_witness :
  ∃ w',
    Storage.set (λ _ _, Storage.Rejected "offline") (λ _, "{}")
      (Storage.mkConfig false None None None) ∅ (Storage.mkWorld [] None [])
    = Ret () w' ∧
    Storage.get (λ _ _, Storage.Rejected "offline") (λ _, Some ∅)
      (Storage.mkConfig false None None None) w' = Ret ∅ w' ∧
    Storage.set (λ _ _, Storage.Rejected "offline") (λ _, "{}")
      (Storage.mkConfig false None None None) ∅ w' = Ret () w' ∧
    Storage.sent w' = Storage.sent (Storage.mkWorld [] None []) ∧
    Storage.notices w' = Storage.notices (Storage.mkWorld [] None []).
Proof.
  apply (local_write_then_read (λ _ _, Storage.Rejected "offline") (λ _, Some ∅)
    (λ _, "{}") (Storage.mkConfig false None None None) ∅
    (Storage.mkWorld [] None []) eq_refl eq_refl).
Defined.
